(** * AppPulse dashboard: the filter and aggregation pipeline of [dashboard.py]

    The script loads a table of applications, narrows it with four sidebar
    controls and computes summary figures, category and sentiment charts,
    tables of the top performers, a random sample for a scatter plot, a
    name search and a CSV export from the narrowed table.  This file embeds
    that pipeline:

    - float64 columns are IEEE binary64 values ([spec_float] at precision 53),
      with NaN as the missing value, exactly as pandas stores them;
    - object (text) columns hold a string or a missing value;
    - the tables are lists of rows in index order;
    - the random generator behind [DataFrame.sample] is threaded explicitly.

    Text is ASCII, one [ascii] per character.  Library routines whose floating-point
    summation order is an implementation detail of numpy (pairwise blocks) or
    pandas (compensated group sums) are written as a plain left-to-right
    accumulation; nothing proved below depends on the rounding of a sum. *)

From Stdlib Require Import ZArith Lia Bool String Ascii DecimalString DecimalN.
From Stdlib Require Import Floats.SpecFloat.
From Stdlib Require Import QArith Qpower Qabs Lqa.
From stdpp Require Import list sorting.

Local Open Scope string_scope.
Local Open Scope list_scope.

(** ** Binary64 arithmetic *)

Module Float64.

Definition float : Type := spec_float.

Definition prec : Z := 53.
Definition emax : Z := 1024.

Definition nan : float := S754_nan.
Definition zero : float := S754_zero false.

(** Conversion of a machine or Python integer, rounding to nearest even. *)
Definition of_int (z : Z) : float := binary_normalize prec emax z 0 false.

Definition add : float -> float -> float := SFadd prec emax.
Definition sub : float -> float -> float := SFsub prec emax.
Definition mul : float -> float -> float := SFmul prec emax.
Definition div : float -> float -> float := SFdiv prec emax.

Definition ltb : float -> float -> bool := SFltb.
Definition leb : float -> float -> bool := SFleb.
Definition eqb : float -> float -> bool := SFeqb.

(** [x >= y] and [x > y]; both are false as soon as one side is NaN. *)
Definition geb (x y : float) : bool := leb y x.
Definition gtb (x y : float) : bool := ltb y x.

Definition is_nan (x : float) : bool :=
  match x with S754_nan => true | _ => false end.

(** The decimal literal [d / 10^k], correctly rounded (both operands are
    exact for the literals of the script). *)
Definition of_dec (d : Z) (k : nat) : float :=
  div (of_int d) (of_int (10 ^ Z.of_nat k)).

(** Position of a value in the order that [SFcompare] decides: class
    first (negative infinity, negative, zero, positive, positive
    infinity), then exponent and mantissa, mirrored for negatives. *)
Definition rank (x : float) : option (Z * Z * Z) :=
  match x with
  | S754_nan => None
  | S754_infinity true => Some (-2, 0, 0)%Z
  | S754_infinity false => Some (2, 0, 0)%Z
  | S754_zero _ => Some (0, 0, 0)%Z
  | S754_finite true m e => Some (-1, - e, Z.neg m)%Z
  | S754_finite false m e => Some (1, e, Z.pos m)%Z
  end.

Definition rank_lt (a b : Z * Z * Z) : Prop :=
  let '(c1, e1, m1) := a in
  let '(c2, e2, m2) := b in
  (c1 < c2 \/ (c1 = c2 /\ (e1 < e2 \/ (e1 = e2 /\ m1 < m2))))%Z.

(** The integer nearest to [num / den] for a positive [den], ties to even. *)
Definition round_half_even (num den : Z) : Z :=
  let q := (num / den)%Z in
  let r := (num mod den)%Z in
  match (2 * r ?= den)%Z with
  | Lt => q
  | Gt => (q + 1)%Z
  | Eq => if Z.even q then q else (q + 1)%Z
  end.

(** [rint]: the nearest integral float, ties to even. *)
Definition rint (x : float) : float :=
  match x with
  | S754_finite s m e =>
      if (0 <=? e)%Z then x
      else
        let n := round_half_even (Z.pos m) (2 ^ (- e)) in
        if (n =? 0)%Z then S754_zero s
        else of_int (if s then - n else n)%Z
  | _ => x
  end.

End Float64.

Import Float64.

(** ** Formatting of numbers, as the f-strings of the script do it *)

Definition string_of_Z (n : Z) : string :=
  NilZero.string_of_uint (N.to_uint (Z.to_N n)).

Fixpoint zeros (n : nat) : string :=
  match n with
  | O => ""
  | S n' => "0" ++ zeros n'
  end.

Definition pad_zeros (width : nat) (s : string) : string :=
  zeros (width - String.length s) ++ s.

(** The non-negative integer [n] read as a number with [d] decimals. *)
Definition fixed_point (d : nat) (n : Z) : string :=
  let s := pad_zeros (S d) (string_of_Z n) in
  let k := (String.length s - d)%nat in
  match d with
  | O => s
  | _ => substring 0 k s ++ "." ++ substring k d s
  end.

Definition sign_prefix (plus neg : bool) : string :=
  if neg then "-" else if plus then "+" else "".

(** [format(x, '.<d>f')], and [format(x, '+.<d>f')] when [plus] is set: the
    exact binary value rounded half-even to [d] decimals. *)
Definition format_fixed (plus : bool) (d : nat) (x : float) : string :=
  match x with
  | S754_nan => sign_prefix plus false ++ "nan"
  | S754_infinity s => sign_prefix plus s ++ "inf"
  | S754_zero s => sign_prefix plus s ++ fixed_point d 0
  | S754_finite s m e =>
      let scaled := (Z.pos m * 10 ^ Z.of_nat d)%Z in
      let n := if (0 <=? e)%Z then (scaled * 2 ^ e)%Z
               else round_half_even scaled (2 ^ (- e)) in
      sign_prefix plus s ++ fixed_point d n
  end.

(** ** Data model *)

(** A cell of a column that pandas read as int64 (no missing value) or as
    float64 (missing values are NaN). *)
Inductive num : Type :=
  | Int64 (z : Z)
  | Float (f : float).

Record Row : Type := mkRow {
  App : option string;
  Category : option string;
  Type_ : option string;
  Rating : float;
  Reviews : num;
  Installs_Clean : num;
  Price_Clean : float;
  Size_MB : float;
  sentiment_polarity_mean : float;
  positive_percentage : float;
  negative_percentage : float
}.

(** A table: its rows in index order. *)
Abbreviation DataFrame := (list Row).

(** The four sidebar controls. *)
Record FilterCriteria : Type := mkCriteria {
  selected_category : string;
  selected_type : string;
  min_rating : float;
  min_reviews : Z
}.

(** ** Element-wise column operations *)

(** [column == text] on an object column: a missing cell compares unequal. *)
Definition eq_str (cell : option string) (s : string) : bool :=
  match cell with
  | Some t => String.eqb t s
  | None => false
  end.

Definition isna_str (cell : option string) : bool :=
  match cell with Some _ => false | None => true end.

Definition isna_num (x : num) : bool :=
  match x with
  | Int64 _ => false
  | Float f => is_nan f
  end.

Definition num_to_float (x : num) : float :=
  match x with
  | Int64 z => of_int z
  | Float f => f
  end.

(** [column >= t] for a Python integer [t]: exact on an int64 column, and on
    a float64 column after conversion of [t] to float64. *)
Definition num_ge (x : num) (t : Z) : bool :=
  match x with
  | Int64 z => (t <=? z)%Z
  | Float f => geb f (of_int t)
  end.

(** [frame[mask]]: the rows at which the boolean mask is set. *)
Fixpoint boolean_index {A : Type} (rows : list A) (mask : list bool) : list A :=
  match rows, mask with
  | r :: rows', b :: mask' =>
      if b then r :: boolean_index rows' mask' else boolean_index rows' mask'
  | _, _ => []
  end.

(** ** Filter engine (lines 142-151) *)

Definition df_filtered (df : DataFrame) (c : FilterCriteria) : DataFrame :=
  let d0 := df in
  let d1 :=
    if negb (String.eqb (selected_category c) "All Categories")
    then boolean_index d0 (map (fun r => eq_str (Category r) (selected_category c)) d0)
    else d0 in
  let d2 :=
    if negb (String.eqb (selected_type c) "All Types")
    then boolean_index d1 (map (fun r => eq_str (Type_ r) (selected_type c)) d1)
    else d1 in
  let d3 := boolean_index d2 (map (fun r => geb (Rating r) (min_rating c)) d2) in
  let d4 := boolean_index d3 (map (fun r => num_ge (Reviews r) (min_reviews c)) d3) in
  d4.

(** ** Reductions *)

Definition count_true (mask : list bool) : nat :=
  length (List.filter (fun b => b) mask).

(** Sum of a float64 array, added from left to right (numpy adds in
    pairwise blocks from eight values on, which can change the last bit;
    nothing below depends on the rounding of a sum). *)
Definition np_sum (xs : list float) : float := fold_left add xs zero.

(** [Series.mean()], pandas' [nanmean]: missing values are filled with 0 for
    the sum and left out of the count; no value at all gives NaN. *)
Definition mean (xs : list float) : float :=
  let values := map (fun x => if is_nan x then zero else x) xs in
  let count := count_true (map (fun x => negb (is_nan x)) xs) in
  let the_sum := np_sum values in
  if (0 <? count)%nat then div the_sum (of_int (Z.of_nat count)) else nan.

(** Two's complement wrap-around of int64 arithmetic. *)
Definition wrap64 (z : Z) : Z :=
  ((z + 2 ^ 63) mod 2 ^ 64 - 2 ^ 63)%Z.

Fixpoint all_int64 (xs : list num) : option (list Z) :=
  match xs with
  | [] => Some []
  | Int64 z :: xs' =>
      match all_int64 xs' with
      | Some zs => Some (z :: zs)
      | None => None
      end
  | Float _ :: _ => None
  end.

(** [Series.sum()] of a numeric column: an int64 column adds with
    wrap-around, a float64 column adds its non-missing values. *)
Definition series_sum (xs : list num) : num :=
  match all_int64 xs with
  | Some zs => Int64 (fold_left (fun a z => wrap64 (a + z)) zs 0%Z)
  | None =>
      Float (np_sum (map (fun x => let f := num_to_float x in
                                   if is_nan f then zero else f) xs))
  end.

(** ** Key metrics (lines 170-199) *)

Record Metric : Type := mkMetric {
  label : string;
  value : string;
  delta : option string
}.

Definition avg_rating (v : DataFrame) : float := mean (map Rating v).

Definition total_installs (v : DataFrame) : num :=
  series_sum (map Installs_Clean v).

(** Share of the rows whose type is [t], in percent:
    [(column == t).sum() / len(frame) * 100].  The count is a numpy int64,
    so a zero length gives NaN (0/0) with a warning, not an exception. *)
Definition type_count (t : string) (v : DataFrame) : nat :=
  count_true (map (fun r => eq_str (Type_ r) t) v).

Definition type_percentage (t : string) (v : DataFrame) : float :=
  mul (div (of_int (Z.of_nat (type_count t v))) (of_int (Z.of_nat (length v))))
      (of_int 100).

Definition free_percentage (v : DataFrame) : float := type_percentage "Free" v.

(** The counterpart for paid applications that the specification names; the
    script itself only computes the share of free ones. *)
Definition paid_percentage (v : DataFrame) : float := type_percentage "Paid" v.

Definition metric_avg_rating (df v : DataFrame) : Metric :=
  {| label := "Average Rating";
     value := format_fixed false 2 (avg_rating v) ++ " ";
     delta := if (length v <? length df)%nat
              then Some (format_fixed true 2 (sub (avg_rating v) (mean (map Rating df))))
              else None |}.

Definition metric_total_installs (v : DataFrame) : Metric :=
  let t := num_to_float (total_installs v) in
  {| label := "Total Installs";
     value := if gtb t (of_int (10 ^ 9))
              then format_fixed false 1 (div t (of_int (10 ^ 9))) ++ "B"
              else format_fixed false 0 (div t (of_int (10 ^ 6))) ++ "M";
     delta := None |}.

Definition metric_free_apps (v : DataFrame) : Metric :=
  {| label := "Free Apps";
     value := format_fixed false 1 (free_percentage v) ++ "%";
     delta := None |}.

(** ** Category summary (lines 261-269) *)

Record CategorySummary : Type := mkSummary {
  summary_category : string;
  App_Count : nat;
  Avg_Rating : float;
  Total_Reviews : num;
  Total_Installs : num
}.

Definition string_le (a b : string) : Prop := String.leb a b = true.

#[local] Instance string_le_dec (a b : string) : Decision (string_le a b).
Proof. unfold string_le. destruct (String.leb a b); [left | right]; congruence. Defined.

#[local] Instance string_eq_dec : EqDecision string := String.string_dec.

Fixpoint present {A : Type} (cells : list (option A)) : list A :=
  match cells with
  | [] => []
  | Some x :: cells' => x :: present cells'
  | None :: cells' => present cells'
  end.

(** The group keys of [groupby('Category')]: the distinct categories that
    are present, in sorted order; rows without a category form no group. *)
Definition group_keys (v : DataFrame) : list string :=
  merge_sort string_le (remove_dups (present (map Category v))).

Definition group_rows (k : string) (v : DataFrame) : DataFrame :=
  boolean_index v (map (fun r => eq_str (Category r) k) v).

(** [round(2)] on a float64 value, as numpy computes it. *)
Definition round2 (x : float) : float :=
  div (rint (mul x (of_int 100))) (of_int 100).

Definition round2_num (x : num) : num :=
  match x with
  | Int64 z => Int64 z
  | Float f => Float (round2 f)
  end.

Definition summary_of_group (k : string) (g : DataFrame) : CategorySummary :=
  {| summary_category := k;
     App_Count := count_true (map (fun r => negb (isna_str (App r))) g);
     Avg_Rating := round2 (mean (map Rating g));
     Total_Reviews := round2_num (series_sum (map Reviews g));
     Total_Installs := round2_num (series_sum (map Installs_Clean g)) |}.

(** [sort_values('App Count', ascending=False)]: largest count first.  Rows
    with equal counts keep their order here; pandas leaves their order to
    numpy's default sorting routine, which is not stable, and nothing below
    depends on it. *)
Fixpoint insert_by_count (s : CategorySummary) (sorted : list CategorySummary)
    : list CategorySummary :=
  match sorted with
  | [] => [s]
  | x :: sorted' =>
      if (App_Count x <=? App_Count s)%nat then s :: sorted
      else x :: insert_by_count s sorted'
  end.

Definition sort_by_count (rows : list CategorySummary) : list CategorySummary :=
  foldr insert_by_count [] rows.

(** The summary table: one row per group, in key order, then sorted. *)
Definition category_summary (v : DataFrame) : list CategorySummary :=
  sort_by_count
    (map (fun k => summary_of_group k (group_rows k v)) (group_keys v)).

(** ** Price and size buckets (lines 444 and 465) *)

(** numpy's order on floats for sorting and searching: NaN is the largest. *)
Definition np_lt (a b : float) : bool :=
  ltb a b || (is_nan b && negb (is_nan a)).

Fixpoint binsearch_left (fuel : nat) (arr : list float) (key : float)
    (min_idx max_idx : nat) : nat :=
  match fuel with
  | O => min_idx
  | S fuel' =>
      if (min_idx <? max_idx)%nat then
        let mid := (min_idx + (max_idx - min_idx) / 2)%nat in
        if np_lt (nth mid arr nan) key
        then binsearch_left fuel' arr key (S mid) max_idx
        else binsearch_left fuel' arr key min_idx mid
      else min_idx
  end.

(** [arr.searchsorted(key, side='left')]. *)
Definition searchsorted_left (arr : list float) (key : float) : nat :=
  binsearch_left (S (length arr)) arr key 0 (length arr).

(** [pd.cut(x, bins)] with the defaults [right=True, include_lowest=False]:
    the code of the bucket of [x], or no bucket. *)
Definition cut (bins : list float) (x : float) : option nat :=
  let ids := searchsorted_left bins x in
  if is_nan x || (ids =? length bins)%nat || (ids =? 0)%nat
  then None
  else Some (ids - 1)%nat.

Definition price_bins : list float :=
  [of_int 0; of_dec 1 2; of_int 2; of_int 5; of_int 10; of_int 100].

Definition size_bins : list float :=
  [of_int 0; of_int 10; of_int 50; of_int 100; of_int 500].

Definition in_bucket (bins : list float) (key : Row -> float) (i : nat) (r : Row) : bool :=
  match cut bins (key r) with
  | Some j => (j =? i)%nat
  | None => false
  end.

(** [frame.groupby(pd.cut(column, bins))['Rating'].mean()]: one value per
    bucket in bucket order, NaN for a bucket without rows (the grouping
    keeps empty buckets, as the fixed labels of the charts suppose). *)
Definition bucket_means (bins : list float) (key : Row -> float) (v : DataFrame) : list float :=
  map (fun i => mean (map Rating (boolean_index v (map (in_bucket bins key i) v))))
      (seq 0 (length bins - 1)).

Definition price_rating (v : DataFrame) : list float := bucket_means price_bins Price_Clean v.
Definition size_rating (v : DataFrame) : list float := bucket_means size_bins Size_MB v.

Definition price_labels : list string := ["Free"; "$0-2"; "$2-5"; "$5-10"; "$10+"].
Definition size_labels : list string := ["<10MB"; "10-50MB"; "50-100MB"; ">100MB"].

(** The bars of the price chart: each label with its value. *)
Definition price_chart (v : DataFrame) : list (string * float) :=
  zip price_labels (price_rating v).

(** ** The scatter sample (line 314)

    [DataFrame.sample(n)] draws from numpy's process-wide generator:
    [choice(len, n, replace=False)] is the first [n] entries of
    [permutation(len)], a Fisher-Yates shuffle of [arange(len)] driven by
    [random_interval].  The generator is an interface here; its state is
    passed in and out. *)

Class RandomState (G : Type) : Type := {
  (** [random_interval g m]: a draw from [0..m] and the next state. *)
  random_interval : G -> nat -> nat * G;
  random_interval_le : forall g m, fst (random_interval g m) <= m
}.

Definition swap (arr : list nat) (i j : nat) : list nat :=
  match arr !! i, arr !! j with
  | Some a, Some b => <[j := a]> (<[i := b]> arr)
  | _, _ => arr
  end.

(** [for i in reversed(range(1, n)): j = random_interval(i); swap i j],
    entered with [i = n - 1]. *)
Fixpoint shuffle {G : Type} `{RandomState G} (i : nat) (g : G) (arr : list nat)
    : list nat * G :=
  match i with
  | O => (arr, g)
  | S i' =>
      let '(j, g') := random_interval g i in
      shuffle i' g' (swap arr i j)
  end.

Definition permutation {G : Type} `{RandomState G} (g : G) (n : nat) : list nat * G :=
  shuffle (n - 1) g (seq 0 n).

Definition choice {G : Type} `{RandomState G} (g : G) (pop size : nat) : list nat * G :=
  let '(p, g') := permutation g pop in (take size p, g').

(** [frame.take(indices)]; the indices of a permutation are always valid. *)
Definition take_rows (v : DataFrame) (idx : list nat) : DataFrame :=
  omap (fun i => v !! i) idx.

Definition sample {G : Type} `{RandomState G} (g : G) (n : nat) (v : DataFrame)
    : DataFrame * G :=
  let '(idx, g') := choice g (length v) n in (take_rows v idx, g').

Definition sample_df {G : Type} `{RandomState G} (g : G) (v : DataFrame) : DataFrame * G :=
  sample g (Nat.min 1000 (length v)) v.

(** A generator that replays a recorded sequence of raw draws, each reduced
    into the requested interval. *)
Definition replay_interval (g : list nat) (m : nat) : nat * list nat :=
  match g with
  | [] => (0, [])
  | x :: g' => (x mod S m, g')
  end.

#[export] Program Instance replay_random_state : RandomState (list nat) :=
  {| random_interval := replay_interval |}.
Next Obligation.
  intros [|x g] m; simpl; [lia|].
  pose proof (Nat.mod_upper_bound x (S m)); lia.
Qed.

(** ** Name search (lines 523-524)

    [Series.str.contains(query, case=False, na=False)] compiles the query as
    a regular expression (the default [regex=True]) with [re.IGNORECASE] and
    keeps the rows whose name has a match somewhere.  The fragment of the
    pattern language embedded here is: ordinary characters, and the dot;
    case is folded for the letters A to Z (the text is ASCII; the folding
    of other letters by [re.IGNORECASE] is not described). *)

Inductive atom : Type :=
  | Lit (c : ascii)
  | AnyChar.

Definition LF : ascii := "010"%char.
Definition CR : ascii := "013"%char.

Definition is_special (c : ascii) : bool :=
  existsb (Ascii.eqb c)
    ["."; "^"; "$"; "*"; "+"; "?"; "{"; "}"; "["; "]"; "\"; "|"; "("; ")"]%char.

(** [re.compile]: [None] for a pattern that uses an operator outside the
    fragment (Python then applies that operator, or raises [re.error]). *)
Fixpoint re_compile (pattern : string) : option (list atom) :=
  match pattern with
  | EmptyString => Some []
  | String c rest =>
      match re_compile rest with
      | None => None
      | Some atoms =>
          if Ascii.eqb c "."%char then Some (AnyChar :: atoms)
          else if is_special c then None
          else Some (Lit c :: atoms)
      end
  end.

Definition lower (c : ascii) : ascii :=
  let n := nat_of_ascii c in
  if ((65 <=? n) && (n <=? 90))%nat then ascii_of_nat (n + 32) else c.

Fixpoint lower_string (s : string) : string :=
  match s with
  | EmptyString => EmptyString
  | String c s' => String (lower c) (lower_string s')
  end.

(** One pattern atom against one character, ignoring case; the dot matches
    everything but a newline. *)
Definition atom_matches (a : atom) (c : ascii) : bool :=
  match a with
  | Lit x => Ascii.eqb (lower x) (lower c)
  | AnyChar => negb (Ascii.eqb c LF)
  end.

Fixpoint match_here (re : list atom) (s : string) : bool :=
  match re, s with
  | [], _ => true
  | a :: re', String c s' => atom_matches a c && match_here re' s'
  | _ :: _, EmptyString => false
  end.

(** [regex.search(s) is not None]. *)
Fixpoint re_search (re : list atom) (s : string) : bool :=
  match_here re s ||
  match s with
  | EmptyString => false
  | String _ s' => re_search re s'
  end.

Definition str_contains (re : list atom) (cell : option string) : bool :=
  match cell with
  | Some s => re_search re s
  | None => false
  end.

Inductive SearchOutcome : Type :=
  | NoSearch                      (* empty query: the branch is not taken *)
  | OutsideFragment               (* pattern not covered by [re_compile] *)
  | SearchResults (rows : DataFrame).

Definition search_results (v : DataFrame) (search_query : string) : SearchOutcome :=
  match search_query with
  | EmptyString => NoSearch
  | _ =>
      match re_compile search_query with
      | None => OutsideFragment
      | Some re => SearchResults (boolean_index v (map (fun r => str_contains re (App r)) v))
      end
  end.

(** What a literal search would be: the name, lower-cased, contains the
    lower-cased query as a substring. *)
Definition contains_literal (name query : string) : Prop :=
  exists pre post : string,
    lower_string name = (pre ++ lower_string query ++ post)%string.

(** ** CSV export (line 537) and re-reading

    [frame.to_csv(index=False)] hands the header and the rows, cell by cell,
    to Python's [csv.writer] with minimal quoting and line terminator LF:
    text cells as they are, a missing cell as the empty field, integers in
    decimal, floats in their shortest round-tripping form ([repr]). *)

Definition DQUOTE : ascii := "034"%char.
Definition COMMA : ascii := ","%char.

(** Number of decimal digits of a positive integer. *)
Definition digits10 (n : Z) : Z := Z.of_nat (String.length (string_of_Z n)).

(** The float that a decimal [c * 10^q] denotes ([c >= 0]), correctly
    rounded. *)
Definition dec_to_float (neg : bool) (c q : Z) : float :=
  match c with
  | Z.pos p =>
      if (0 <=? q)%Z
      then binary_normalize prec emax (if neg then - (c * 10 ^ q) else c * 10 ^ q)%Z 0 false
      else SFdiv prec emax (S754_finite neg p 0)
                           (S754_finite false (Z.to_pos (10 ^ (- q))) 0)
  | _ => S754_zero neg
  end.

(** [floor (log10 (m * 2^e))]. *)
Definition floor_log10 (m : positive) (e : Z) : Z :=
  if (0 <=? e)%Z then (digits10 (Z.pos m * 2 ^ e) - 1)%Z
  else
    let a := (digits10 (Z.pos m) - 1)%Z in
    let b := (digits10 (2 ^ (- e)) - 1)%Z in
    let k := (a - b)%Z in
    (* is 10^k <= m / 2^(-e) ? *)
    let fits := if (0 <=? k)%Z
                then (10 ^ k * 2 ^ (- e) <=? Z.pos m)%Z
                else (2 ^ (- e) <=? Z.pos m * 10 ^ (- k))%Z in
    if fits then k else (k - 1)%Z.

(** The [n]-digit decimal for [m * 2^e] that reads back as the same float,
    if there is one: the integer of digits and its decimal exponent. *)
Definition repr_candidate (m : positive) (e : Z) (k : Z) (n : Z) (force : bool)
    : option (Z * Z) :=
  let q := (k - n + 1)%Z in
  let num := (Z.pos m * 2 ^ Z.max e 0 * 10 ^ Z.max (- q) 0)%Z in
  let den := (2 ^ Z.max (- e) 0 * 10 ^ Z.max q 0)%Z in
  let lo := (num / den)%Z in
  let r := (num mod den)%Z in
  let hi := (lo + 1)%Z in
  let same (c : Z) : bool :=
    match dec_to_float false c q with
    | S754_finite false m' e' => Pos.eqb m m' && Z.eqb e e'
    | _ => false
    end in
  let nearest := match (2 * r ?= den)%Z with
                 | Lt => lo
                 | Gt => hi
                 | Eq => if Z.even lo then lo else hi
                 end in
  if (r =? 0)%Z then Some (lo, q)
  else if force then Some (nearest, q)
  else match same lo, same hi with
       | true, true => Some (nearest, q)
       | true, false => Some (lo, q)
       | false, true => Some (hi, q)
       | false, false => None
       end.

Fixpoint shortest_digits (fuel : nat) (m : positive) (e : Z) (k : Z) (n : Z) : Z * Z :=
  match fuel with
  | O => match repr_candidate m e k n true with
         | Some cq => cq
         | None => (0, 0)%Z
         end
  | S fuel' =>
      match repr_candidate m e k n false with
      | Some cq => cq
      | None => shortest_digits fuel' m e k (n + 1)
      end
  end.

Fixpoint strip_zeros_rev (s : list ascii) : list ascii :=
  match s with
  | "0"%char :: s' => strip_zeros_rev s'
  | _ => s
  end.

Definition strip_trailing_zeros (s : string) : string :=
  string_of_list_ascii (rev (strip_zeros_rev (rev (list_ascii_of_string s)))).

Definition int_repr (z : Z) : string :=
  if (z <? 0)%Z then "-" ++ string_of_Z (- z) else string_of_Z z.

(** [repr] of a finite non-zero magnitude from its shortest digits [ds] and
    the position [decpt] of the decimal point. *)
Definition repr_layout (ds : string) (decpt : Z) : string :=
  let n := Z.of_nat (String.length ds) in
  if ((decpt <=? -4) || (16 <? decpt))%Z then
    let ex := (decpt - 1)%Z in
    let mant := match ds with
                | String d EmptyString => ds
                | String d rest => String d ("." ++ rest)
                | EmptyString => ds
                end in
    mant ++ "e" ++ (if (ex <? 0)%Z then "-" else "+") ++ pad_zeros 2 (string_of_Z (Z.abs ex))
  else if (decpt <=? 0)%Z then
    "0." ++ zeros (Z.to_nat (- decpt)) ++ ds
  else if (n <=? decpt)%Z then
    ds ++ zeros (Z.to_nat (decpt - n)) ++ ".0"
  else
    substring 0 (Z.to_nat decpt) ds ++ "." ++
    substring (Z.to_nat decpt) (Z.to_nat (n - decpt)) ds.

Definition float_repr (x : float) : string :=
  match x with
  | S754_nan => "nan"
  | S754_infinity s => if s then "-inf" else "inf"
  | S754_zero s => if s then "-0.0" else "0.0"
  | S754_finite s m e =>
      let k := floor_log10 m e in
      let '(c, q) := shortest_digits 16 m e k 1 in
      let ds := string_of_Z c in
      let decpt := (q + Z.of_nat (String.length ds))%Z in
      (if s then "-" else "") ++ repr_layout (strip_trailing_zeros ds) decpt
  end.

Fixpoint has_char (p : ascii -> bool) (s : string) : bool :=
  match s with
  | EmptyString => false
  | String c s' => p c || has_char p s'
  end.

(** Minimal quoting: a field is quoted when it holds the delimiter, the
    quote character or a character of the line terminator. *)
Definition quote_trigger (c : ascii) : bool :=
  Ascii.eqb c COMMA || Ascii.eqb c DQUOTE || Ascii.eqb c LF.

Definition needs_quote (f : string) : bool := has_char quote_trigger f.

Fixpoint double_quotes (f : string) : string :=
  match f with
  | EmptyString => EmptyString
  | String c f' =>
      if Ascii.eqb c DQUOTE
      then String DQUOTE (String DQUOTE (double_quotes f'))
      else String c (double_quotes f')
  end.

Definition write_field (f : string) : string :=
  if needs_quote f
  then String DQUOTE (double_quotes f ++ String DQUOTE EmptyString)
  else f.

Fixpoint join_fields (fs : list string) : string :=
  match fs with
  | [] => EmptyString
  | [f] => write_field f
  | f :: fs' => write_field f ++ String COMMA (join_fields fs')
  end.

(** [csv.writer.writerow]; a record that is one empty field is written as a
    pair of quotes. *)
Definition writerow (fields : list string) : string :=
  match fields with
  | [EmptyString] => String DQUOTE (String DQUOTE (String LF EmptyString))
  | _ => join_fields fields ++ String LF EmptyString
  end.

Fixpoint writerows (rows : list (list string)) : string :=
  match rows with
  | [] => EmptyString
  | r :: rows' => writerow r ++ writerows rows'
  end.

Definition str_cell (c : option string) : string :=
  match c with
  | Some s => s
  | None => EmptyString
  end.

Definition float_cell (x : float) : string :=
  if is_nan x then EmptyString else float_repr x.

Definition num_cell (x : num) : string :=
  match x with
  | Int64 z => int_repr z
  | Float f => float_cell f
  end.

Definition header : list string :=
  ["App"; "Category"; "Type"; "Rating"; "Reviews"; "Installs_Clean";
   "Price_Clean"; "Size_MB"; "sentiment_polarity_mean";
   "positive_percentage"; "negative_percentage"].

Definition row_fields (r : Row) : list string :=
  [str_cell (App r); str_cell (Category r); str_cell (Type_ r);
   float_cell (Rating r); num_cell (Reviews r); num_cell (Installs_Clean r);
   float_cell (Price_Clean r); float_cell (Size_MB r);
   float_cell (sentiment_polarity_mean r);
   float_cell (positive_percentage r); float_cell (negative_percentage r)].

Definition to_csv (v : DataFrame) : string :=
  writerows (header :: map row_fields v).

(** ** Re-reading an export: the tokenizer of [read_csv]

    The states and transitions of the C tokenizer for the default dialect
    (comma, double quote with doubling, blank lines skipped).  Input with a
    carriage return is outside this embedding: [step] gives [None]. *)

Inductive parser_state : Type :=
  | START_RECORD
  | WHITESPACE_LINE
  | START_FIELD
  | IN_FIELD
  | IN_QUOTED_FIELD
  | QUOTE_IN_QUOTED_FIELD.

Record tokenizer : Type := mkTokenizer {
  state : parser_state;
  field : string;               (* characters of the field being read *)
  line : list string;           (* fields of the record being read *)
  lines : list (list string)    (* finished records *)
}.

Definition set_state (s : parser_state) (t : tokenizer) : tokenizer :=
  mkTokenizer s (field t) (line t) (lines t).

Definition push_char (c : ascii) (t : tokenizer) : tokenizer :=
  mkTokenizer (state t) (field t ++ String c EmptyString) (line t) (lines t).

Definition end_field (t : tokenizer) : tokenizer :=
  mkTokenizer (state t) EmptyString (line t ++ [field t]) (lines t).

Definition end_line (t : tokenizer) : tokenizer :=
  mkTokenizer START_RECORD EmptyString [] (lines t ++ [line t]).

Definition is_whitespace (c : ascii) : bool :=
  Ascii.eqb c " "%char || Ascii.eqb c "009"%char.

Definition step_start_field (t : tokenizer) (c : ascii) : tokenizer :=
  if Ascii.eqb c LF then end_line (end_field t)
  else if Ascii.eqb c DQUOTE then set_state IN_QUOTED_FIELD t
  else if Ascii.eqb c COMMA then set_state START_FIELD (end_field t)
  else push_char c (set_state IN_FIELD t).

Definition step_in_field (t : tokenizer) (c : ascii) : tokenizer :=
  if Ascii.eqb c LF then end_line (end_field t)
  else if Ascii.eqb c COMMA then set_state START_FIELD (end_field t)
  else push_char c (set_state IN_FIELD t).

Definition step (t : tokenizer) (c : ascii) : option tokenizer :=
  if Ascii.eqb c CR then None
  else Some
    match state t with
    | START_RECORD =>
        if Ascii.eqb c LF then t
        else if is_whitespace c then push_char c (set_state WHITESPACE_LINE t)
        else step_start_field t c
    | WHITESPACE_LINE =>
        if Ascii.eqb c LF then mkTokenizer START_RECORD EmptyString (line t) (lines t)
        else if is_whitespace c then push_char c t
        else (* not a blank line after all: the blanks begin its first field *)
          step_in_field t c
    | START_FIELD => step_start_field t c
    | IN_FIELD => step_in_field t c
    | IN_QUOTED_FIELD =>
        if Ascii.eqb c DQUOTE then set_state QUOTE_IN_QUOTED_FIELD t
        else push_char c t
    | QUOTE_IN_QUOTED_FIELD =>
        if Ascii.eqb c DQUOTE then push_char c (set_state IN_QUOTED_FIELD t)
        else step_in_field t c
    end.

Fixpoint tokenize_bytes (t : tokenizer) (data : string) : option tokenizer :=
  match data with
  | EmptyString => Some t
  | String c data' =>
      match step t c with
      | Some t' => tokenize_bytes t' data'
      | None => None
      end
  end.

(** End of input: an open field and record are closed; the end of input
    inside a quoted field is an error. *)
Definition handle_eof (t : tokenizer) : option (list (list string)) :=
  match state t with
  | START_RECORD | WHITESPACE_LINE => Some (lines t)
  | IN_QUOTED_FIELD => None
  | START_FIELD | IN_FIELD | QUOTE_IN_QUOTED_FIELD => Some (lines (end_line (end_field t)))
  end.

Definition tokenize (data : string) : option (list (list string)) :=
  match tokenize_bytes (mkTokenizer START_RECORD EmptyString [] []) data with
  | Some t => handle_eof t
  | None => None
  end.

(** ** Re-reading an export: type inference of [read_csv]

    Each column is converted as a whole, trying int64, then float64, then
    bool, and is left as text otherwise.  The default missing-value markers
    are recognised first. *)

Definition na_values : list string :=
  [""; "#N/A"; "#N/A N/A"; "#NA"; "-1.#IND"; "-1.#QNAN"; "-NaN"; "-nan";
   "1.#IND"; "1.#QNAN"; "<NA>"; "N/A"; "NA"; "NULL"; "NaN"; "None"; "n/a";
   "nan"; "null"].

Definition is_na (s : string) : bool := existsb (String.eqb s) na_values.

Definition is_space (c : ascii) : bool :=
  let n := nat_of_ascii c in ((n =? 32) || ((9 <=? n) && (n <=? 13)))%nat.

Fixpoint skip_space (s : list ascii) : list ascii :=
  match s with
  | c :: s' => if is_space c then skip_space s' else s
  | [] => []
  end.

Definition digit_value (c : ascii) : option Z :=
  let n := nat_of_ascii c in
  if ((48 <=? n) && (n <=? 57))%nat then Some (Z.of_nat (n - 48)) else None.

(** The leading run of digits: its value, its length and the rest. *)
Fixpoint read_digits (s : list ascii) (acc : Z) (count : nat) : Z * nat * list ascii :=
  match s with
  | c :: s' =>
      match digit_value c with
      | Some d => read_digits s' (10 * acc + d)%Z (S count)
      | None => (acc, count, s)
      end
  | [] => (acc, count, [])
  end.

Definition read_sign (s : list ascii) : bool * list ascii :=
  match s with
  | "-"%char :: s' => (true, s')
  | "+"%char :: s' => (false, s')
  | _ => (false, s)
  end.

(** An integer literal: blanks, sign, digits, blanks. *)
Definition parse_int (s : string) : option Z :=
  let '(neg, s1) := read_sign (skip_space (list_ascii_of_string s)) in
  let '(n, count, s2) := read_digits s1 0%Z 0 in
  match count, skip_space s2 with
  | S _, [] => Some (if neg then - n else n)%Z
  | _, _ => None
  end.

Definition read_exponent (s : list ascii) : Z * list ascii :=
  match s with
  | c :: s' =>
      if Ascii.eqb c "e"%char || Ascii.eqb c "E"%char then
        let '(neg, s1) := read_sign s' in
        let '(n, count, s2) := read_digits s1 0%Z 0 in
        match count with
        | O => (0%Z, s)
        | S _ => ((if neg then - n else n)%Z, s2)
        end
      else (0%Z, s)
  | [] => (0%Z, [])
  end.

Definition parse_infinity (s : string) : option float :=
  let t := lower_string s in
  if String.eqb t "inf" || String.eqb t "+inf" || String.eqb t "infinity" ||
     String.eqb t "+infinity" then Some (S754_infinity false)
  else if String.eqb t "-inf" || String.eqb t "-infinity" then Some (S754_infinity true)
  else None.

(** A float literal: blanks, sign, digits with an optional point, optional
    exponent, blanks; or a spelling of infinity.  The value is taken
    correctly rounded; the default parser of pandas can be one unit in the
    last place off on long literals, and the function is applied below to
    exactly representable values only. *)
Definition parse_float (s : string) : option float :=
  let '(neg, s1) := read_sign (skip_space (list_ascii_of_string s)) in
  let '(ip, icount, s2) := read_digits s1 0%Z 0 in
  let '(mant, fcount, s3) :=
    match s2 with
    | "."%char :: s2' =>
        let '(m, total, rest) := read_digits s2' ip icount in
        (m, (total - icount)%nat, rest)
    | _ => (ip, 0, s2)
    end in
  let '(ex, s4) := read_exponent s3 in
  match (icount + fcount)%nat, skip_space s4 with
  | S _, [] => Some (dec_to_float neg mant (ex - Z.of_nat fcount))
  | _, _ => parse_infinity s
  end.

Definition parse_bool (s : string) : option bool :=
  if String.eqb s "True" || String.eqb s "TRUE" || String.eqb s "true" then Some true
  else if String.eqb s "False" || String.eqb s "FALSE" || String.eqb s "false" then Some false
  else None.

Inductive column : Type :=
  | ColInt (xs : list Z)
  | ColFloat (xs : list float)
  | ColBool (xs : list bool)
  | ColObject (xs : list (option string)).

Definition in_int64 (z : Z) : bool := ((- 2 ^ 63 <=? z) && (z <? 2 ^ 63))%Z.

Definition int_cell (s : string) : option Z :=
  if is_na s then None
  else match parse_int s with
       | Some z => if in_int64 z then Some z else None
       | None => None
       end.

Definition float_or_na_cell (s : string) : option float :=
  if is_na s then Some nan else parse_float s.

Definition bool_cell (s : string) : option bool :=
  if is_na s then None else parse_bool s.

Definition object_cell (s : string) : option string :=
  if is_na s then None else Some s.

(** Cells whose handling by pandas is not described here: an integer
    literal beyond int64, and a truth value in a column with missing cells. *)
Definition beyond_int64 (s : string) : bool :=
  negb (is_na s) &&
  match parse_int s with
  | Some z => negb (in_int64 z)
  | None => false
  end.

Definition bool_with_na (cells : list string) : bool :=
  existsb is_na cells &&
  forallb (fun s => is_na s || match parse_bool s with Some _ => true | None => false end) cells &&
  existsb (fun s => negb (is_na s)) cells.

Definition infer_column (cells : list string) : option column :=
  match cells with
  | [] => Some (ColObject [])
  | _ =>
      if existsb beyond_int64 cells || bool_with_na cells then None
      else
        match mapM int_cell cells with
        | Some zs => Some (ColInt zs)
        | None =>
            match mapM float_or_na_cell cells with
            | Some fs => Some (ColFloat fs)
            | None =>
                match mapM bool_cell cells with
                | Some bs => Some (ColBool bs)
                | None => Some (ColObject (map object_cell cells))
                end
            end
        end
  end.

Definition nth_field (i : nat) (record : list string) : string :=
  nth i record EmptyString.

(** [pd.read_csv(text)] with the defaults, for rectangular input: the
    first record names the columns. *)
Definition read_csv (text : string) : option (list (string * column)) :=
  match tokenize text with
  | Some (names :: records) =>
      if forallb (fun rec => (length rec =? length names)%nat) records
      then mapM (fun '(i, name) =>
                   match infer_column (map (nth_field i) records) with
                   | Some col => Some (name, col)
                   | None => None
                   end)
                (imap (fun i name => (i, name)) names)
      else None
  | _ => None
  end.

(** The filtered table seen column by column, with the type of each. *)
Definition num_column (xs : list num) : column :=
  match all_int64 xs with
  | Some zs => ColInt zs
  | None => ColFloat (map num_to_float xs)
  end.

Definition typed_columns (v : DataFrame) : list (string * column) :=
  [("App", ColObject (map App v));
   ("Category", ColObject (map Category v));
   ("Type", ColObject (map Type_ v));
   ("Rating", ColFloat (map Rating v));
   ("Reviews", num_column (map Reviews v));
   ("Installs_Clean", num_column (map Installs_Clean v));
   ("Price_Clean", ColFloat (map Price_Clean v));
   ("Size_MB", ColFloat (map Size_MB v));
   ("sentiment_polarity_mean", ColFloat (map sentiment_polarity_mean v));
   ("positive_percentage", ColFloat (map positive_percentage v));
   ("negative_percentage", ColFloat (map negative_percentage v))].

(** ** Sidebar: the category entries and the row counter (lines 128 and 154) *)

(** The entries of the category select box:
    [['All Categories'] + sorted(column.dropna().unique().tolist())]. *)
Definition categories (df : DataFrame) : list string :=
  ["All Categories"] ++ merge_sort string_le (remove_dups (present (map Category df))).

(** Grouping of decimal digits by thousands; the digits come least
    significant first, as the separators are inserted from the right. *)
Fixpoint group_thousands (rev_digits : list ascii) : list ascii :=
  match rev_digits with
  | a :: b :: c :: rest =>
      match rest with
      | [] => [a; b; c]
      | _ :: _ => a :: b :: c :: COMMA :: group_thousands rest
      end
  | _ => rev_digits
  end.

(** [format(n, ',')] for a length [n]. *)
Definition format_thousands (n : nat) : string :=
  string_of_list_ascii
    (rev (group_thousands (rev (list_ascii_of_string (string_of_Z (Z.of_nat n)))))).

Definition showing (df v : DataFrame) : string :=
  "**Showing:** " ++ format_thousands (length v) ++ " / " ++
  format_thousands (length df) ++ " apps".

(** ** The first key metric (lines 172-177) *)

Definition metric_total_apps (c : FilterCriteria) (df v : DataFrame) : Metric :=
  {| label := "Total Apps";
     value := format_thousands (length v);
     delta := if negb (String.eqb (selected_category c) "All Categories")
              then Some (int_repr (Z.of_nat (length v) - Z.of_nat (length df)))
              else None |}.

(** ** Sorting in descending order

    [sort_values(ascending=False)] and [nlargest]: largest first, missing
    values last.  Entries that compare equal keep their order ([nlargest]
    documents that; where pandas leaves it to the sorting routine, nothing
    below depends on it). *)

Fixpoint insert_desc {A : Type} (ge : A -> A -> bool) (x : A) (sorted : list A) : list A :=
  match sorted with
  | [] => [x]
  | y :: sorted' => if ge x y then x :: sorted else y :: insert_desc ge x sorted'
  end.

Definition sort_desc {A : Type} (ge : A -> A -> bool) (l : list A) : list A :=
  foldr (insert_desc ge) [] l.

(** [a] may stand before [b]: [b] is missing, or [a >= b]. *)
Definition ge_nan_last (a b : float) : bool := is_nan b || geb a b.

(** ** Category charts (lines 215 and 238) *)

(** [unique()]: the distinct values in order of first appearance. *)
Fixpoint unique_from (seen values : list string) : list string :=
  match values with
  | [] => []
  | x :: values' =>
      if existsb (String.eqb x) seen then unique_from seen values'
      else x :: unique_from (x :: seen) values'
  end.

Definition unique (values : list string) : list string := unique_from [] values.

(** [Series.value_counts()]: each distinct present value, taken in order of
    first appearance, with its number of cells; then sorted, the most
    frequent first.  Missing cells are not counted. *)
Definition value_counts (cells : list (option string)) : list (string * nat) :=
  sort_desc (fun a b => (snd b <=? snd a)%nat)
    (map (fun k => (k, count_true (map (fun cell => eq_str cell k) cells)))
         (unique (present cells))).

Definition category_counts (v : DataFrame) : list (string * nat) :=
  take 10 (value_counts (map Category v)).

(** [groupby('Category')['Rating'].mean().sort_values(ascending=False).head(10)]. *)
Definition category_ratings (v : DataFrame) : list (string * float) :=
  take 10
    (sort_desc (fun a b => ge_nan_last (snd a) (snd b))
       (map (fun k => (k, mean (map Rating (group_rows k v)))) (group_keys v))).

(** ** Sentiment (lines 347-376) *)

Definition avg_polarity (v : DataFrame) : float := mean (map sentiment_polarity_mean v).
Definition avg_positive (v : DataFrame) : float := mean (map positive_percentage v).
Definition avg_negative (v : DataFrame) : float := mean (map negative_percentage v).

Definition metric_avg_sentiment (v : DataFrame) : Metric :=
  {| label := "Average Sentiment";
     value := format_fixed false 2 (avg_polarity v);
     delta := Some (if gtb (avg_polarity v) (of_int 0) then "Positive" else "Negative") |}.

Definition metric_positive_reviews (v : DataFrame) : Metric :=
  {| label := "Positive Reviews";
     value := format_fixed false 1 (avg_positive v) ++ "%";
     delta := None |}.

Definition metric_negative_reviews (v : DataFrame) : Metric :=
  {| label := "Negative Reviews";
     value := format_fixed false 1 (avg_negative v) ++ "%";
     delta := None |}.

Record SentimentRow : Type := mkSentimentRow {
  sentiment_category : string;
  positive_mean : float;
  negative_mean : float
}.

(** [groupby('Category').agg({...: 'mean'}).reset_index()], sorted by the
    positive share, first ten. *)
Definition sentiment_by_category (v : DataFrame) : list SentimentRow :=
  take 10
    (sort_desc (fun a b => ge_nan_last (positive_mean a) (positive_mean b))
       (map (fun k =>
               let g := group_rows k v in
               mkSentimentRow k (mean (map positive_percentage g))
                                (mean (map negative_percentage g)))
            (group_keys v))).

(** ** Top performers (lines 418-428) *)

(** [frame.nlargest(n, column)] on a float64 column, with the default
    [keep='first']: the rows that have a value, largest first, then the
    rows without one; the first [n] of them. *)
Definition nlargest (n : nat) (key : Row -> float) (v : DataFrame) : DataFrame :=
  take n (sort_desc (fun a b => ge_nan_last (key a) (key b)) v).

Definition int_value (x : num) : Z :=
  match x with
  | Int64 z => z
  | Float _ => 0%Z
  end.

(** The order of a numeric column: exact on an int64 column; that of the
    floats, missing values last, on a float64 column. *)
Definition column_ge (cells : list num) (a b : num) : bool :=
  match all_int64 cells with
  | Some _ => (int_value b <=? int_value a)%Z
  | None => ge_nan_last (num_to_float a) (num_to_float b)
  end.

(** [frame.nlargest(n, column)] on a numeric column. *)
Definition nlargest_num (n : nat) (key : Row -> num) (v : DataFrame) : DataFrame :=
  take n (sort_desc (fun a b => column_ge (map key v) (key a) (key b)) v).

Definition top_rated (v : DataFrame)
    : list (option string * option string * float * num * option string) :=
  map (fun r => (App r, Category r, Rating r, Reviews r, Type_ r))
      (nlargest 10 Rating v).

Definition top_installs (v : DataFrame)
    : list (option string * option string * float * num * option string) :=
  map (fun r => (App r, Category r, Rating r, Installs_Clean r, Type_ r))
      (nlargest_num 10 Installs_Clean v).

Definition top_reviews (v : DataFrame)
    : list (option string * option string * float * num * option string) :=
  map (fun r => (App r, Category r, Rating r, Reviews r, Type_ r))
      (nlargest_num 10 Reviews v).

(** ** One pass of the script

    What the page computes from the dataset for one choice of the controls
    and one search query, in the order of the script.  The generator is the
    process-wide state of numpy; the only expression of the script that
    reads it is the scatter sample, which also advances it. *)

Record Dashboard : Type := mkDashboard {
  sidebar_categories : list string;
  sidebar_showing : string;
  total_apps : Metric;
  average_rating : Metric;
  installs : Metric;
  free_apps : Metric;
  top_categories : list (string * nat);
  rating_by_category : list (string * float);
  summary_table : list CategorySummary;
  rating_histogram : list float;
  scatter_input : DataFrame;
  average_sentiment : Metric;
  positive_reviews : Metric;
  negative_reviews : Metric;
  sentiment_chart : list SentimentRow;
  highest_rated : list (option string * option string * float * num * option string);
  most_installed : list (option string * option string * float * num * option string);
  most_reviewed : list (option string * option string * float * num * option string);
  price_bars : list (string * float);
  size_bars : list (string * float);
  explorer : SearchOutcome;
  raw_data : DataFrame;
  download : string
}.

Definition dashboard {G : Type} `{RandomState G} (g : G) (df : DataFrame)
    (c : FilterCriteria) (search_query : string) : Dashboard * G :=
  let v := df_filtered df c in
  let '(scatter, g') := sample_df g v in
  ({| sidebar_categories := categories df;
      sidebar_showing := showing df v;
      total_apps := metric_total_apps c df v;
      average_rating := metric_avg_rating df v;
      installs := metric_total_installs v;
      free_apps := metric_free_apps v;
      top_categories := category_counts v;
      rating_by_category := category_ratings v;
      summary_table := category_summary v;
      rating_histogram := map Rating v;
      scatter_input := scatter;
      average_sentiment := metric_avg_sentiment v;
      positive_reviews := metric_positive_reviews v;
      negative_reviews := metric_negative_reviews v;
      sentiment_chart := sentiment_by_category v;
      highest_rated := top_rated v;
      most_installed := top_installs v;
      most_reviewed := top_reviews v;
      price_bars := price_chart v;
      size_bars := zip size_labels (size_rating v);
      explorer := search_results v search_query;
      raw_data := take 100 v;
      download := to_csv v |}, g').

(** The page without the scatter plot. *)
Definition without_scatter (d : Dashboard) : Dashboard :=
  {| sidebar_categories := sidebar_categories d;
     sidebar_showing := sidebar_showing d;
     total_apps := total_apps d;
     average_rating := average_rating d;
     installs := installs d;
     free_apps := free_apps d;
     top_categories := top_categories d;
     rating_by_category := rating_by_category d;
     summary_table := summary_table d;
     rating_histogram := rating_histogram d;
     scatter_input := [];
     average_sentiment := average_sentiment d;
     positive_reviews := positive_reviews d;
     negative_reviews := negative_reviews d;
     sentiment_chart := sentiment_chart d;
     highest_rated := highest_rated d;
     most_installed := most_installed d;
     most_reviewed := most_reviewed d;
     price_bars := price_bars d;
     size_bars := size_bars d;
     explorer := explorer d;
     raw_data := raw_data d;
     download := download d |}.

(** ** Sample data: the three-row table of the specification *)

Definition example_row (name category type : string) (rating : float) (reviews : Z) : Row :=
  {| App := Some name; Category := Some category; Type_ := Some type;
     Rating := rating; Reviews := Int64 reviews; Installs_Clean := Int64 1000000;
     Price_Clean := zero; Size_MB := of_int 12;
     sentiment_polarity_mean := of_dec 25 2;
     positive_percentage := of_int 75; negative_percentage := of_int 25 |}.

Definition example_df : DataFrame :=
  [example_row "Sudoku" "CatA" "Free" (of_dec 45 1) 500;
   example_row "Notes" "CatA" "Paid" (of_int 3) 50;
   example_row "2048" "CatB" "Free" (of_int 4) 2000].

Definition all_rows : FilterCriteria :=
  {| selected_category := "All Categories"; selected_type := "All Types";
     min_rating := zero; min_reviews := 0 |}.

Definition with_min_rating (t : float) (c : FilterCriteria) : FilterCriteria :=
  mkCriteria (selected_category c) (selected_type c) t (min_reviews c).

Definition with_min_reviews (m : Z) (c : FilterCriteria) : FilterCriteria :=
  mkCriteria (selected_category c) (selected_type c) (min_rating c) m.

Definition with_category (s : string) (c : FilterCriteria) : FilterCriteria :=
  mkCriteria s (selected_type c) (min_rating c) (min_reviews c).

Definition with_type (s : string) (c : FilterCriteria) : FilterCriteria :=
  mkCriteria (selected_category c) s (min_rating c) (min_reviews c).

(** ** Relations used in the statements *)

(** Two floats compared through their ranks; false when one is NaN. *)
Definition rank_rel (R : Z * Z * Z -> Z * Z * Z -> Prop) (a b : float) : Prop :=
  match rank a, rank b with
  | Some ra, Some rb => R ra rb
  | _, _ => False
  end.

(** The predicate that the four masks of [df_filtered] amount to. *)
Definition row_passes (c : FilterCriteria) (r : Row) : bool :=
  (String.eqb (selected_category c) "All Categories" || eq_str (Category r) (selected_category c)) &&
  (String.eqb (selected_type c) "All Types" || eq_str (Type_ r) (selected_type c)) &&
  geb (Rating r) (min_rating c) &&
  num_ge (Reviews r) (min_reviews c).

(** [tightens c c']: [c'] is [c] with one control made stricter.  The
    review threshold is a non-negative integer below 2^53, the range that
    float64 holds exactly (the slider ends at 10000). *)
Inductive tightens (c : FilterCriteria) : FilterCriteria -> Prop :=
  | raise_min_rating (t : float) :
      leb (min_rating c) t = true ->
      tightens c (with_min_rating t c)
  | raise_min_reviews (m : Z) :
      (0 <= min_reviews c <= m)%Z -> (m < 2 ^ 53)%Z ->
      tightens c (with_min_reviews m c)
  | narrow_category (s : string) :
      selected_category c = "All Categories" ->
      tightens c (with_category s c)
  | narrow_type (s : string) :
      selected_type c = "All Types" ->
      tightens c (with_type s c).

(** A row enters a group count when both its category and its app name are
    present. *)
Definition counted (r : Row) : bool :=
  negb (isna_str (Category r)) && negb (isna_str (App r)).

Definition free_or_paid (r : Row) : Prop :=
  Type_ r = Some "Free" \/ Type_ r = Some "Paid".

(** Rows with a missing cell, for the examples. *)
Definition unrated_row : Row :=
  {| App := Some "Ghost"; Category := Some "CatA"; Type_ := Some "Free";
     Rating := nan; Reviews := Float nan; Installs_Clean := Int64 10;
     Price_Clean := zero; Size_MB := of_int 3;
     sentiment_polarity_mean := nan;
     positive_percentage := nan; negative_percentage := nan |}.

Definition untyped_row : Row :=
  {| App := Some "Mystery"; Category := None; Type_ := None;
     Rating := of_int 4; Reviews := Int64 10; Installs_Clean := Int64 100;
     Price_Clean := zero; Size_MB := of_int 3;
     sentiment_polarity_mean := nan;
     positive_percentage := nan; negative_percentage := nan |}.

(** The app count that the summary reports for the group of key [k]. *)
Definition group_count (k : string) (v : DataFrame) : nat :=
  App_Count (summary_of_group k (group_rows k v)).

(** ** Vocabulary of the export statements *)

Definition is_cr (c : ascii) : bool := Ascii.eqb c CR.

(** A record none of whose fields holds a carriage return. *)
Definition no_cr_record (fields : list string) : Prop :=
  Forall (fun f => has_char is_cr f = false) fields.

(** A row whose three text cells hold no carriage return. *)
Definition no_cr_row (r : Row) : Prop :=
  has_char is_cr (str_cell (App r)) = false /\
  has_char is_cr (str_cell (Category r)) = false /\
  has_char is_cr (str_cell (Type_ r)) = false.

(** The tokenizer once a field [f] and its delimiter [d] have been read. *)
Definition after_field (d : ascii) (f : string) (l : list string)
    (ls : list (list string)) : tokenizer :=
  if Ascii.eqb d LF
  then mkTokenizer START_RECORD EmptyString [] (ls ++ [l ++ [f]])
  else mkTokenizer START_FIELD EmptyString (l ++ [f]) ls.

(** ** Vocabulary of the statements about sorted tables, bins and numerals *)

(** [top] holds [n] best rows of [rows] for the order [ge] (fewer if the
    table is shorter): it is in descending order, and together with the
    rows left out it makes up the table, none of those being better than a
    row of [top]. *)
Definition best_rows {A : Type} (ge : A -> A -> bool) (n : nat) (rows top : list A) : Prop :=
  length top = Nat.min n (length rows) /\
  StronglySorted (fun a b => ge a b = true) top /\
  exists rest : list A,
    top ++ rest ≡ₚ rows /\
    forall a b : A, a ∈ top -> b ∈ rest -> ge a b = true.

(** Bin edges in strictly ascending order (what [pd.cut] requires). *)
Definition increasing (bins : list float) : Prop :=
  StronglySorted (fun a b => ltb a b = true) bins.

(** The sum of a list of integers, without bound. *)
Definition int_sum (zs : list Z) : Z := fold_right Z.add 0%Z zs.

(** The number that a decimal numeral denotes after the digits [acc]. *)
Fixpoint uint_value (u : Decimal.uint) (acc : Z) : Z :=
  match u with
  | Decimal.Nil => acc
  | Decimal.D0 u' => uint_value u' (10 * acc + 0)
  | Decimal.D1 u' => uint_value u' (10 * acc + 1)
  | Decimal.D2 u' => uint_value u' (10 * acc + 2)
  | Decimal.D3 u' => uint_value u' (10 * acc + 3)
  | Decimal.D4 u' => uint_value u' (10 * acc + 4)
  | Decimal.D5 u' => uint_value u' (10 * acc + 5)
  | Decimal.D6 u' => uint_value u' (10 * acc + 6)
  | Decimal.D7 u' => uint_value u' (10 * acc + 7)
  | Decimal.D8 u' => uint_value u' (10 * acc + 8)
  | Decimal.D9 u' => uint_value u' (10 * acc + 9)
  end%Z.

(** A character that is neither a decimal digit nor the minus sign. *)
Definition not_integer_char (c : ascii) : bool :=
  match digit_value c with
  | Some _ => false
  | None => negb (Ascii.eqb c "-"%char)
  end.

(** ** Signs *)

(** Not above zero: a zero, a negative number, or no number at all. *)
Definition not_positive (x : float) : bool :=
  match x with
  | S754_finite false _ _ | S754_infinity false => false
  | _ => true
  end.

(** With the sign bit clear, or no number at all. *)
Definition not_negative (x : float) : bool :=
  match x with
  | S754_finite true _ _ | S754_infinity true | S754_zero true => false
  | _ => true
  end.

(** ** Exact values *)

(** The rational number that a finite float denotes (0 for the others). *)
Definition float_value (x : float) : Q :=
  match x with
  | S754_finite s m e => (inject_Z (if s then Z.neg m else Z.pos m) * 2 ^ e)%Q
  | _ => 0%Q
  end.

Definition is_finite (x : float) : bool :=
  match x with
  | S754_finite _ _ _ | S754_zero _ => true
  | _ => false
  end.

(** ** Recorded draws *)

(** The draws [i, i-1, ..., 1]: each step of the shuffle then leaves its
    entry in place. *)
Fixpoint identity_draws (i : nat) : list nat :=
  match i with
  | O => []
  | S i' => i :: identity_draws i'
  end.

(** The same, but with the draw 0 at step [k]: entry [k] goes to the
    front. *)
Fixpoint front_draws (k i : nat) : list nat :=
  match i with
  | O => []
  | S i' => (if (i =? k)%nat then 0 else i) :: front_draws k i'
  end.

(** * Properties *)

(** * Order on floats *)

(** Case analysis on two floats, down to the comparison of exponents and
    mantissas. *)
Ltac by_rank_cases a b m1 e1 m2 e2 :=
  destruct a as [[] | [] | | [] m1 e1], b as [[] | [] | | [] m2 e2];
  cbn [SFcompare rank rank_lt];
  try (split; [discriminate || (intros _; lia) | (intros; lia) || reflexivity]);
  change (Pos.compare_cont Eq m1 m2) with (Pos.compare m1 m2);
  destruct (Z.compare_spec e1 e2), (Pos.compare_spec m1 m2); cbn [CompOpp];
  split; intros; try discriminate; try reflexivity; try lia.

(** [<] and [<=] on floats are the order of the ranks. *)
Lemma float_ltb_rank (a b : float) :
  ltb a b = true <-> rank_rel rank_lt a b.
Proof.
  unfold ltb, SFltb, rank_rel.
  by_rank_cases a b m1 e1 m2 e2.
Qed.

Lemma float_leb_rank (a b : float) :
  leb a b = true <-> rank_rel (fun ra rb => ~ rank_lt rb ra) a b.
Proof.
  unfold leb, SFleb, rank_rel.
  by_rank_cases a b m1 e1 m2 e2.
Qed.

Lemma float_leb_trans (a b c : float) :
  leb a b = true -> leb b c = true -> leb a c = true.
Proof.
  rewrite !float_leb_rank. unfold rank_rel.
  destruct (rank a) as [[[c1 e1] m1]|], (rank b) as [[[c2 e2] m2]|],
    (rank c) as [[[c3 e3] m3]|]; cbn [rank_lt]; try tauto; lia.
Qed.

Lemma float_leb_nan_r (a : float) : leb a nan = false.
Proof. destruct a as [[] | [] | | [] m e]; reflexivity. Qed.

(** ** Conversion of integers *)

Lemma digits2_pos_log2 (p : positive) :
  Z.pos (digits2_pos p) = (Z.log2 (Z.pos p) + 1)%Z.
Proof.
  assert (Hs : forall q, digits2_pos q = Pos.size q).
  { induction q; cbn; congruence. }
  destruct p; cbn; rewrite ?Hs; lia.
Qed.

Lemma digits2_pos_iter_xO (p k : positive) :
  digits2_pos (Pos.iter xO p k) = (digits2_pos p + k)%positive.
Proof.
  induction k using Pos.peano_ind.
  - cbn. lia.
  - rewrite Pos.iter_succ. cbn. rewrite IHk. lia.
Qed.

Lemma iter_xO_mul (p k : positive) :
  Z.pos (Pos.iter xO p k) = (Z.pos p * 2 ^ Z.pos k)%Z.
Proof.
  induction k using Pos.peano_ind.
  - cbn. lia.
  - rewrite Pos.iter_succ, Pos2Z.inj_succ, Z.pow_succ_r by lia.
    rewrite Pos2Z.inj_xO, IHk. lia.
Qed.

(** An integer of at most 53 bits converts exactly: the mantissa is the
    integer shifted up to 53 bits. *)
Lemma of_int_exact (p : positive) :
  (Z.pos (digits2_pos p) <= 53)%Z ->
  rank (of_int (Z.pos p)) =
    Some (1, Z.pos (digits2_pos p) - 53,
          Z.pos p * 2 ^ (53 - Z.pos (digits2_pos p)))%Z.
Proof.
  intros Hd.
  unfold of_int, binary_normalize, binary_round.
  assert (Hf : forall d, (0 < d <= 53)%Z -> fexp prec emax d = (d - 53)%Z).
  { intros d Hd'. unfold fexp, emin, prec, emax. lia. }
  rewrite Z.add_0_r, Hf by lia. unfold shl_align.
  destruct (Z.pos (digits2_pos p) - 53 - 0)%Z as [|k|k] eqn:Hk; try lia.
  - (* exactly 53 bits *)
    unfold binary_round_aux, shr_fexp. cbn [Zdigits2 shr_record_of_loc].
    rewrite Z.add_0_r, Hf by lia.
    replace (Z.pos (digits2_pos p) - 53 - 0)%Z with 0%Z by lia.
    cbn [shr shr_m loc_of_shr_record round_nearest_even Zdigits2].
    rewrite Z.add_0_r, Hf by lia.
    replace (Z.pos (digits2_pos p) - 53 - 0)%Z with 0%Z by lia.
    cbn [shr shr_m].
    change (0 <=? emax - prec)%Z with true. cbn [rank].
    replace (Z.pos (digits2_pos p) - 53)%Z with 0%Z by lia.
    replace (53 - Z.pos (digits2_pos p))%Z with 0%Z by lia.
    rewrite Z.pow_0_r, Z.mul_1_r. reflexivity.
  - (* fewer bits: the mantissa is shifted up *)
    unfold binary_round_aux, shr_fexp. cbn [Zdigits2 shr_record_of_loc].
    rewrite digits2_pos_iter_xO.
    assert (Hf2 : (fexp prec emax (Z.pos (digits2_pos p + k) + (Z.pos (digits2_pos p) - 53))
                   - (Z.pos (digits2_pos p) - 53))%Z = 0%Z).
    { rewrite Hf by lia. lia. }
    rewrite Hf2. cbn [shr shr_m loc_of_shr_record round_nearest_even Zdigits2 shr_record_of_loc].
    rewrite digits2_pos_iter_xO, Hf2. cbn [shr shr_m].
    replace (Z.pos (digits2_pos p) - 53 <=? emax - prec)%Z with true
      by (symmetry; apply Z.leb_le; unfold emax, prec; lia).
    cbn [rank]. rewrite iter_xO_mul. repeat f_equal. lia.
Qed.

Lemma of_int_zero : rank (of_int 0) = Some (0, 0, 0)%Z.
Proof. reflexivity. Qed.

(** Below 2^53 the conversion is monotone. *)
Lemma of_int_mono (a b : Z) :
  (0 <= a <= b)%Z -> (b < 2 ^ 53)%Z -> leb (of_int a) (of_int b) = true.
Proof.
  intros Hab Hb. apply float_leb_rank. unfold rank_rel.
  assert (Hbits : forall p, (Z.pos p < 2 ^ 53)%Z -> (Z.pos (digits2_pos p) <= 53)%Z).
  { intros p Hp. rewrite digits2_pos_log2.
    assert (Z.log2 (Z.pos p) < 53)%Z by (apply Z.log2_lt_pow2; lia). lia. }
  destruct a as [|p|p], b as [|q|q]; try lia.
  - cbn. lia.
  - rewrite of_int_zero, of_int_exact by (apply Hbits; lia). cbn [rank_lt]. lia.
  - rewrite !of_int_exact by (apply Hbits; lia). cbn [rank_lt].
    rewrite !digits2_pos_log2.
    assert (Hl : (Z.log2 (Z.pos p) <= Z.log2 (Z.pos q))%Z) by (apply Z.log2_le_mono; lia).
    assert (Hlq : (Z.log2 (Z.pos q) < 53)%Z) by (apply Z.log2_lt_pow2; lia).
    assert (Hlp : (0 <= Z.log2 (Z.pos p))%Z) by apply Z.log2_nonneg.
    destruct (Z.eq_dec (Z.log2 (Z.pos p)) (Z.log2 (Z.pos q))) as [He|Hne].
    + rewrite He.
      assert (0 < 2 ^ (53 - (Z.log2 (Z.pos q) + 1)))%Z by (apply Z.pow_pos_nonneg; lia).
      nia.
    + lia.
Qed.

(** * Boolean masks *)

(** Indexing by the mask of a test is filtering by the test. *)
Lemma boolean_index_filter {A : Type} (f : A -> bool) (l : list A) :
  boolean_index l (map f l) = List.filter f l.
Proof.
  induction l as [|x l IH]; [reflexivity|].
  cbn. rewrite IH. reflexivity.
Qed.

Lemma boolean_index_sublist {A : Type} (l : list A) (mask : list bool) :
  boolean_index l mask `sublist_of` l.
Proof.
  revert mask. induction l as [|x l IH]; intros [|b mask]; cbn;
    try apply sublist_nil_l.
  destruct b; [apply sublist_skip | apply sublist_cons]; apply IH.
Qed.

Lemma filter_filter_andb {A : Type} (f g : A -> bool) (l : list A) :
  List.filter g (List.filter f l) = List.filter (fun x => f x && g x) l.
Proof.
  induction l as [|x l IH]; [reflexivity|].
  cbn. destruct (f x); cbn; [destruct (g x)|]; rewrite IH; reflexivity.
Qed.

Lemma filter_true {A : Type} (l : list A) : List.filter (fun _ => true) l = l.
Proof. induction l as [|x l IH]; cbn; [|rewrite IH]; reflexivity. Qed.

Lemma filter_length_le {A : Type} (f g : A -> bool) (l : list A) :
  (forall x, f x = true -> g x = true) ->
  length (List.filter f l) <= length (List.filter g l).
Proof.
  intros Hfg. induction l as [|x l IH]; cbn; [lia|].
  destruct (f x) eqn:Hf.
  - rewrite (Hfg x Hf). cbn. lia.
  - destruct (g x); cbn; lia.
Qed.

(** The four successive masks select the rows that pass all four tests. *)
Lemma df_filtered_filter (df : DataFrame) (c : FilterCriteria) :
  df_filtered df c = List.filter (row_passes c) df.
Proof.
  unfold df_filtered. rewrite !boolean_index_filter.
  destruct (String.eqb (selected_category c) "All Categories") eqn:Hc;
    destruct (String.eqb (selected_type c) "All Types") eqn:Ht; cbn [negb];
    rewrite ?boolean_index_filter, ?filter_filter_andb;
    apply filter_ext; intros r; unfold row_passes; rewrite Hc, Ht;
    cbn [orb]; rewrite ?andb_true_l, ?andb_true_r, ?andb_assoc; reflexivity.
Qed.

(** * The filtered view is part of the dataset (C2) *)

(** C2. The filtered view is a sub-list of the dataset: every row of it is a
    row of the dataset, unaltered, and the rows keep their dataset order. *)
Theorem filtered_view_is_ordered_subset (df : DataFrame) (c : FilterCriteria) :
  df_filtered df c `sublist_of` df /\
  (forall r : Row, r ∈ df_filtered df c -> r ∈ df).
Proof.
  assert (Hsub : df_filtered df c `sublist_of` df).
  { unfold df_filtered.
    destruct (negb (String.eqb (selected_category c) "All Categories"));
      destruct (negb (String.eqb (selected_type c) "All Types"));
      repeat (etransitivity; [apply boolean_index_sublist|]); reflexivity. }
  split; [exact Hsub|].
  intros r Hr. eapply elem_of_sublist; eauto.
Qed.

(** * Stricter criteria, fewer rows (C3) *)

(** A row that passes the stricter criteria passes the looser ones. *)
Lemma tightens_passes (c c' : FilterCriteria) (r : Row) :
  tightens c c' -> row_passes c' r = true -> row_passes c r = true.
Proof.
  intros Ht. unfold row_passes.
  destruct Ht as [t Hle | m Hm Hmax | s Hall | s Hall]; cbn.
  - rewrite !andb_true_iff. intros [[[H1 H2] H3] H4]. repeat split; try assumption.
    unfold geb in *. eapply float_leb_trans; eauto.
  - rewrite !andb_true_iff. intros [[[H1 H2] H3] H4]. repeat split; try assumption.
    destruct (Reviews r) as [z | f]; cbn in *.
    + apply Z.leb_le. apply Z.leb_le in H4. lia.
    + unfold geb in *. eapply float_leb_trans; [|exact H4].
      apply of_int_mono; lia.
  - rewrite Hall. cbn. rewrite !andb_true_iff. intros [[[H1 H2] H3] H4]. tauto.
  - rewrite Hall. cbn. rewrite !andb_true_iff. intros [[[H1 H2] H3] H4].
    rewrite H1. tauto.
Qed.

(** C3. Making one control stricter (a higher minimum rating, a higher
    minimum review count, or one category or type instead of all) never
    increases the number of rows of the filtered view. *)
Theorem filtering_is_monotonic (df : DataFrame) (c c' : FilterCriteria) :
  tightens c c' ->
  length (df_filtered df c') <= length (df_filtered df c).
Proof.
  intros Ht. rewrite !df_filtered_filter.
  apply filter_length_le. intros r. apply tightens_passes. exact Ht.
Qed.

Lemma filtering_is_monotonic_witness :
  tightens all_rows (with_min_rating (of_int 4) all_rows) /\
  length (df_filtered example_df (with_min_rating (of_int 4) all_rows))
    <= length (df_filtered example_df all_rows).
Proof.
  assert (Ht : tightens all_rows (with_min_rating (of_int 4) all_rows)).
  { apply raise_min_rating. vm_compute. reflexivity. }
  split; [exact Ht|].
  apply (filtering_is_monotonic example_df all_rows _ Ht).
Defined.

(** * Missing values fail the thresholds (C4) *)

(** C4. Whatever the criteria, a row whose rating is missing or whose review
    count is missing is not in the filtered view: a missing value fails
    every [>=] test. *)
Theorem missing_values_excluded (df : DataFrame) (c : FilterCriteria) (r : Row) :
  is_nan (Rating r) = true \/ isna_num (Reviews r) = true ->
  r ∉ df_filtered df c.
Proof.
  intros Hna Hin. rewrite df_filtered_filter in Hin.
  apply list_elem_of_In, filter_In in Hin. destruct Hin as [_ Hp].
  unfold row_passes in Hp. rewrite !andb_true_iff in Hp.
  destruct Hp as [[[_ _] H3] H4].
  destruct Hna as [Hr | Hv].
  - destruct (Rating r); try discriminate.
    unfold geb in H3. rewrite float_leb_nan_r in H3. discriminate.
  - destruct (Reviews r) as [z | f]; cbn in Hv; [discriminate|].
    destruct f; try discriminate.
    cbn in H4. unfold geb in H4. rewrite float_leb_nan_r in H4. discriminate.
Qed.

Lemma missing_values_excluded_witness :
  (is_nan (Rating unrated_row) = true \/ isna_num (Reviews unrated_row) = true) /\
  unrated_row ∉ df_filtered [unrated_row] all_rows.
Proof.
  assert (H : is_nan (Rating unrated_row) = true \/ isna_num (Reviews unrated_row) = true)
    by (left; reflexivity).
  split; [exact H|].
  exact (missing_values_excluded [unrated_row] all_rows unrated_row H).
Defined.

(** * The empty view (C1) *)

(** C1 fails as stated: with the review slider at 10000 the three-row table
    filters to nothing, and the average rating and the free share are NaN,
    shown as the texts "nan " and "nan%". *)
Lemma empty_view_shows_nan :
  df_filtered example_df (with_min_reviews 10000 all_rows) = [] /\
  is_nan (avg_rating (df_filtered example_df (with_min_reviews 10000 all_rows))) = true /\
  value (metric_avg_rating example_df
           (df_filtered example_df (with_min_reviews 10000 all_rows))) = "nan " /\
  is_nan (free_percentage (df_filtered example_df (with_min_reviews 10000 all_rows))) = true /\
  value (metric_free_apps
           (df_filtered example_df (with_min_reviews 10000 all_rows))) = "nan%".
Proof. vm_compute. repeat split. Qed.

(** C1, amended. When the filtered view is empty nothing fails and no zero
    is shown for the two ratios: the average rating and the free share both
    evaluate to NaN, and the page prints them as "nan " and "nan%".  The
    install total is the empty sum, printed as "0M". *)
Theorem empty_view_propagates_nan (df : DataFrame) (c : FilterCriteria) :
  df_filtered df c = [] ->
  avg_rating (df_filtered df c) = nan /\
  value (metric_avg_rating df (df_filtered df c)) = "nan " /\
  free_percentage (df_filtered df c) = nan /\
  value (metric_free_apps (df_filtered df c)) = "nan%" /\
  value (metric_total_installs (df_filtered df c)) = "0M".
Proof. intros ->. repeat split. Qed.

Lemma empty_view_propagates_nan_witness :
  df_filtered example_df (with_min_reviews 10000 all_rows) = [] /\
  avg_rating (df_filtered example_df (with_min_reviews 10000 all_rows)) = nan.
Proof.
  assert (H : df_filtered example_df (with_min_reviews 10000 all_rows) = [])
    by (vm_compute; reflexivity).
  split; [exact H|].
  exact (proj1 (empty_view_propagates_nan example_df (with_min_reviews 10000 all_rows) H)).
Defined.

(** * Free and paid shares (C7) *)

(** C7 fails as stated.  A row whose type is missing belongs to neither
    share (here the two add up to 50), and even with only free and paid
    rows the binary64 sum need not be 100: one third plus two thirds of a
    hundred is 99.99999999999999. *)
Lemma shares_do_not_add_up :
  df_filtered [example_row "Sudoku" "CatA" "Free" (of_int 4) 500; untyped_row] all_rows
    = [example_row "Sudoku" "CatA" "Free" (of_int 4) 500; untyped_row] /\
  add (free_percentage [example_row "Sudoku" "CatA" "Free" (of_int 4) 500; untyped_row])
      (paid_percentage [example_row "Sudoku" "CatA" "Free" (of_int 4) 500; untyped_row])
    = of_int 50 /\
  df_filtered example_df all_rows = example_df /\
  eqb (add (free_percentage example_df) (paid_percentage example_df)) (of_int 100) = false /\
  format_fixed false 14 (add (free_percentage example_df) (paid_percentage example_df))
    = "99.99999999999999".
Proof. vm_compute. repeat split. Qed.

Lemma count_true_cons (b : bool) (mask : list bool) :
  count_true (b :: mask) = (if b then 1 else 0) + count_true mask.
Proof. unfold count_true. cbn. destruct b; reflexivity. Qed.

(** ** Rounding of products and quotients *)

Lemma shr_1_div2 (mrs : shr_record) :
  (0 <= shr_m mrs)%Z -> shr_m (shr_1 mrs) = (shr_m mrs / 2)%Z.
Proof.
  destruct mrs as [m r s]. cbn [shr_m]. intros Hm.
  destruct m as [|[p|p|]|p]; cbn [shr_1 shr_m]; try lia.
  - reflexivity.
  - rewrite Pos2Z.inj_xI. apply (Z.div_unique _ _ _ 1); lia.
  - rewrite Pos2Z.inj_xO. apply (Z.div_unique _ _ _ 0); lia.
  - reflexivity.
Qed.

Lemma iter_shr_1_div (p : positive) (mrs : shr_record) :
  (0 <= shr_m mrs)%Z ->
  shr_m (SpecFloat.iter_pos shr_1 p mrs) = (shr_m mrs / 2 ^ Z.pos p)%Z.
Proof.
  assert (HxI : forall q, (2 ^ Z.pos q~1 = 2 * (2 ^ Z.pos q * 2 ^ Z.pos q))%Z).
  { intros q. replace (Z.pos q~1) with (1 + Z.pos q + Z.pos q)%Z by lia.
    rewrite !Z.pow_add_r by lia. lia. }
  assert (HxO : forall q, (2 ^ Z.pos q~0 = 2 ^ Z.pos q * 2 ^ Z.pos q)%Z).
  { intros q. replace (Z.pos q~0) with (Z.pos q + Z.pos q)%Z by lia.
    rewrite !Z.pow_add_r by lia. lia. }
  assert (Hpow : forall q, (0 < 2 ^ Z.pos q)%Z) by (intros q; apply Z.pow_pos_nonneg; lia).
  revert mrs. induction p as [p IH | p IH |]; intros mrs Hm; cbn [SpecFloat.iter_pos].
  - assert (H1 : (0 <= shr_m (shr_1 mrs))%Z).
    { rewrite shr_1_div2 by exact Hm. apply Z.div_pos; lia. }
    assert (H2 : (0 <= shr_m (SpecFloat.iter_pos shr_1 p (shr_1 mrs)))%Z).
    { rewrite IH by exact H1. apply Z.div_pos; [exact H1 | apply Hpow]. }
    rewrite IH by exact H2. rewrite IH by exact H1. rewrite shr_1_div2 by exact Hm.
    pose proof (Hpow p).
    rewrite !Z.div_div by lia. rewrite HxI. f_equal; lia.
  - assert (H2 : (0 <= shr_m (SpecFloat.iter_pos shr_1 p mrs))%Z).
    { rewrite IH by exact Hm. apply Z.div_pos; [exact Hm | apply Hpow]. }
    rewrite IH by exact H2. rewrite IH by exact Hm.
    pose proof (Hpow p).
    rewrite Z.div_div by lia. rewrite HxO. reflexivity.
  - apply shr_1_div2, Hm.
Qed.

(** The shift that brings a mantissa to the target exponent keeps the
    quotient of the division by a power of two. *)
Lemma shr_spec (m e n : Z) (l : location) :
  (0 <= m)%Z ->
  snd (shr (shr_record_of_loc m l) e n) = (e + Z.max n 0)%Z /\
  shr_m (fst (shr (shr_record_of_loc m l) e n)) = (m / 2 ^ Z.max n 0)%Z /\
  (l = loc_Exact -> (n <= 0)%Z ->
   loc_of_shr_record (fst (shr (shr_record_of_loc m l) e n)) = loc_Exact).
Proof.
  intros Hm.
  assert (Hrec : shr_m (shr_record_of_loc m l) = m).
  { destruct l as [|[]]; reflexivity. }
  destruct n as [|p|p]; cbn [shr fst snd].
  - rewrite Hrec. cbn. rewrite Z.div_1_r. repeat split; [lia|]. intros -> _. reflexivity.
  - rewrite iter_shr_1_div by (rewrite Hrec; exact Hm). rewrite Hrec.
    rewrite Z.max_l by lia. repeat split. lia.
  - rewrite Hrec. rewrite Z.max_r by lia. cbn. rewrite Z.div_1_r.
    repeat split; [lia|]. intros -> _. reflexivity.
Qed.

Lemma round_nearest_even_cases (m : Z) (l : location) :
  round_nearest_even m l = m \/ round_nearest_even m l = (m + 1)%Z.
Proof.
  destruct l as [|[]]; cbn; auto. destruct (Z.even m); auto.
Qed.

Lemma Zdigits2_upper (m : Z) : (0 <= m)%Z -> (m < 2 ^ Zdigits2 m)%Z.
Proof.
  destruct m as [|p|p]; intros Hm; [cbn; lia | | lia].
  cbn [Zdigits2]. rewrite digits2_pos_log2.
  apply Z.log2_spec. lia.
Qed.

Lemma Zdigits2_le (m d : Z) : (0 <= m < 2 ^ d)%Z -> (0 <= d)%Z -> (Zdigits2 m <= d)%Z.
Proof.
  destruct m as [|p|p]; intros Hm Hd; [cbn; lia | | lia].
  cbn [Zdigits2]. rewrite digits2_pos_log2.
  assert (Z.log2 (Z.pos p) < d)%Z by (apply Z.log2_lt_pow2; lia). lia.
Qed.

Lemma Zdigits2_nonneg (m : Z) : (0 <= Zdigits2 m)%Z.
Proof. destruct m; cbn; lia. Qed.

(** What [binary_round_aux] returns for a non-negative mantissa: with [e1]
    the larger of the target exponent and [e], the result is the quotient
    of the mantissa by [2^(e1 - e)], or that plus one, at exponent [e1]. *)
Lemma binary_round_aux_cases (M e : Z) (l : location) :
  (0 <= M)%Z ->
  (Z.max (fexp prec emax (Zdigits2 M + e)) e + 1 <= emax - prec)%Z ->
  exists m2 : Z,
    (m2 = M / 2 ^ (Z.max (fexp prec emax (Zdigits2 M + e)) e - e) \/
     m2 = M / 2 ^ (Z.max (fexp prec emax (Zdigits2 M + e)) e - e) + 1)%Z /\
    (l = loc_Exact -> (fexp prec emax (Zdigits2 M + e) <= e)%Z -> m2 = M) /\
    (binary_round_aux prec emax false M e l = S754_zero false /\ m2 = 0%Z \/
     exists (m3 : positive) (e3 : Z),
       binary_round_aux prec emax false M e l = S754_finite false m3 e3 /\
       (Z.max (fexp prec emax (Zdigits2 M + e)) e <= e3)%Z /\
       (Z.pos m3 * 2 ^ (e3 - Z.max (fexp prec emax (Zdigits2 M + e)) e) = m2)%Z).
Proof.
  intros HM Hov.
  set (E := fexp prec emax (Zdigits2 M + e)) in *.
  set (e1 := Z.max E e) in *.
  unfold binary_round_aux, shr_fexp. fold E.
  destruct (shr_spec M e (E - e) l HM) as (He1 & Hm1 & Hloc).
  destruct (shr (shr_record_of_loc M l) e (E - e)) as [mrs' e'] eqn:Hshr.
  cbn [fst snd] in He1, Hm1, Hloc.
  assert (He' : e' = e1) by (unfold e1; lia).
  assert (Hn : Z.max (E - e) 0 = (e1 - e)%Z) by (unfold e1; lia).
  rewrite Hn in Hm1.
  set (m1 := (M / 2 ^ (e1 - e))%Z) in *.
  assert (Hm1pos : (0 <= m1)%Z) by (apply Z.div_pos; [exact HM | apply Z.pow_pos_nonneg; unfold e1; lia]).
  set (m2 := round_nearest_even (shr_m mrs') (loc_of_shr_record mrs')).
  assert (Hm2 : m2 = m1 \/ m2 = (m1 + 1)%Z).
  { unfold m2. rewrite <- Hm1. apply round_nearest_even_cases. }
  assert (Hexact : l = loc_Exact -> (E <= e)%Z -> m2 = M).
  { intros Hl HE. unfold m2. rewrite (Hloc Hl) by lia. cbn [round_nearest_even].
    rewrite Hm1. unfold m1. replace (e1 - e)%Z with 0%Z by (unfold e1; lia).
    apply Z.div_1_r. }
  assert (Hm2pos : (0 <= m2)%Z) by lia.
  (* the mantissa after rounding has at most 53 digits, or is 2^53 *)
  assert (HEmin : (- 1074 <= E)%Z) by (unfold E, fexp, emin, prec, emax; lia).
  assert (HEdig : (Zdigits2 M + e - 53 <= E)%Z) by (unfold E, fexp, emin, prec, emax; lia).
  assert (Hm1lt : (m1 < 2 ^ 53)%Z).
  { unfold m1. apply Z.div_lt_upper_bound; [apply Z.pow_pos_nonneg; unfold e1; lia|].
    rewrite <- Z.pow_add_r by (unfold e1; lia).
    eapply Z.lt_le_trans; [apply Zdigits2_upper; exact HM|].
    apply Z.pow_le_mono_r; [lia|]. unfold e1. lia. }
  destruct (shr_spec m2 e' (fexp prec emax (Zdigits2 m2 + e') - e') loc_Exact Hm2pos)
    as (He3 & Hm3 & _).
  destruct (shr (shr_record_of_loc m2 loc_Exact) e'
              (fexp prec emax (Zdigits2 m2 + e') - e')) as [mrs'' e''] eqn:Hshr2.
  cbn [fst snd] in He3, Hm3.
  exists m2. split; [exact Hm2|]. split; [exact Hexact|].
  assert (Hshift : Z.max (fexp prec emax (Zdigits2 m2 + e') - e') 0 = 0%Z /\ True \/
                   Z.max (fexp prec emax (Zdigits2 m2 + e') - e') 0 = 1%Z /\ m2 = (2 ^ 53)%Z).
  { destruct (Z.eq_dec m2 (2 ^ 53)%Z) as [Hc | Hc].
    - right. split; [|exact Hc]. rewrite Hc.
      change (Zdigits2 (2 ^ 53)%Z) with 54%Z.
      unfold fexp, emin, prec, emax. lia.
    - left. split; [|exact I].
      assert (Hd : (Zdigits2 m2 <= 53)%Z) by (apply Zdigits2_le; lia).
      unfold fexp, emin, prec, emax. lia. }
  destruct Hshift as [[Hs _] | [Hs Hc]]; rewrite Hs in He3, Hm3.
  - rewrite Z.pow_0_r, Z.div_1_r in Hm3. rewrite Hm3.
    destruct m2 as [|p2|p2]; [left; auto | right | lia].
    exists p2, e''. assert (He3' : e'' = e1) by lia.
    replace (e'' <=? emax - prec)%Z with true by (symmetry; apply Z.leb_le; lia).
    split; [reflexivity|]. split; [lia|].
    replace (e'' - e1)%Z with 0%Z by lia. lia.
  - rewrite Hm3, Hc. change (2 ^ 53 / 2 ^ 1)%Z with (Z.pos (2 ^ 52)).
    right. exists (2 ^ 52)%positive, e''.
    replace (e'' <=? emax - prec)%Z with true by (symmetry; apply Z.leb_le; lia).
    split; [reflexivity|]. split; [lia|].
    replace (e'' - e1)%Z with 1%Z by lia. reflexivity.
Qed.

(** Powers of two as rationals. *)

Lemma pw_pos (e : Z) : (0 < 2 ^ e)%Q.
Proof. apply Qpower_0_lt. reflexivity. Qed.

Lemma pw_add (a b : Z) : (2 ^ (a + b) == 2 ^ a * 2 ^ b)%Q.
Proof. apply Qpower_plus. discriminate. Qed.

Lemma pw_mono (a b : Z) : (a <= b)%Z -> (2 ^ a <= 2 ^ b)%Q.
Proof. intros Hab. apply Qpower_le_compat_l; [exact Hab | discriminate]. Qed.

Lemma pw_Z (n : Z) : (0 <= n)%Z -> (2 ^ n == inject_Z (2 ^ n))%Q.
Proof. intros Hn. rewrite Zpower_Qpower by exact Hn. reflexivity. Qed.

Lemma pw_split (e1 e : Z) :
  (e <= e1)%Z -> (2 ^ e1 == inject_Z (2 ^ (e1 - e)) * 2 ^ e)%Q.
Proof.
  intros He. rewrite <- pw_Z by lia. rewrite <- pw_add.
  replace (e1 - e + e)%Z with e1 by lia. reflexivity.
Qed.

Lemma inject_Z_ge_1 (M : Z) : (0 < M)%Z -> (1 <= inject_Z M)%Q.
Proof. intros HM. change 1%Q with (inject_Z 1). rewrite <- Zle_Qle. lia. Qed.

Lemma inject_Z_nonneg (M : Z) : (0 <= M)%Z -> (0 <= inject_Z M)%Q.
Proof. intros HM. change 0%Q with (inject_Z 0). rewrite <- Zle_Qle. lia. Qed.

Lemma inject_Z_lt_pw (M k : Z) :
  (0 < M)%Z -> (inject_Z M < 2 ^ k)%Q -> (0 < k)%Z /\ (M < 2 ^ k)%Z.
Proof.
  intros HM Hlt.
  assert (Hk : (0 < k)%Z).
  { destruct (Z.lt_ge_cases 0 k) as [H|H]; [exact H|exfalso].
    pose proof (pw_mono k 0 H) as Hle. change (2 ^ 0)%Q with 1%Q in Hle.
    pose proof (inject_Z_ge_1 M HM). lra. }
  split; [exact Hk|].
  rewrite pw_Z in Hlt by lia. rewrite <- Zlt_Qlt in Hlt. exact Hlt.
Qed.

(** Rounding a value that lies between two neighbours on the grid of
    exponent [e] and is below [2^k]: the result is finite, and off by at
    most one unit of the grid the result lies on, [2^(k-53)]. *)
Lemma binary_round_aux_error (M e k : Z) (l : location) (T : Q) :
  (0 <= M)%Z ->
  (inject_Z M * 2 ^ e <= T)%Q -> (T < inject_Z (M + 1) * 2 ^ e)%Q ->
  (l = loc_Exact -> T == inject_Z M * 2 ^ e)%Q ->
  (T < 2 ^ k)%Q -> (- 1021 <= k <= 971)%Z ->
  (e <= k - 53)%Z \/ (l = loc_Exact /\ 0 < M)%Z ->
  is_finite (binary_round_aux prec emax false M e l) = true /\
  (0 <= float_value (binary_round_aux prec emax false M e l))%Q /\
  (Qabs (float_value (binary_round_aux prec emax false M e l) - T) <= 2 ^ (k - 53))%Q.
Proof.
  intros HM Hlo Hhi Hex Hk Hrange Hcase.
  pose proof (pw_pos e) as Hpe.
  set (E := fexp prec emax (Zdigits2 M + e)).
  assert (HEfe : E = Z.max (Zdigits2 M + e - 53) (- 1074))
    by (unfold E, fexp, emin, prec, emax; lia).
  assert (HE : (E <= k - 53)%Z).
  { destruct (Z.eq_dec M 0%Z) as [-> | HM0].
    - destruct Hcase as [He | [_ H0]]; [|lia]. cbn [Zdigits2] in HEfe. lia.
    - assert (Hlt : (inject_Z M < 2 ^ (k - e))%Q).
      { assert (H1 : (inject_Z M * 2 ^ e < 2 ^ (k - e) * 2 ^ e)%Q).
        { rewrite <- pw_add. replace (k - e + e)%Z with k by lia. lra. }
        apply Qmult_lt_r in H1; [exact H1 | exact Hpe]. }
      apply inject_Z_lt_pw in Hlt; [|lia]. destruct Hlt as [Hke Hlt].
      assert (Zdigits2 M <= k - e)%Z by (apply Zdigits2_le; lia). lia. }
  assert (Hebound : (Z.max E e <= 970)%Z).
  { destruct Hcase as [He | [_ H0]]; [lia|].
    assert (Hlt : (2 ^ e < 2 ^ k)%Q).
    { pose proof (inject_Z_ge_1 M H0).
      assert (2 ^ e <= inject_Z M * 2 ^ e)%Q by nra. lra. }
    apply Qpower_lt_compat_l_inv in Hlt; [lia | reflexivity]. }
  destruct (binary_round_aux_cases M e l HM) as (m2 & Hm2 & Hexact & Hres).
  { fold E. unfold emax, prec. lia. }
  fold E in Hm2, Hexact, Hres.
  set (e1 := Z.max E e) in *.
  set (m1 := (M / 2 ^ (e1 - e))%Z) in *.
  assert (Hpn : (0 < 2 ^ (e1 - e))%Z) by (apply Z.pow_pos_nonneg; unfold e1; lia).
  assert (Hm1 : (0 <= m1)%Z) by (apply Z.div_pos; lia).
  assert (Hfloor : (m1 * 2 ^ (e1 - e) <= M < (m1 + 1) * 2 ^ (e1 - e))%Z).
  { unfold m1. pose proof (Z.div_mod M (2 ^ (e1 - e)) ltac:(lia)) as Hdm.
    pose proof (Z.mod_pos_bound M (2 ^ (e1 - e)) Hpn). nia. }
  pose proof (pw_split e1 e ltac:(unfold e1; lia)) as Hsplit.
  pose proof (pw_pos e1) as Hpe1.
  assert (HloT : (inject_Z m1 * 2 ^ e1 <= T)%Q).
  { rewrite Hsplit. rewrite Qmult_assoc, <- inject_Z_mult.
    assert (inject_Z (m1 * 2 ^ (e1 - e)) <= inject_Z M)%Q by (rewrite <- Zle_Qle; lia).
    nra. }
  assert (HhiT : (T < inject_Z (m1 + 1) * 2 ^ e1)%Q).
  { rewrite Hsplit. rewrite Qmult_assoc, <- inject_Z_mult.
    assert (inject_Z (M + 1) <= inject_Z ((m1 + 1) * 2 ^ (e1 - e)))%Q
      by (rewrite <- Zle_Qle; lia).
    nra. }
  assert (Hval : (float_value (binary_round_aux prec emax false M e l)
                  == inject_Z m2 * 2 ^ e1)%Q /\
                 is_finite (binary_round_aux prec emax false M e l) = true).
  { destruct Hres as [[-> ->] | (m3 & e3 & -> & He3 & Hm3)].
    - split; [|reflexivity]. cbn [float_value]. change (inject_Z 0) with 0%Q. ring.
    - split; [|reflexivity]. cbn [float_value].
      rewrite (pw_split e3 e1 He3), Qmult_assoc, <- inject_Z_mult, Hm3. reflexivity. }
  destruct Hval as [Hval Hfin].
  split; [exact Hfin|].
  assert (Hm2pos : (0 <= inject_Z m2)%Q) by (apply inject_Z_nonneg; lia).
  split; [rewrite Hval; nra|].
  rewrite Hval.
  destruct (Z.eq_dec e1 e) as [Heq | Hne].
  - (* no shift: exact when the location is exact *)
    destruct Hcase as [He | [Hl H0]].
    + assert (Hstep : (2 ^ e1 <= 2 ^ (k - 53))%Q) by (apply pw_mono; lia).
      apply Qabs_Qle_condition.
      rewrite inject_Z_plus in HhiT. change (inject_Z 1) with 1%Q in HhiT.
      destruct Hm2 as [-> | ->];
        [|rewrite inject_Z_plus; change (inject_Z 1) with 1%Q]; split; nra.
    + rewrite (Hexact Hl) by (unfold e1 in Heq; lia).
      rewrite Heq. pose proof (Hex Hl) as HT. pose proof (pw_pos (k - 53)).
      apply Qabs_Qle_condition. split; lra.
  - assert (Hstep : (2 ^ e1 <= 2 ^ (k - 53))%Q) by (apply pw_mono; unfold e1 in *; lia).
    apply Qabs_Qle_condition.
    rewrite inject_Z_plus in HhiT. change (inject_Z 1) with 1%Q in HhiT.
    destruct Hm2 as [-> | ->];
      [|rewrite inject_Z_plus; change (inject_Z 1) with 1%Q]; split; nra.
Qed.

Lemma Zdigits2_lower (m : Z) : (0 < m)%Z -> (2 ^ (Zdigits2 m - 1) <= m)%Z.
Proof.
  destruct m as [|p|p]; intros Hm; try lia.
  cbn [Zdigits2]. rewrite digits2_pos_log2.
  replace (Z.log2 (Z.pos p) + 1 - 1)%Z with (Z.log2 (Z.pos p)) by lia.
  apply Z.log2_spec. lia.
Qed.

Lemma float_value_pos (m : positive) (e : Z) :
  (0 < float_value (S754_finite false m e))%Q.
Proof.
  cbn [float_value]. pose proof (pw_pos e).
  pose proof (inject_Z_ge_1 (Z.pos m) ltac:(lia)). nra.
Qed.

(** The digits of the mantissa and the exponent bracket the value. *)
Lemma float_value_bracket (m : positive) (e : Z) :
  (2 ^ (Zdigits2 (Z.pos m) + e - 1) <= float_value (S754_finite false m e))%Q /\
  (float_value (S754_finite false m e) < 2 ^ (Zdigits2 (Z.pos m) + e))%Q.
Proof.
  cbn [float_value]. pose proof (pw_pos e) as Hpe.
  pose proof (Zdigits2_lower (Z.pos m) ltac:(lia)) as Hlo.
  pose proof (Zdigits2_upper (Z.pos m) ltac:(lia)) as Hhi.
  assert (Hd : (1 <= Zdigits2 (Z.pos m))%Z) by (cbn; lia).
  split.
  - replace (Zdigits2 (Z.pos m) + e - 1)%Z with (Zdigits2 (Z.pos m) - 1 + e)%Z by lia.
    rewrite pw_add, (pw_Z (Zdigits2 (Z.pos m) - 1)) by lia.
    apply Qmult_le_compat_r; [rewrite <- Zle_Qle; exact Hlo | lra].
  - rewrite pw_add, (pw_Z (Zdigits2 (Z.pos m))) by lia.
    apply Qmult_lt_compat_r; [exact Hpe | rewrite <- Zlt_Qlt; exact Hhi].
Qed.

(** A product below [2^k] is computed with an error of at most
    [2^(k-53)]. *)
Lemma mul_error (mx my : positive) (ex ey k : Z) :
  (float_value (S754_finite false mx ex) * float_value (S754_finite false my ey) < 2 ^ k)%Q ->
  (- 1021 <= k <= 971)%Z ->
  is_finite (mul (S754_finite false mx ex) (S754_finite false my ey)) = true /\
  (0 <= float_value (mul (S754_finite false mx ex) (S754_finite false my ey)))%Q /\
  (Qabs (float_value (mul (S754_finite false mx ex) (S754_finite false my ey)) -
         float_value (S754_finite false mx ex) * float_value (S754_finite false my ey))
   <= 2 ^ (k - 53))%Q.
Proof.
  intros Hk Hrange. unfold mul, SFmul. cbn [xorb].
  assert (HT : (float_value (S754_finite false mx ex) * float_value (S754_finite false my ey)
                == inject_Z (Z.pos (mx * my)) * 2 ^ (ex + ey))%Q).
  { cbn [float_value]. rewrite pw_add, Pos2Z.inj_mul, inject_Z_mult. ring. }
  pose proof (pw_pos (ex + ey)) as Hp.
  apply binary_round_aux_error; try lia.
  - rewrite HT. lra.
  - rewrite HT, inject_Z_plus. change (inject_Z 1) with 1%Q. nra.
  - intros _. exact HT.
  - exact Hk.
  - right. split; [reflexivity | lia].
Qed.

Lemma new_location_exact (nb k : Z) : new_location nb k = loc_Exact -> k = 0%Z.
Proof.
  unfold new_location, new_location_even, new_location_odd.
  destruct (Z.even nb); destruct (Z.eqb_spec k 0); auto; discriminate.
Qed.

(** A quotient below [2^k] is computed with an error of at most
    [2^(k-53)]. *)
Lemma div_error (mx my : positive) (ex ey k : Z) :
  (float_value (S754_finite false mx ex) / float_value (S754_finite false my ey) < 2 ^ k)%Q ->
  (- 1021 <= k <= 971)%Z ->
  is_finite (div (S754_finite false mx ex) (S754_finite false my ey)) = true /\
  (0 <= float_value (div (S754_finite false mx ex) (S754_finite false my ey)))%Q /\
  (Qabs (float_value (div (S754_finite false mx ex) (S754_finite false my ey)) -
         float_value (S754_finite false mx ex) / float_value (S754_finite false my ey))
   <= 2 ^ (k - 53))%Q.
Proof.
  intros Hk Hrange.
  pose proof (float_value_pos mx ex) as HA. pose proof (float_value_pos my ey) as HB.
  destruct (float_value_bracket mx ex) as [HAlo _].
  destruct (float_value_bracket my ey) as [_ HBhi].
  set (A := float_value (S754_finite false mx ex)) in *.
  set (B := float_value (S754_finite false my ey)) in *.
  set (d1 := Zdigits2 (Z.pos mx)) in *. set (d2 := Zdigits2 (Z.pos my)) in *.
  (* the quotient is above 2^(D-1), so D <= k *)
  assert (HD : (d1 + ex - (d2 + ey) <= k)%Z).
  { assert (Hq : (2 ^ (d1 + ex - 1 - (d2 + ey)) < A / B)%Q).
    { apply Qlt_shift_div_l; [exact HB|].
      apply Qlt_le_trans with (2 ^ (d1 + ex - 1 - (d2 + ey)) * 2 ^ (d2 + ey))%Q.
      - apply Qmult_lt_l; [apply pw_pos | exact HBhi].
      - rewrite <- pw_add.
        replace (d1 + ex - 1 - (d2 + ey) + (d2 + ey))%Z with (d1 + ex - 1)%Z by lia.
        exact HAlo. }
    assert (Hlt : (2 ^ (d1 + ex - 1 - (d2 + ey)) < 2 ^ k)%Q) by lra.
    apply Qpower_lt_compat_l_inv in Hlt; [lia | reflexivity]. }
  unfold div, SFdiv, SFdiv_core_binary. fold d1 d2. cbn [xorb].
  set (e' := Z.min (fexp prec emax (d1 + ex - (d2 + ey))) (ex - ey)).
  assert (He' : (e' <= k - 53)%Z) by (unfold e', fexp, emin, prec, emax; lia).
  set (s := (ex - ey - e')%Z).
  assert (Hs : (0 <= s)%Z) by (unfold s, e'; lia).
  set (m' := match s with
             | 0%Z => Z.pos mx
             | Z.pos _ => Z.shiftl (Z.pos mx) s
             | Z.neg _ => 0%Z
             end).
  assert (Hm' : m' = (Z.pos mx * 2 ^ s)%Z).
  { unfold m'. destruct s as [|p|p] eqn:Hsp; try lia.
    rewrite Z.shiftl_mul_pow2 by lia. reflexivity. }
  pose proof (Z_div_mod m' (Z.pos my) ltac:(lia)) as Hdm.
  destruct (Z.div_eucl m' (Z.pos my)) as [q r]. destruct Hdm as [Hdm Hr].
  assert (Hq : (0 <= q)%Z) by nia.
  (* the dividend as a multiple of the grid *)
  pose proof (pw_pos e') as Hpe'. pose proof (pw_pos ey) as Hpey.
  assert (HAeq : (A == inject_Z (Z.pos my * q + r) * (2 ^ e' * 2 ^ ey))%Q).
  { unfold A. cbn [float_value]. rewrite <- Hdm, Hm', inject_Z_mult.
    replace ex with (s + (e' + ey))%Z at 1 by (unfold s; lia).
    rewrite !pw_add, (pw_Z s Hs). ring. }
  assert (HBeq : (B == inject_Z (Z.pos my) * 2 ^ ey)%Q) by reflexivity.
  assert (Hmy : (1 <= inject_Z (Z.pos my))%Q) by (apply inject_Z_ge_1; lia).
  assert (Hrq : (0 <= inject_Z r)%Q /\ (inject_Z r < inject_Z (Z.pos my))%Q).
  { split; [apply inject_Z_nonneg; lia | rewrite <- Zlt_Qlt; lia]. }
  rewrite inject_Z_plus, inject_Z_mult in HAeq.
  assert (Hqq : (0 <= inject_Z q)%Q) by (apply inject_Z_nonneg; exact Hq).
  set (P := (2 ^ e' * 2 ^ ey)%Q) in *.
  assert (HP : (0 < P)%Q) by (unfold P; nra).
  assert (HBP : (B * 2 ^ e' == inject_Z (Z.pos my) * P)%Q) by (rewrite HBeq; unfold P; ring).
  apply binary_round_aux_error; try lia.
  - apply Qle_shift_div_l; [exact HB|].
    setoid_replace (inject_Z q * 2 ^ e' * B)%Q with (inject_Z q * (B * 2 ^ e'))%Q using relation Qeq by ring.
    rewrite HBP, HAeq. nra.
  - apply Qlt_shift_div_r; [exact HB|].
    rewrite inject_Z_plus. change (inject_Z 1) with 1%Q.
    setoid_replace ((inject_Z q + 1) * 2 ^ e' * B)%Q
      with ((inject_Z q + 1) * (B * 2 ^ e'))%Q using relation Qeq by ring.
    rewrite HBP, HAeq. nra.
  - intros Hloc. apply new_location_exact in Hloc. subst r.
    change (inject_Z 0) with 0%Q in HAeq.
    apply Qmult_inj_r with B; [lra|].
    setoid_replace (A / B * B)%Q with A using relation Qeq by (field; lra).
    setoid_replace (inject_Z q * 2 ^ e' * B)%Q with (inject_Z q * (B * 2 ^ e'))%Q using relation Qeq by ring.
    rewrite HBP, HAeq. ring.
  - exact Hk.
Qed.

(** Below 2^53 the conversion of an integer is exact. *)
Lemma of_int_value (p : positive) :
  (Z.pos p < 2 ^ 53)%Z ->
  exists (m : positive) (e : Z),
    of_int (Z.pos p) = S754_finite false m e /\
    (float_value (S754_finite false m e) == inject_Z (Z.pos p))%Q.
Proof.
  intros Hp.
  assert (Hd : (Z.pos (digits2_pos p) <= 53)%Z).
  { rewrite digits2_pos_log2.
    assert (Z.log2 (Z.pos p) < 53)%Z by (apply Z.log2_lt_pow2; lia). lia. }
  pose proof (of_int_exact p Hd) as Hrank.
  destruct (of_int (Z.pos p)) as [[] | [] | | [] m e]; cbn [rank] in Hrank;
    try discriminate Hrank.
  injection Hrank as He Hm.
  exists m, e. split; [reflexivity|].
  cbn [float_value]. rewrite Hm, He, inject_Z_mult.
  rewrite <- (pw_Z (53 - Z.pos (digits2_pos p))) by lia.
  rewrite <- Qmult_assoc, <- pw_add.
  replace (53 - Z.pos (digits2_pos p) + (Z.pos (digits2_pos p) - 53))%Z with 0%Z by lia.
  change (2 ^ 0)%Q with 1%Q. ring.
Qed.

Lemma of_int_100 : of_int 100 = S754_finite false 7036874417766400 (- 46).
Proof. vm_compute. reflexivity. Qed.

Lemma float_value_100 :
  (float_value (S754_finite false 7036874417766400 (- 46)) == 100)%Q.
Proof. vm_compute. reflexivity. Qed.

(** A percentage [(f / n) * 100] of two counts, computed in binary64, is
    finite and within 2^-44 of the exact share. *)
Lemma share_error (f n : Z) :
  (0 <= f <= n)%Z -> (0 < n < 2 ^ 53)%Z ->
  is_finite (mul (div (of_int f) (of_int n)) (of_int 100)) = true /\
  (Qabs (float_value (mul (div (of_int f) (of_int n)) (of_int 100)) -
         100 * (inject_Z f / inject_Z n)) <= 1 # 2 ^ 44)%Q.
Proof.
  intros Hf Hn. rewrite of_int_100.
  destruct n as [|pn|pn]; try lia.
  destruct (of_int_value pn ltac:(lia)) as (mn & en & -> & Hvn).
  assert (Hnq : (1 <= inject_Z (Z.pos pn))%Q) by (apply inject_Z_ge_1; lia).
  destruct f as [|pf|pf]; try lia.
  - (* no row of the type *)
    split; [reflexivity|]. cbn. vm_compute. discriminate.
  - destruct (of_int_value pf ltac:(lia)) as (mf & ef & -> & Hvf).
    assert (Hfq : (1 <= inject_Z (Z.pos pf))%Q) by (apply inject_Z_ge_1; lia).
    assert (Hle : (inject_Z (Z.pos pf) <= inject_Z (Z.pos pn))%Q) by (rewrite <- Zle_Qle; lia).
    assert (Hshare : (inject_Z (Z.pos pf) / inject_Z (Z.pos pn) <= 1)%Q).
    { apply Qle_shift_div_r; lra. }
    assert (Hshare0 : (0 <= inject_Z (Z.pos pf) / inject_Z (Z.pos pn))%Q).
    { apply Qle_shift_div_l; lra. }
    destruct (div_error mf mn ef en 1) as (Hfin & Hpos & Herr); [|lia|].
    { rewrite Hvf, Hvn. change (2 ^ 1)%Q with 2%Q. lra. }
    rewrite Hvf, Hvn in Herr. change (2 ^ (1 - 53))%Q with (1 # 4503599627370496)%Q in Herr.
    change (1 # 2 ^ 44)%Q with (1 # 17592186044416)%Q.
    apply Qabs_Qle_condition in Herr.
    set (T := (inject_Z (Z.pos pf) / inject_Z (Z.pos pn))%Q) in *.
    destruct (div (S754_finite false mf ef) (S754_finite false mn en))
      as [sd | | | sd md ed] eqn:Hdiv; try discriminate Hfin.
    + (* the quotient rounds to zero *)
      cbn [float_value] in Herr.
      split; [reflexivity|]. cbn [mul SFmul float_value].
      apply Qabs_Qle_condition. split; lra.
    + destruct sd.
      { exfalso. cbn [float_value] in Hpos. pose proof (pw_pos ed).
        assert (inject_Z (Z.neg md) <= -1)%Q
          by (change (-1)%Q with (inject_Z (-1)); rewrite <- Zle_Qle; lia).
        nra. }
      set (vd := float_value (S754_finite false md ed)) in *.
      destruct (mul_error md 7036874417766400 ed (- 46) 7) as (Hfin2 & _ & Herr2); [|lia|].
      { fold vd. rewrite float_value_100. change (2 ^ 7)%Q with 128%Q. lra. }
      fold vd in Herr2. rewrite float_value_100 in Herr2.
      change (2 ^ (7 - 53))%Q with (1 # 70368744177664)%Q in Herr2.
      apply Qabs_Qle_condition in Herr2.
      split; [exact Hfin2|].
      apply Qabs_Qle_condition. split; lra.
Qed.

Lemma type_count_le (t : string) (v : DataFrame) : type_count t v <= length v.
Proof.
  unfold type_count. induction v as [|r v IH]; [reflexivity|].
  cbn [map length]. rewrite count_true_cons.
  destruct (eq_str (Type_ r) t); lia.
Qed.

Lemma free_or_paid_counts (v : DataFrame) :
  Forall free_or_paid v ->
  type_count "Free" v + type_count "Paid" v = length v.
Proof.
  unfold type_count.
  induction 1 as [|r v Hr _ IH]; [reflexivity|].
  cbn [map length]. rewrite !count_true_cons.
  destruct Hr as [-> | ->]; cbn; lia.
Qed.

(** C7, amended. When every row of the view is of type Free or Paid, the
    free rows and the paid rows together are all the rows.  For such a view
    that is not empty (and has fewer than 2^53 rows), the two percentages
    are finite, each is within 2^-44 of its exact share
    [100 * count / total], and their exact sum is within 2^-43 of 100. *)
Theorem free_and_paid_shares_add_up (v : DataFrame) :
  Forall free_or_paid v ->
  type_count "Free" v + type_count "Paid" v = length v /\
  (0 < length v -> (Z.of_nat (length v) < 2 ^ 53)%Z ->
   is_finite (free_percentage v) = true /\
   is_finite (paid_percentage v) = true /\
   (Qabs (float_value (free_percentage v) -
          100 * (inject_Z (Z.of_nat (type_count "Free" v)) /
                 inject_Z (Z.of_nat (length v)))) <= 1 # 2 ^ 44)%Q /\
   (Qabs (float_value (paid_percentage v) -
          100 * (inject_Z (Z.of_nat (type_count "Paid" v)) /
                 inject_Z (Z.of_nat (length v)))) <= 1 # 2 ^ 44)%Q /\
   (Qabs (float_value (free_percentage v) + float_value (paid_percentage v) - 100)
    <= 1 # 2 ^ 43)%Q).
Proof.
  intros Hall. pose proof (free_or_paid_counts v Hall) as Hsum.
  split; [exact Hsum|]. intros Hne Hsmall.
  pose proof (type_count_le "Free" v) as Hfle.
  pose proof (type_count_le "Paid" v) as Hple.
  destruct (share_error (Z.of_nat (type_count "Free" v)) (Z.of_nat (length v)))
    as [Hffin Hferr]; [lia | lia |].
  destruct (share_error (Z.of_nat (type_count "Paid" v)) (Z.of_nat (length v)))
    as [Hpfin Hperr]; [lia | lia |].
  unfold free_percentage, paid_percentage, type_percentage.
  repeat split; try assumption.
  set (x := float_value (mul (div (of_int (Z.of_nat (type_count "Free" v)))
                                  (of_int (Z.of_nat (length v)))) (of_int 100))) in *.
  set (y := float_value (mul (div (of_int (Z.of_nat (type_count "Paid" v)))
                                  (of_int (Z.of_nat (length v)))) (of_int 100))) in *.
  assert (Hn : (1 <= inject_Z (Z.of_nat (length v)))%Q) by (apply inject_Z_ge_1; lia).
  assert (Hexact : (100 * (inject_Z (Z.of_nat (type_count "Free" v)) /
                           inject_Z (Z.of_nat (length v))) +
                    100 * (inject_Z (Z.of_nat (type_count "Paid" v)) /
                           inject_Z (Z.of_nat (length v))) == 100)%Q).
  { replace (Z.of_nat (length v))
      with (Z.of_nat (type_count "Free" v) + Z.of_nat (type_count "Paid" v))%Z by lia.
    rewrite inject_Z_plus. field.
    rewrite <- inject_Z_plus.
    replace (Z.of_nat (type_count "Free" v) + Z.of_nat (type_count "Paid" v))%Z
      with (Z.of_nat (length v)) by lia.
    lra. }
  apply Qabs_Qle_condition in Hferr, Hperr.
  apply Qabs_Qle_condition.
  change (1 # 2 ^ 44)%Q with (1 # 17592186044416)%Q in *.
  change (1 # 2 ^ 43)%Q with (1 # 8796093022208)%Q.
  split; lra.
Qed.

Lemma free_and_paid_shares_add_up_witness :
  Forall free_or_paid example_df /\
  0 < length example_df /\
  (Z.of_nat (length example_df) < 2 ^ 53)%Z /\
  (Qabs (float_value (free_percentage example_df) +
         float_value (paid_percentage example_df) - 100) <= 1 # 2 ^ 43)%Q.
Proof.
  assert (H : Forall free_or_paid example_df).
  { unfold example_df.
    repeat first [apply Forall_nil_2 | apply Forall_cons_2];
      unfold free_or_paid; cbn; auto. }
  assert (Hne : 0 < length example_df) by (cbn; lia).
  assert (Hsmall : (Z.of_nat (length example_df) < 2 ^ 53)%Z) by (cbn; lia).
  split; [exact H|]. split; [exact Hne|]. split; [exact Hsmall|].
  apply (proj2 (free_and_paid_shares_add_up example_df H) Hne Hsmall).
Defined.

(** * Category counts (C6) *)

(** Among distinct keys exactly one equals a given member. *)
Lemma sum_list_indicator (ks : list string) (k0 : string) :
  NoDup ks -> k0 ∈ ks ->
  sum_list (map (fun k => if String.eqb k0 k then 1 else 0) ks) = 1.
Proof.
  induction 1 as [|k ks Hk Hnd IH]; intros Hin.
  - inversion Hin.
  - cbn [map sum_list foldr]. cbn.
    destruct (String.eqb_spec k0 k) as [-> | Hne].
    + assert (Hz : sum_list (map (fun k' => if String.eqb k k' then 1 else 0) ks) = 0).
      { clear IH Hin Hnd. induction ks as [|k' ks IH']; [reflexivity|].
        cbn. destruct (String.eqb_spec k k') as [-> | _].
        * exfalso. apply Hk. left.
        * apply IH'. intros Hin. apply Hk. right. exact Hin. }
      rewrite Hz. reflexivity.
    + apply elem_of_cons in Hin. destruct Hin as [-> | Hin]; [congruence|].
      rewrite IH by exact Hin. reflexivity.
Qed.

Lemma sum_list_zero {A : Type} (l : list A) :
  sum_list (map (fun _ => 0) l) = 0.
Proof. induction l; cbn; auto. Qed.

Lemma sum_list_plus {A : Type} (f g : A -> nat) (l : list A) :
  sum_list (map (fun x => f x + g x) l) = sum_list (map f l) + sum_list (map g l).
Proof. induction l as [|x l IH]; cbn; [reflexivity|]. rewrite IH. lia. Qed.

Lemma group_count_cons (k : string) (r : Row) (v : DataFrame) :
  group_count k (r :: v) =
  (if eq_str (Category r) k && negb (isna_str (App r)) then 1 else 0) + group_count k v.
Proof.
  unfold group_count, summary_of_group, group_rows.
  cbn [App_Count map boolean_index].
  destruct (eq_str (Category r) k); cbn [andb map]; [|reflexivity].
  rewrite count_true_cons. reflexivity.
Qed.

(** Over distinct keys that cover the categories of the view, every counted
    row is counted in exactly one group. *)
Lemma group_counts_sum (ks : list string) (v : DataFrame) :
  NoDup ks ->
  (forall r k, r ∈ v -> Category r = Some k -> k ∈ ks) ->
  sum_list (map (fun k => group_count k v) ks) = count_true (map counted v).
Proof.
  intros Hnd. induction v as [|r v IH]; intros Hks.
  - cbn. unfold group_count. cbn. apply sum_list_zero.
  - rewrite (map_ext _ _ (fun k => group_count_cons k r v)).
    rewrite sum_list_plus, IH.
    2:{ intros r' k Hr'. apply Hks. right. exact Hr'. }
    cbn [map]. rewrite count_true_cons. f_equal.
    unfold counted. destruct (Category r) as [k0|] eqn:Hc; cbn.
    + destruct (App r); cbn.
      * rewrite (map_ext _ (fun k => if String.eqb k0 k then 1 else 0)).
        2:{ intros k. rewrite andb_true_r. reflexivity. }
        apply sum_list_indicator; [exact Hnd|]. apply (Hks r); [left | exact Hc].
      * rewrite (map_ext _ (fun _ => 0)).
        2:{ intros k. rewrite andb_false_r. reflexivity. }
        apply sum_list_zero.
    + apply sum_list_zero.
Qed.

Lemma elem_of_present {A : Type} (cells : list (option A)) (x : A) :
  x ∈ present cells <-> Some x ∈ cells.
Proof.
  induction cells as [|[y|] cells IH]; cbn.
  - split; intros H; inversion H.
  - rewrite !elem_of_cons, IH. split; intros [H|H]; auto; left; congruence.
  - rewrite elem_of_cons, IH. split; [auto|]. intros [H|H]; [discriminate|auto].
Qed.

Lemma sum_list_Permutation (l1 l2 : list nat) :
  l1 ≡ₚ l2 -> sum_list l1 = sum_list l2.
Proof. induction 1; cbn; lia. Qed.

(** C6 fails as stated: a row without a category forms no group, so the two
    rows of this view give a single count of 1. *)
Lemma category_counts_miss_rows :
  df_filtered [example_row "Sudoku" "CatA" "Free" (of_int 4) 500; untyped_row] all_rows
    = [example_row "Sudoku" "CatA" "Free" (of_int 4) 500; untyped_row] /\
  sum_list (map App_Count
    (category_summary [example_row "Sudoku" "CatA" "Free" (of_int 4) 500; untyped_row])) = 1 /\
  length [example_row "Sudoku" "CatA" "Free" (of_int 4) 500; untyped_row] = 2.
Proof. vm_compute. repeat split. Qed.

Lemma insert_by_count_Permutation (s : CategorySummary) (l : list CategorySummary) :
  insert_by_count s l ≡ₚ s :: l.
Proof.
  induction l as [|x l IH]; cbn; [reflexivity|].
  destruct (App_Count x <=? App_Count s)%nat; [reflexivity|].
  rewrite IH. apply perm_swap.
Qed.

Lemma sort_by_count_Permutation (l : list CategorySummary) : sort_by_count l ≡ₚ l.
Proof.
  induction l as [|x l IH]; cbn; [reflexivity|].
  rewrite insert_by_count_Permutation, IH. reflexivity.
Qed.

(** Sorting the keys and sorting the summary rows do not change the sum. *)
Lemma summary_counts_by_key (v : DataFrame) :
  sum_list (map App_Count (category_summary v)) =
  sum_list (map (fun k => group_count k v) (remove_dups (present (map Category v)))).
Proof.
  unfold category_summary.
  rewrite (sum_list_Permutation _ _
             (fmap_Permutation App_Count _ _ (sort_by_count_Permutation _))).
  change (fmap App_Count) with (map App_Count). rewrite map_map.
  change (fun k => App_Count (summary_of_group k (group_rows k v)))
    with (fun k => group_count k v).
  unfold group_keys. apply sum_list_Permutation, fmap_Permutation.
  apply merge_sort_Permutation.
Qed.

Lemma present_categories_are_keys (v : DataFrame) (r : Row) (k : string) :
  r ∈ v -> Category r = Some k -> k ∈ remove_dups (present (map Category v)).
Proof.
  intros Hr Hc. apply elem_of_remove_dups, elem_of_present.
  rewrite <- Hc. apply (list_elem_of_fmap_2 Category). exact Hr.
Qed.

(** C6, amended. The app counts of the category summary add up to the
    number of rows of the view that have both a category and an app name. *)
Theorem category_counts_sum (v : DataFrame) :
  sum_list (map App_Count (category_summary v)) = count_true (map counted v).
Proof.
  rewrite summary_counts_by_key.
  apply group_counts_sum.
  - apply NoDup_remove_dups.
  - intros r k. apply present_categories_are_keys.
Qed.

(** X2. With every category and name present, the counts add up to the
    size of the view. *)
Corollary category_counts_cover_complete_views (v : DataFrame) :
  Forall (fun r => counted r = true) v ->
  sum_list (map App_Count (category_summary v)) = length v.
Proof.
  intros Hall. rewrite summary_counts_by_key, group_counts_sum;
    [|apply NoDup_remove_dups | intros r k; apply present_categories_are_keys].
  induction Hall as [|r v Hr _ IH]; [reflexivity|].
  cbn [map length]. rewrite count_true_cons, Hr, IH. reflexivity.
Qed.

Lemma category_counts_cover_complete_views_witness :
  Forall (fun r => counted r = true) example_df /\
  sum_list (map App_Count (category_summary example_df)) = length example_df.
Proof.
  assert (H : Forall (fun r => counted r = true) example_df).
  { unfold example_df.
    repeat first [apply Forall_nil_2 | apply Forall_cons_2]; reflexivity. }
  split; [exact H|].
  exact (category_counts_cover_complete_views example_df H).
Defined.

(** X3. The worked example of the specification: a minimum rating of 4.0 keeps
    two of the three rows, their mean rating is 4.25 and each of the two
    categories counts one app. *)
Example minimum_rating_four_on_the_sample :
  map App (df_filtered example_df (with_min_rating (of_int 4) all_rows))
    = [Some "Sudoku"; Some "2048"] /\
  avg_rating (df_filtered example_df (with_min_rating (of_int 4) all_rows))
    = of_dec 425 2 /\
  value (metric_avg_rating example_df
           (df_filtered example_df (with_min_rating (of_int 4) all_rows))) = "4.25 " /\
  map (fun s => (summary_category s, App_Count s))
      (category_summary (df_filtered example_df (with_min_rating (of_int 4) all_rows)))
    = [("CatA", 1); ("CatB", 1)].
Proof. vm_compute. repeat split. Qed.

(** * The scatter sample and the generator (C5) *)

(** Exchanging two entries of an array permutes it. *)
Lemma insert_head_Permutation (arr : list nat) (j x b : nat) :
  arr !! j = Some b -> b :: <[j := x]> arr ≡ₚ x :: arr.
Proof.
  revert j. induction arr as [|y arr IH]; intros [|j] Hj; cbn in *; try discriminate.
  - injection Hj as ->. apply perm_swap.
  - rewrite (perm_swap y b). rewrite (IH j Hj). apply perm_swap.
Qed.

Lemma swap_Permutation (arr : list nat) (i j : nat) : swap arr i j ≡ₚ arr.
Proof.
  unfold swap. revert i j.
  induction arr as [|x arr IH]; intros i j; [destruct i; reflexivity|].
  destruct i as [|i], j as [|j]; cbn.
  - reflexivity.
  - destruct (arr !! j) as [b|] eqn:Hj; [|reflexivity].
    cbn. apply insert_head_Permutation. exact Hj.
  - destruct (arr !! i) as [a|] eqn:Hi; [|reflexivity].
    cbn. apply insert_head_Permutation. exact Hi.
  - specialize (IH i j).
    destruct (arr !! i) as [a|], (arr !! j) as [b|]; try reflexivity.
    cbn. rewrite IH. reflexivity.
Qed.

Lemma omap_submseteq_mono {A B : Type} (f : A -> option B) (l k : list A) :
  l ⊆+ k -> omap f l ⊆+ omap f k.
Proof.
  induction 1 as [|x l k _ IH|x y l|x l k _ IH|l k m _ IH1 _ IH2]; cbn.
  - reflexivity.
  - destruct (f x); [apply submseteq_skip|]; exact IH.
  - destruct (f x), (f y); try reflexivity. apply submseteq_swap.
  - destruct (f x); [apply submseteq_cons|]; exact IH.
  - etransitivity; eassumption.
Qed.

(** ** Two recorded sequences of draws *)

Lemma swap_same (arr : list nat) (i : nat) : swap arr i i = arr.
Proof.
  unfold swap. destruct (arr !! i) as [a|] eqn:Hi; [|reflexivity].
  rewrite list_insert_insert_eq. apply list_insert_id. exact Hi.
Qed.

Lemma replay_draw (x m : nat) (g : list nat) :
  x <= m -> random_interval (x :: g) m = (x, g).
Proof.
  intros Hx. cbn [random_interval replay_random_state replay_interval].
  rewrite Nat.mod_small by lia. reflexivity.
Qed.

(** With the draws [i, ..., 1] the shuffle leaves the array as it is. *)
Lemma shuffle_identity_draws (i : nat) (arr : list nat) :
  shuffle i (identity_draws i) arr = (arr, []).
Proof.
  revert arr. induction i as [|i IH]; intros arr; [reflexivity|].
  cbn [shuffle identity_draws]. rewrite replay_draw by lia.
  rewrite swap_same. apply IH.
Qed.

(** With the draw 0 at step [k] the shuffle exchanges entry [k] and the
    first entry, and nothing else. *)
Lemma shuffle_front_draws (k i : nat) (arr : list nat) :
  shuffle i (front_draws k i) arr = (if (k <=? i)%nat && (1 <=? k)%nat
                                     then swap arr k 0 else arr, []).
Proof.
  revert arr. induction i as [|i IH]; intros arr.
  - cbn. destruct k as [|k]; reflexivity.
  - cbn [shuffle front_draws].
    destruct (Nat.eqb_spec (S i) k) as [<- | Hne].
    + rewrite replay_draw by lia. rewrite IH.
      destruct (Nat.leb_spec (S i) i); [lia|]. cbn [andb].
      rewrite Nat.leb_refl. reflexivity.
    + rewrite replay_draw by lia. rewrite swap_same, IH.
      destruct (Nat.leb_spec k i), (Nat.leb_spec k (S i)); try lia; reflexivity.
Qed.

Lemma take_rows_cons (v : DataFrame) (i : nat) (idx : list nat) (r : Row) :
  v !! i = Some r -> take_rows v (i :: idx) = r :: take_rows v idx.
Proof. intros Hi. unfold take_rows. cbn. rewrite Hi. reflexivity. Qed.

(** The sample under the two sequences of draws: it begins with the first
    row of the view under the one, with row [k] under the other. *)
Lemma sample_df_heads (v : DataFrame) (k : nat) (r0 r : Row) :
  v !! 0 = Some r0 -> v !! k = Some r -> k <> 0 ->
  (exists rows, fst (sample_df (identity_draws (length v - 1)) v) = r0 :: rows) /\
  (exists rows, fst (sample_df (front_draws k (length v - 1)) v) = r :: rows).
Proof.
  intros H0 Hk Hk0.
  assert (Hlen : k < length v) by (apply lookup_lt_is_Some; eauto).
  assert (Hsize : exists n, Nat.min 1000 (length v) = S n).
  { destruct (Nat.min 1000 (length v)) as [|n] eqn:Hm; [|eauto].
    exfalso. assert (H1000 : 0 < 1000) by (apply Nat.ltb_lt; reflexivity).
    pose proof (Nat.min_glb_lt 1000 (length v) 0 H1000 ltac:(lia)). lia. }
  destruct Hsize as [n Hn].
  unfold sample_df, sample, choice, permutation. rewrite Hn. split.
  - rewrite shuffle_identity_draws. cbn [fst].
    destruct (length v) as [|m] eqn:Hv; [lia|].
    cbn [seq take]. rewrite (take_rows_cons v 0 _ r0 H0). eauto.
  - rewrite shuffle_front_draws.
    destruct (Nat.leb_spec k (length v - 1)); [|lia].
    destruct (Nat.leb_spec 1 k); [|lia]. cbn [andb fst].
    assert (Hhead : exists p, swap (seq 0 (length v)) k 0 = k :: p).
    { unfold swap. rewrite (lookup_seq_lt 0 (length v) k Hlen).
      rewrite (lookup_seq_lt 0 (length v) 0) by lia. cbn [Nat.add].
      destruct (<[k:=0]> (seq 0 (length v))) as [|x p] eqn:Hp.
      - apply (f_equal length) in Hp. rewrite length_insert, length_seq in Hp.
        cbn in Hp. lia.
      - cbn. eauto. }
    destruct Hhead as [p ->]. cbn [take].
    rewrite (take_rows_cons v k _ r Hk). eauto.
Qed.

Section SampleFacts.
Context {G : Type} `{RandomState G}.

Lemma shuffle_Permutation (i : nat) (g : G) (arr : list nat) :
  fst (shuffle i g arr) ≡ₚ arr.
Proof.
  revert g arr. induction i as [|i IH]; intros g arr; [reflexivity|].
  cbn. destruct (random_interval g (S i)) as [j g'].
  rewrite IH. apply swap_Permutation.
Qed.

Lemma permutation_Permutation (g : G) (n : nat) :
  fst (permutation g n) ≡ₚ seq 0 n.
Proof. apply shuffle_Permutation. Qed.

Lemma take_rows_seq (v : DataFrame) (k : nat) :
  take_rows v (seq k (length v - k)) = drop k v.
Proof.
  unfold take_rows.
  remember (length v - k) as n eqn:Hn. revert k Hn.
  induction n as [|n IH]; intros k Hn.
  - cbn. symmetry. apply drop_ge. lia.
  - cbn. destruct (v !! k) as [r|] eqn:Hk.
    + cbn. rewrite IH by lia. symmetry. apply drop_S. exact Hk.
    + apply lookup_ge_None in Hk. lia.
Qed.

Lemma take_rows_length (v : DataFrame) (idx : list nat) :
  Forall (fun i => i < length v) idx -> length (take_rows v idx) = length idx.
Proof.
  unfold take_rows. induction 1 as [|i idx Hi _ IH]; [reflexivity|].
  destruct (lookup_lt_is_Some_2 v i Hi) as [r Hr].
  cbn. rewrite Hr. cbn. rewrite IH. reflexivity.
Qed.

Lemma choice_indices (g : G) (pop size : nat) :
  fst (choice g pop size) ⊆+ seq 0 pop /\
  length (fst (choice g pop size)) = Nat.min size pop.
Proof.
  unfold choice. pose proof (permutation_Permutation g pop) as Hp.
  destruct (permutation g pop) as [p g']. cbn in *.
  split.
  - rewrite <- Hp. apply sublist_submseteq, sublist_take.
  - rewrite length_take. apply Permutation_length in Hp.
    rewrite Hp, length_seq. reflexivity.
Qed.

Lemma sample_rows (g : G) (n : nat) (v : DataFrame) :
  fst (sample g n v) ⊆+ v /\ length (fst (sample g n v)) = Nat.min n (length v).
Proof.
  unfold sample. destruct (choice_indices g (length v) n) as [Hsub Hlen].
  destruct (choice g (length v) n) as [idx g']. cbn in *.
  split.
  - transitivity (take_rows v (seq 0 (length v))).
    + unfold take_rows. apply omap_submseteq_mono. exact Hsub.
    + pose proof (take_rows_seq v 0) as Hs. rewrite Nat.sub_0_r in Hs.
      rewrite Hs. reflexivity.
  - rewrite take_rows_length; [exact Hlen|].
    apply Forall_forall. intros i Hi.
    apply (elem_of_submseteq _ _ _ Hi) in Hsub.
    apply elem_of_seq in Hsub. lia.
Qed.

(** C5, amended. Everything on the page except the scatter plot is computed
    from the dataset, the criteria and the query alone, whatever the state
    of the random generator.  The scatter input is a draw that consumes the
    generator: it holds min(1000, size) rows of the filtered view, each row
    at most as often as the view does, in an order set by the generator;
    and as soon as some row of the view differs from its first row, there
    are two sequences of draws under which the scatter inputs differ. *)
Theorem only_the_sample_uses_the_generator (g1 g2 : G) (df : DataFrame)
    (c : FilterCriteria) (search_query : string) :
  without_scatter (fst (dashboard g1 df c search_query)) =
    without_scatter (fst (dashboard g2 df c search_query)) /\
  scatter_input (fst (dashboard g1 df c search_query)) ⊆+ df_filtered df c /\
  length (scatter_input (fst (dashboard g1 df c search_query))) =
    Nat.min 1000 (length (df_filtered df c)) /\
  (forall (k : nat) (r0 r : Row),
     df_filtered df c !! 0 = Some r0 -> df_filtered df c !! k = Some r -> r <> r0 ->
     scatter_input
       (fst (dashboard (identity_draws (length (df_filtered df c) - 1))
                       df c search_query)) <>
     scatter_input
       (fst (dashboard (front_draws k (length (df_filtered df c) - 1))
                       df c search_query))).
Proof.
  split; [|split; [|split]].
  - unfold dashboard.
    destruct (sample_df g1 (df_filtered df c)) as [s1 g1'].
    destruct (sample_df g2 (df_filtered df c)) as [s2 g2'].
    reflexivity.
  - unfold dashboard.
    pose proof (sample_rows g1 (Nat.min 1000 (length (df_filtered df c)))
                  (df_filtered df c)) as [Hsub _].
    fold (sample_df g1 (df_filtered df c)) in Hsub.
    destruct (sample_df g1 (df_filtered df c)) as [s1 g1']. exact Hsub.
  - unfold dashboard.
    pose proof (sample_rows g1 (Nat.min 1000 (length (df_filtered df c)))
                  (df_filtered df c)) as [_ Hlen].
    fold (sample_df g1 (df_filtered df c)) in Hlen.
    destruct (sample_df g1 (df_filtered df c)) as [s1 g1']. cbn [fst scatter_input] in *.
    rewrite Hlen. apply Nat.min_l, Nat.le_min_r.
  - intros k r0 r H0 Hk Hne.
    assert (Hk0 : k <> 0) by (intros ->; congruence).
    destruct (sample_df_heads (df_filtered df c) k r0 r H0 Hk Hk0)
      as [(rows1 & Hs1) (rows2 & Hs2)].
    unfold dashboard.
    destruct (sample_df (identity_draws (length (df_filtered df c) - 1))
                (df_filtered df c)) as [s1 g1'].
    destruct (sample_df (front_draws k (length (df_filtered df c) - 1))
                (df_filtered df c)) as [s2 g2'].
    cbn [fst scatter_input] in *. subst s1 s2. congruence.
Qed.

End SampleFacts.

(** C5 fails as stated: on the same three-row view, two states of the
    generator give two different scatter inputs. *)
Lemma scatter_sample_varies :
  df_filtered example_df all_rows = example_df /\
  map App (scatter_input (fst (dashboard [0; 0] example_df all_rows "")))
    = [Some "Notes"; Some "2048"; Some "Sudoku"] /\
  map App (scatter_input (fst (dashboard [2; 1] example_df all_rows "")))
    = [Some "Sudoku"; Some "Notes"; Some "2048"] /\
  scatter_input (fst (dashboard [0; 0] example_df all_rows "")) <>
  scatter_input (fst (dashboard [2; 1] example_df all_rows "")).
Proof.
  repeat split; try (vm_compute; reflexivity).
  intros Heq. apply (f_equal (map App)) in Heq. vm_compute in Heq. discriminate.
Qed.

(** * Price buckets (C10) *)

Lemma float_ltb_trans (a b c : float) :
  ltb a b = true -> ltb b c = true -> ltb a c = true.
Proof.
  rewrite !float_ltb_rank. unfold rank_rel.
  destruct (rank a) as [[[c1 e1] m1]|], (rank b) as [[[c2 e2] m2]|],
    (rank c) as [[[c3 e3] m3]|]; cbn [rank_lt]; try tauto; lia.
Qed.

Lemma float_ltb_nan_r (a : float) : ltb a nan = false.
Proof. destruct a as [[] | [] | | [] m e]; reflexivity. Qed.

(** Among numbers, [x <= b] is the negation of [b < x]. *)
Lemma float_leb_negb_ltb (x b : float) :
  is_nan x = false -> is_nan b = false -> leb x b = negb (ltb b x).
Proof.
  intros Hx Hb.
  assert (Hr : forall y, is_nan y = false -> exists r, rank y = Some r).
  { intros [[] | [] | | [] m e]; cbn; try discriminate; eauto. }
  destruct (Hr x Hx) as [[[c1 e1] m1] Hrx], (Hr b Hb) as [[[c2 e2] m2] Hrb].
  destruct (leb x b) eqn:Hle, (ltb b x) eqn:Hlt; try reflexivity; exfalso.
  - apply float_leb_rank in Hle. apply float_ltb_rank in Hlt.
    unfold rank_rel in *. rewrite Hrx, Hrb in *. tauto.
  - assert (Hle' : ~ rank_rel (fun ra rb => ~ rank_lt rb ra) x b)
      by (rewrite <- float_leb_rank; congruence).
    assert (Hlt' : ~ rank_rel rank_lt b x)
      by (rewrite <- float_ltb_rank; congruence).
    unfold rank_rel in *. rewrite Hrx, Hrb in *. tauto.
Qed.

Lemma price_edges_increasing :
  ltb (of_int 0) (of_dec 1 2) = true /\ ltb (of_dec 1 2) (of_int 2) = true /\
  ltb (of_int 2) (of_int 5) = true /\ ltb (of_int 5) (of_int 10) = true /\
  ltb (of_int 10) (of_int 100) = true.
Proof. vm_compute. repeat split. Qed.

(** What is above an edge is above the edges below it. *)
Lemma above_price_edges (x : float) :
  (ltb (of_dec 1 2) x = true -> ltb (of_int 0) x = true) /\
  (ltb (of_int 2) x = true -> ltb (of_dec 1 2) x = true) /\
  (ltb (of_int 5) x = true -> ltb (of_int 2) x = true) /\
  (ltb (of_int 10) x = true -> ltb (of_int 5) x = true) /\
  (ltb (of_int 100) x = true -> ltb (of_int 10) x = true).
Proof.
  destruct price_edges_increasing as (H01 & H12 & H23 & H34 & H45).
  repeat split; eapply float_ltb_trans; eassumption.
Qed.

Ltac name_edges :=
  set (b0 := of_int 0) in *; set (b1 := of_dec 1 2) in *; set (b2 := of_int 2) in *;
  set (b3 := of_int 5) in *; set (b4 := of_int 10) in *; set (b5 := of_int 100) in *;
  clearbody b0 b1 b2 b3 b4 b5.

Ltac impossible_edges :=
  repeat match goal with
         | M : true = true -> false = true |- _ => discriminate (M eq_refl)
         end.

(** The bucket of a number, read off the bin edges from the top. *)
Lemma cut_price_cases (x : float) :
  is_nan x = false ->
  cut price_bins x =
    if ltb (of_int 100) x then None
    else if ltb (of_int 10) x then Some 4
    else if ltb (of_int 5) x then Some 3
    else if ltb (of_int 2) x then Some 2
    else if ltb (of_dec 1 2) x then Some 1
    else if ltb (of_int 0) x then Some 0
    else None.
Proof.
  intros Hx. destruct (above_price_edges x) as (M0 & M1 & M2 & M3 & M4).
  unfold cut, searchsorted_left, price_bins. rewrite Hx.
  name_edges.
  cbn [length binsearch_left nth Nat.ltb Nat.leb Nat.add Nat.sub Nat.div Nat.divmod
       fst andb orb negb].
  unfold np_lt. rewrite Hx. cbn [andb]. rewrite !orb_false_r.
  destruct (ltb b5 x), (ltb b4 x), (ltb b3 x), (ltb b2 x), (ltb b1 x), (ltb b0 x);
    try reflexivity; impossible_edges.
Qed.

(** C10. The price buckets do not cover the view.  A price of exactly 0, or
    one above 100, falls in no bucket; a price is in bucket [i] exactly when
    it lies in the left-open interval from edge [i] to edge [i+1]; and the
    bar labelled "Free" is the mean rating over the rows whose price is
    above 0 and at most 0.01. *)
Theorem price_buckets_are_left_open (v : DataFrame) :
  (forall x : float,
     eqb x zero = true \/ gtb x (of_int 100) = true -> cut price_bins x = None) /\
  (forall (x : float) (i : nat),
     cut price_bins x = Some i <->
     i < 5 /\ ltb (nth i price_bins nan) x = true /\
     leb x (nth (S i) price_bins nan) = true) /\
  price_chart v !! 0 =
    Some ("Free",
          mean (map Rating
                  (List.filter (fun r => gtb (Price_Clean r) zero &&
                                         leb (Price_Clean r) (of_dec 1 2)) v))).
Proof.
  assert (Hiff : forall (x : float) (i : nat),
     cut price_bins x = Some i <->
     i < 5 /\ ltb (nth i price_bins nan) x = true /\
     leb x (nth (S i) price_bins nan) = true).
  { intros x i. destruct (is_nan x) eqn:Hx.
    - destruct x; try discriminate. split; [vm_compute; discriminate|].
      intros (_ & Hlt & _). rewrite float_ltb_nan_r in Hlt. discriminate.
    - rewrite (cut_price_cases x Hx).
      destruct (above_price_edges x) as (M0 & M1 & M2 & M3 & M4).
      assert (L1 := float_leb_negb_ltb x (of_dec 1 2) Hx eq_refl).
      assert (L2 := float_leb_negb_ltb x (of_int 2) Hx eq_refl).
      assert (L3 := float_leb_negb_ltb x (of_int 5) Hx eq_refl).
      assert (L4 := float_leb_negb_ltb x (of_int 10) Hx eq_refl).
      assert (L5 := float_leb_negb_ltb x (of_int 100) Hx eq_refl).
      unfold price_bins. name_edges.
      destruct i as [|[|[|[|[|i]]]]]; cbn [nth];
        rewrite ?L1, ?L2, ?L3, ?L4, ?L5;
        destruct (ltb b5 x), (ltb b4 x), (ltb b3 x), (ltb b2 x), (ltb b1 x), (ltb b0 x);
        impossible_edges; cbn [negb];
        (split;
         [ intros Heq; try discriminate Heq; try (injection Heq as Heq);
           try (exfalso; lia); repeat split; (lia || reflexivity)
         | intros (Hi & Hlt & Hle); try (exfalso; lia); try discriminate; reflexivity ]). }
  split; [|split; [exact Hiff|]].
  - intros x [Hz | Hbig].
    + destruct x as [[] | [] | | [] m e]; try discriminate Hz;
        vm_compute; reflexivity.
    + unfold gtb in Hbig.
      assert (Hx : is_nan x = false).
      { destruct x; try reflexivity. rewrite float_ltb_nan_r in Hbig. discriminate. }
      rewrite (cut_price_cases x Hx), Hbig. reflexivity.
  - unfold price_chart, price_rating, bucket_means.
    change (zip price_labels
              (map (fun i => mean (map Rating
                      (boolean_index v (map (in_bucket price_bins Price_Clean i) v))))
                   (seq 0 (length price_bins - 1))) !! 0)
      with (Some ("Free", mean (map Rating
              (boolean_index v (map (in_bucket price_bins Price_Clean 0) v))))).
    do 4 f_equal. rewrite boolean_index_filter. apply filter_ext. intros r.
    unfold in_bucket.
    pose proof (Hiff (Price_Clean r) 0) as H0. cbn [nth price_bins] in H0.
    change (of_int 0) with zero in H0. unfold gtb.
    destruct (cut price_bins (Price_Clean r)) as [j|] eqn:Hcut.
    + destruct j as [|j].
      * destruct (proj1 H0 eq_refl) as (_ & -> & ->). reflexivity.
      * cbn. symmetry. apply not_true_is_false. intros Hb.
        apply andb_true_iff in Hb. destruct Hb as [Hb1 Hb2].
        assert (Some (S j) = Some 0) by (apply H0; repeat split; [lia|assumption..]).
        discriminate.
    + symmetry. apply not_true_is_false. intros Hb.
      apply andb_true_iff in Hb. destruct Hb as [Hb1 Hb2].
      assert (@None nat = Some 0) by (apply H0; repeat split; [lia|assumption..]).
      discriminate.
Qed.


(** * Name search (C8) *)

Lemma string_app_assoc (a b c : string) :
  ((a ++ b) ++ c)%string = (a ++ (b ++ c))%string.
Proof. induction a as [|x a IH]; cbn; [|rewrite IH]; reflexivity. Qed.

Lemma has_char_app (p : ascii -> bool) (a b : string) :
  has_char p (a ++ b)%string = has_char p a || has_char p b.
Proof.
  induction a as [|x a IH]; cbn; [reflexivity|].
  rewrite IH, orb_assoc. reflexivity.
Qed.

Lemma lower_string_app (a b : string) :
  lower_string (a ++ b)%string = (lower_string a ++ lower_string b)%string.
Proof. induction a as [|x a IH]; cbn; [|rewrite IH]; reflexivity. Qed.

Lemma contains_literal_has_char (name : string) (c : ascii) :
  contains_literal name (String c EmptyString) ->
  has_char (Ascii.eqb (lower c)) (lower_string name) = true.
Proof.
  intros (pre & post & Heq). rewrite Heq, has_char_app. cbn.
  rewrite Ascii.eqb_refl. cbn. apply orb_true_r.
Qed.

(** C8. The query is compiled as a regular expression, so it is not matched
    literally: for the query "." the search returns every row of the view,
    although no name contains a dot. *)
Theorem search_interprets_the_query :
  search_results example_df "." = SearchResults example_df /\
  Forall (fun r => forall name, App r = Some name -> ~ contains_literal name ".")
         example_df.
Proof.
  split; [vm_compute; reflexivity|].
  unfold example_df.
  repeat first [apply Forall_nil_2 | apply Forall_cons_2];
    intros name [= <-] Hc; apply contains_literal_has_char in Hc;
    vm_compute in Hc; discriminate.
Qed.







(** * Export and re-reading (C9) *)

(** The first character of an unquoted field without carriage return is
    none of the four characters the tokenizer treats specially. *)
Ltac plain_head Hcr Hq :=
  cbn in Hcr, Hq; apply orb_false_iff in Hcr, Hq;
  let Hc := fresh "Hc" in let Hqc := fresh "Hqc" in
  destruct Hcr as [Hc Hcr], Hq as [Hqc Hq];
  unfold is_cr in Hc; unfold quote_trigger in Hqc;
  apply orb_false_iff in Hqc;
  let Hlf := fresh "Hlf" in destruct Hqc as [Hqc Hlf];
  apply orb_false_iff in Hqc;
  let Hcomma := fresh "Hcomma" in let Hdq := fresh "Hdq" in
  destruct Hqc as [Hcomma Hdq].

Lemma tokenize_bytes_app (t : tokenizer) (a b : string) :
  tokenize_bytes t (a ++ b)%string =
  match tokenize_bytes t a with
  | Some t' => tokenize_bytes t' b
  | None => None
  end.
Proof.
  revert t. induction a as [|c a IH]; intros t; cbn; [reflexivity|].
  destruct (step t c); [apply IH | reflexivity].
Qed.

Lemma string_app_nil_r (s : string) : (s ++ EmptyString)%string = s.
Proof. induction s as [|c s IH]; cbn; [|rewrite IH]; reflexivity. Qed.

Lemma string_app_snoc (a : string) (c : ascii) (b : string) :
  ((a ++ String c EmptyString) ++ b)%string = (a ++ String c b)%string.
Proof. rewrite string_app_assoc. reflexivity. Qed.

(** Unquoted text: every character is copied. *)
Lemma in_field_plain (f buf : string) (l : list string) (ls : list (list string))
    (rest : string) :
  has_char is_cr f = false -> needs_quote f = false ->
  tokenize_bytes (mkTokenizer IN_FIELD buf l ls) (f ++ rest)%string =
  tokenize_bytes (mkTokenizer IN_FIELD (buf ++ f)%string l ls) rest.
Proof.
  revert buf. induction f as [|c f IH]; intros buf Hcr Hq.
  - cbn. rewrite string_app_nil_r. reflexivity.
  - plain_head Hcr Hq.
    cbn [append tokenize_bytes]. unfold step. rewrite Hc. cbn [state].
    unfold step_in_field. rewrite Hlf, Hcomma.
    unfold push_char, set_state. cbn [state field line lines].
    rewrite IH by assumption. rewrite string_app_snoc. reflexivity.
Qed.

(** Quoted text: doubled quotes are read back as one. *)
Lemma in_quoted_field (f buf : string) (l : list string) (ls : list (list string))
    (rest : string) :
  has_char is_cr f = false ->
  tokenize_bytes (mkTokenizer IN_QUOTED_FIELD buf l ls) (double_quotes f ++ rest)%string =
  tokenize_bytes (mkTokenizer IN_QUOTED_FIELD (buf ++ f)%string l ls) rest.
Proof.
  revert buf. induction f as [|c f IH]; intros buf Hcr.
  - cbn. rewrite string_app_nil_r. reflexivity.
  - cbn in Hcr. apply orb_false_iff in Hcr. destruct Hcr as [Hc Hcr].
    unfold is_cr in Hc. cbn [double_quotes].
    destruct (Ascii.eqb c DQUOTE) eqn:Hdq.
    + apply Ascii.eqb_eq in Hdq. subst c.
      cbn [append tokenize_bytes].
      change (step (mkTokenizer IN_QUOTED_FIELD buf l ls) DQUOTE)
        with (Some (mkTokenizer QUOTE_IN_QUOTED_FIELD buf l ls)).
      cbn [tokenize_bytes].
      change (step (mkTokenizer QUOTE_IN_QUOTED_FIELD buf l ls) DQUOTE)
        with (Some (mkTokenizer IN_QUOTED_FIELD (buf ++ String DQUOTE EmptyString) l ls)).
      cbv beta iota.
      rewrite IH by assumption. rewrite string_app_snoc. reflexivity.
    + cbn [append tokenize_bytes]. unfold step. rewrite Hc. cbn [state]. rewrite Hdq.
      unfold push_char. cbn [state field line lines].
      rewrite IH by assumption. rewrite string_app_snoc. reflexivity.
Qed.

(** Blanks at the start of a record, then more unquoted text, then a comma:
    the blanks are the beginning of the first field. *)
Lemma whitespace_line_plain (f buf : string) (ls : list (list string)) (rest : string) :
  has_char is_cr f = false -> needs_quote f = false ->
  tokenize_bytes (mkTokenizer WHITESPACE_LINE buf [] ls) (f ++ String COMMA rest)%string =
  tokenize_bytes (mkTokenizer START_FIELD EmptyString [(buf ++ f)%string] ls) rest.
Proof.
  revert buf. induction f as [|c f IH]; intros buf Hcr Hq.
  - cbn. rewrite string_app_nil_r. reflexivity.
  - plain_head Hcr Hq.
    cbn [append tokenize_bytes]. unfold step. rewrite Hc. cbn [state]. rewrite Hlf.
    destruct (is_whitespace c).
    + unfold push_char. cbn [state field line lines].
      rewrite IH by assumption. rewrite string_app_snoc. reflexivity.
    + unfold step_in_field. rewrite Hlf, Hcomma.
      unfold push_char, set_state. cbn [state field line lines].
      rewrite in_field_plain by assumption.
      rewrite string_app_snoc. reflexivity.
Qed.

(** One written field and its delimiter [d] (a comma or the line end), read
    at the start of a field. *)
Lemma start_field_write_field (d : ascii) (f : string) (l : list string)
    (ls : list (list string)) (rest : string) :
  d = COMMA \/ d = LF ->
  has_char is_cr f = false ->
  tokenize_bytes (mkTokenizer START_FIELD EmptyString l ls)
    (write_field f ++ String d rest)%string =
  tokenize_bytes (after_field d f l ls) rest.
Proof.
  intros Hd Hcr. unfold write_field.
  destruct (needs_quote f) eqn:Hq.
  - cbn [append tokenize_bytes].
    change (step (mkTokenizer START_FIELD EmptyString l ls) DQUOTE)
      with (Some (mkTokenizer IN_QUOTED_FIELD EmptyString l ls)).
    cbv beta iota.
    rewrite string_app_assoc, in_quoted_field by assumption.
    cbn [append tokenize_bytes].
    change (step (mkTokenizer IN_QUOTED_FIELD f l ls) DQUOTE)
      with (Some (mkTokenizer QUOTE_IN_QUOTED_FIELD f l ls)).
    cbv beta iota. unfold after_field.
    destruct Hd as [-> | ->]; reflexivity.
  - destruct f as [|c f].
    + cbn [append tokenize_bytes]. unfold after_field.
      destruct Hd as [-> | ->]; reflexivity.
    + plain_head Hcr Hq.
      cbn [append tokenize_bytes]. unfold step at 1. rewrite Hc. cbn [state].
      unfold step_start_field. rewrite Hlf, Hdq, Hcomma.
      unfold push_char, set_state. cbn [state field line lines].
      rewrite in_field_plain by assumption.
      cbn [append tokenize_bytes]. unfold after_field.
      destruct Hd as [-> | ->]; reflexivity.
Qed.

(** The same at the start of a record, when a comma follows. *)
Lemma start_record_write_field (f : string) (ls : list (list string)) (rest : string) :
  has_char is_cr f = false ->
  tokenize_bytes (mkTokenizer START_RECORD EmptyString [] ls)
    (write_field f ++ String COMMA rest)%string =
  tokenize_bytes (mkTokenizer START_FIELD EmptyString [f] ls) rest.
Proof.
  intros Hcr.
  pose proof (start_field_write_field COMMA f [] ls rest (or_introl eq_refl) Hcr) as Hsf.
  unfold after_field in Hsf. cbn [Ascii.eqb COMMA LF Bool.eqb app] in Hsf.
  rewrite <- Hsf. clear Hsf.
  unfold write_field. destruct (needs_quote f) eqn:Hq.
  - reflexivity.
  - destruct f as [|c f]; [reflexivity|].
    plain_head Hcr Hq.
    cbn [append tokenize_bytes]. unfold step. rewrite Hc. cbn [state]. rewrite Hlf.
    unfold step_start_field. rewrite Hlf, Hdq, Hcomma.
    unfold push_char, set_state. cbn [state field line lines append].
    destruct (is_whitespace c); [|reflexivity].
    rewrite whitespace_line_plain by assumption.
    rewrite in_field_plain by assumption.
    reflexivity.
Qed.

(** The fields after the first one, up to the end of the line. *)
Lemma join_fields_tail (fields l : list string) (ls : list (list string)) (rest : string) :
  fields <> [] -> no_cr_record fields ->
  tokenize_bytes (mkTokenizer START_FIELD EmptyString l ls)
    (join_fields fields ++ String LF rest)%string =
  tokenize_bytes (mkTokenizer START_RECORD EmptyString [] (ls ++ [l ++ fields])) rest.
Proof.
  revert l. induction fields as [|f fields IH]; intros l Hne Hcr; [congruence|].
  apply Forall_cons in Hcr. destruct Hcr as [Hf Hcr].
  destruct fields as [|f' fields].
  - cbn [join_fields].
    rewrite (start_field_write_field LF) by auto. reflexivity.
  - change (join_fields (f :: f' :: fields))
      with (write_field f ++ String COMMA (join_fields (f' :: fields)))%string.
    rewrite string_app_assoc. cbn [append].
    rewrite (start_field_write_field COMMA) by auto.
    unfold after_field. cbn [Ascii.eqb COMMA LF Bool.eqb].
    rewrite IH by (auto; congruence).
    rewrite <- app_assoc. reflexivity.
Qed.

Lemma writerow_tokenizes (fields : list string) (ls : list (list string)) (rest : string) :
  2 <= length fields -> no_cr_record fields ->
  tokenize_bytes (mkTokenizer START_RECORD EmptyString [] ls)
    (writerow fields ++ rest)%string =
  tokenize_bytes (mkTokenizer START_RECORD EmptyString [] (ls ++ [fields])) rest.
Proof.
  intros Hlen Hcr.
  destruct fields as [|f [|f' fields]]; cbn in Hlen; try lia.
  apply Forall_cons in Hcr. destruct Hcr as [Hf Hcr].
  assert (Hw : writerow (f :: f' :: fields) =
               (write_field f ++ String COMMA (join_fields (f' :: fields) ++ String LF EmptyString))%string).
  { unfold writerow. destruct f; cbn [join_fields]; rewrite string_app_assoc; reflexivity. }
  rewrite Hw, string_app_assoc. cbn [append].
  rewrite start_record_write_field by assumption.
  rewrite string_app_assoc. cbn [append].
  rewrite join_fields_tail by (auto; congruence). reflexivity.
Qed.

(** The tokenizer reads back what the writer wrote. *)
Lemma writerows_tokenize (rows : list (list string)) :
  Forall (fun fields => 2 <= length fields /\ no_cr_record fields) rows ->
  tokenize (writerows rows) = Some rows.
Proof.
  intros Hrows. unfold tokenize.
  assert (Hgen : forall ls,
    tokenize_bytes (mkTokenizer START_RECORD EmptyString [] ls) (writerows rows) =
    Some (mkTokenizer START_RECORD EmptyString [] (ls ++ rows))).
  { induction Hrows as [|fields rows [Hlen Hcr] _ IH]; intros ls.
    - cbn. rewrite app_nil_r. reflexivity.
    - cbn [writerows]. rewrite writerow_tokenizes by assumption.
      rewrite IH, <- app_assoc. reflexivity. }
  rewrite (Hgen []). reflexivity.
Qed.


(** The renderings of numbers hold no carriage return. *)

Lemma no_cr_app (a b : string) :
  has_char is_cr a = false -> has_char is_cr b = false ->
  has_char is_cr (a ++ b)%string = false.
Proof. intros Ha Hb. rewrite has_char_app, Ha, Hb. reflexivity. Qed.

Lemma no_cr_substring (s : string) (n m : nat) :
  has_char is_cr s = false -> has_char is_cr (substring n m s) = false.
Proof.
  revert n m. induction s as [|c s IH]; intros n m Hs.
  - destruct n, m; reflexivity.
  - cbn in Hs. apply orb_false_iff in Hs. destruct Hs as [Hc Hs].
    destruct n as [|n]; cbn.
    + destruct m as [|m]; cbn; [reflexivity|]. rewrite Hc. cbn. apply IH, Hs.
    + apply IH, Hs.
Qed.

Lemma no_cr_zeros (n : nat) : has_char is_cr (zeros n) = false.
Proof. induction n as [|n IH]; cbn; [reflexivity | exact IH]. Qed.

Lemma no_cr_string_of_uint (u : Decimal.uint) :
  has_char is_cr (NilEmpty.string_of_uint u) = false.
Proof. induction u; cbn; auto. Qed.

Lemma no_cr_string_of_Z (n : Z) : has_char is_cr (string_of_Z n) = false.
Proof.
  unfold string_of_Z, NilZero.string_of_uint.
  destruct (N.to_uint (Z.to_N n)); try reflexivity; apply no_cr_string_of_uint.
Qed.

Lemma no_cr_pad_zeros (w : nat) (s : string) :
  has_char is_cr s = false -> has_char is_cr (pad_zeros w s) = false.
Proof. intros Hs. apply no_cr_app; [apply no_cr_zeros | exact Hs]. Qed.

Lemma has_char_string_of_list (p : ascii -> bool) (l : list ascii) :
  has_char p (string_of_list_ascii l) = existsb p l.
Proof. induction l as [|c l IH]; cbn; [|rewrite IH]; reflexivity. Qed.

Lemma has_char_list_of_string (p : ascii -> bool) (s : string) :
  existsb p (list_ascii_of_string s) = has_char p s.
Proof. induction s as [|c s IH]; cbn; [|rewrite IH]; reflexivity. Qed.

Lemma existsb_strip_zeros_rev (p : ascii -> bool) (l : list ascii) :
  existsb p l = false -> existsb p (strip_zeros_rev l) = false.
Proof.
  induction l as [|c l IH]; [reflexivity|].
  intros Hl. cbn in Hl. apply orb_false_iff in Hl. destruct Hl as [Hc Hl].
  cbn. destruct (Ascii.eqb_spec c "0"%char) as [-> | Hne].
  - apply IH, Hl.
  - assert (Hs : strip_zeros_rev (c :: l) = c :: l).
    { destruct c as [[] [] [] [] [] [] [] []]; try reflexivity. congruence. }
    change (existsb p (strip_zeros_rev (c :: l)) = false).
    rewrite Hs. cbn. rewrite Hc, Hl. reflexivity.
Qed.

Lemma existsb_rev_false {A : Type} (p : A -> bool) (l : list A) :
  existsb p l = false -> existsb p (rev l) = false.
Proof.
  intros Hl. apply not_true_is_false. intros Hr.
  apply existsb_exists in Hr. destruct Hr as (x & Hx & Hp).
  apply in_rev in Hx.
  assert (existsb p l = true) by (apply existsb_exists; eauto). congruence.
Qed.

Lemma no_cr_strip_trailing_zeros (s : string) :
  has_char is_cr s = false -> has_char is_cr (strip_trailing_zeros s) = false.
Proof.
  intros Hs. unfold strip_trailing_zeros.
  rewrite has_char_string_of_list.
  apply existsb_rev_false, existsb_strip_zeros_rev, existsb_rev_false.
  rewrite has_char_list_of_string. exact Hs.
Qed.

Create HintDb no_cr discriminated.
#[local] Hint Resolve no_cr_app no_cr_zeros no_cr_string_of_Z no_cr_pad_zeros
  no_cr_substring : no_cr.

Lemma no_cr_repr_layout (ds : string) (decpt : Z) :
  has_char is_cr ds = false -> has_char is_cr (repr_layout ds decpt) = false.
Proof.
  intros Hds. unfold repr_layout.
  assert (Hmant : has_char is_cr
            match ds with
            | String d EmptyString => ds
            | String d rest => String d ("." ++ rest)
            | EmptyString => ds
            end = false).
  { destruct ds as [|d [|d' rest]]; exact Hds. }
  destruct ((decpt <=? -4)%Z || (16 <? decpt)%Z);
    [|destruct (decpt <=? 0)%Z; [|destruct (Z.of_nat (String.length ds) <=? decpt)%Z]];
    try destruct (decpt - 1 <? 0)%Z;
    repeat (apply no_cr_app; [solve [auto with no_cr | reflexivity]|]);
    solve [auto with no_cr | reflexivity].
Qed.

Lemma no_cr_float_repr (x : float) : has_char is_cr (float_repr x) = false.
Proof.
  destruct x as [[] | [] | | s m e]; try reflexivity.
  unfold float_repr.
  destruct (shortest_digits 16 m e (floor_log10 m e) 1) as [c q].
  apply no_cr_app; [destruct s; reflexivity|].
  apply no_cr_repr_layout, no_cr_strip_trailing_zeros, no_cr_string_of_Z.
Qed.

Lemma no_cr_float_cell (x : float) : has_char is_cr (float_cell x) = false.
Proof. unfold float_cell. destruct (is_nan x); [reflexivity | apply no_cr_float_repr]. Qed.

Lemma no_cr_num_cell (x : num) : has_char is_cr (num_cell x) = false.
Proof.
  destruct x as [z | f]; cbn; [|apply no_cr_float_cell].
  unfold int_repr. destruct (z <? 0)%Z; [apply no_cr_app; [reflexivity|]|];
    apply no_cr_string_of_Z.
Qed.

Lemma no_cr_row_fields (r : Row) :
  no_cr_row r -> 2 <= length (row_fields r) /\ no_cr_record (row_fields r).
Proof.
  intros (Ha & Hc & Ht). split; [cbn; lia|].
  unfold no_cr_record, row_fields.
  repeat first [apply Forall_nil_2 | apply Forall_cons_2];
    auto using no_cr_float_cell, no_cr_num_cell.
Qed.

(** C9 fails as stated.  The app named "2048" is alone in its view; the
    export writes its name as the field 2048, and reading the export back
    types the whole column as integers: the name comes back as the number
    2048, not as the text it was. *)
Lemma export_does_not_read_back_equal :
  df_filtered example_df (with_category "CatB" all_rows)
    = [example_row "2048" "CatB" "Free" (of_int 4) 2000] /\
  to_csv (df_filtered example_df (with_category "CatB" all_rows)) =
    ("App,Category,Type,Rating,Reviews,Installs_Clean,Price_Clean,Size_MB," ++
     "sentiment_polarity_mean,positive_percentage,negative_percentage" ++
     String LF ("2048,CatB,Free,4.0,2000,1000000,0.0,12.0,0.25,75.0,25.0" ++
     String LF EmptyString))%string /\
  (exists cols,
     read_csv (to_csv (df_filtered example_df (with_category "CatB" all_rows))) = Some cols /\
     cols !! 0 = Some ("App", ColInt [2048%Z]) /\
     typed_columns (df_filtered example_df (with_category "CatB" all_rows)) !! 0
       = Some ("App", ColObject [Some "2048"])) /\
  read_csv (to_csv (df_filtered example_df (with_category "CatB" all_rows))) <>
  Some (typed_columns (df_filtered example_df (with_category "CatB" all_rows))).
Proof.
  split; [vm_compute; reflexivity|].
  split; [vm_compute; reflexivity|].
  split.
  - eexists. split; [vm_compute; reflexivity|]. split; vm_compute; reflexivity.
  - intros Heq.
    apply (f_equal (fun o => match o with Some (c :: _) => Some c | _ => None end)) in Heq.
    vm_compute in Heq. discriminate.
Qed.

(** C9, amended. For a view whose text cells hold no carriage return, the
    export read back by the tokenizer is again the header (the eleven
    column names, no index column) followed by one record per row of the
    view, in order, each holding the text of the row's cells.  The types of
    the cells are not part of the export and may come back different. *)
Theorem export_reads_back_as_text (v : DataFrame) :
  Forall no_cr_row v ->
  tokenize (to_csv v) = Some (header :: map row_fields v).
Proof.
  intros Hv. unfold to_csv. apply writerows_tokenize.
  apply Forall_cons_2.
  - split; [cbn; lia|]. unfold no_cr_record, header.
    repeat first [apply Forall_nil_2 | apply Forall_cons_2]; reflexivity.
  - apply Forall_fmap. eapply Forall_impl; [exact Hv|].
    intros r Hr. apply no_cr_row_fields. exact Hr.
Qed.

Lemma export_reads_back_as_text_witness :
  Forall no_cr_row example_df /\
  tokenize (to_csv example_df) = Some (header :: map row_fields example_df).
Proof.
  assert (H : Forall no_cr_row example_df).
  { unfold example_df.
    repeat first [apply Forall_nil_2 | apply Forall_cons_2];
      repeat split; reflexivity. }
  split; [exact H|].
  exact (export_reads_back_as_text example_df H).
Defined.

(** * The filter as a predicate on rows *)

Lemma row_passes_spec (c : FilterCriteria) (r : Row) :
  row_passes c r = true <->
  (selected_category c = "All Categories" \/ Category r = Some (selected_category c)) /\
  (selected_type c = "All Types" \/ Type_ r = Some (selected_type c)) /\
  geb (Rating r) (min_rating c) = true /\
  num_ge (Reviews r) (min_reviews c) = true.
Proof.
  unfold row_passes. rewrite !andb_true_iff, !orb_true_iff, !String.eqb_eq.
  assert (Heq : forall cell s, eq_str cell s = true <-> cell = Some s).
  { intros [t|] s; cbn; [rewrite String.eqb_eq|]; split; congruence. }
  rewrite !Heq. tauto.
Qed.

(** X4. A row is shown exactly when it is a row of the dataset that meets
    all four controls: the selected category (or the entry for all of them),
    the selected type (or the entry for all of them), a rating of at least
    the minimum and a review count of at least the minimum. *)
Theorem filtered_view_rows_meet_criteria (df : DataFrame) (c : FilterCriteria) (r : Row) :
  r ∈ df_filtered df c <->
  r ∈ df /\
  (selected_category c = "All Categories" \/ Category r = Some (selected_category c)) /\
  (selected_type c = "All Types" \/ Type_ r = Some (selected_type c)) /\
  geb (Rating r) (min_rating c) = true /\
  num_ge (Reviews r) (min_reviews c) = true.
Proof.
  rewrite df_filtered_filter, !list_elem_of_In, filter_In, row_passes_spec.
  reflexivity.
Qed.

Lemma filter_idem {A : Type} (f : A -> bool) (l : list A) :
  List.filter f (List.filter f l) = List.filter f l.
Proof.
  rewrite filter_filter_andb. apply filter_ext. intros x. destruct (f x); reflexivity.
Qed.

(** X5. Applying the controls to an already filtered view changes nothing. *)
Theorem filtering_twice_changes_nothing (df : DataFrame) (c : FilterCriteria) :
  df_filtered (df_filtered df c) c = df_filtered df c.
Proof. rewrite !df_filtered_filter. apply filter_idem. Qed.

(** X6. Two settings of the controls applied one after the other give the
    same view in either order. *)
Theorem filters_commute (df : DataFrame) (c1 c2 : FilterCriteria) :
  df_filtered (df_filtered df c1) c2 = df_filtered (df_filtered df c2) c1.
Proof.
  rewrite !df_filtered_filter, !filter_filter_andb.
  apply filter_ext. intros r. apply andb_comm.
Qed.

(** * Deltas of the key metrics *)

Lemma filter_length_eq {A : Type} (f : A -> bool) (l : list A) :
  length (List.filter f l) = length l -> List.filter f l = l.
Proof.
  induction l as [|x l IH]; [reflexivity|].
  cbn. destruct (f x); cbn; intros Hlen.
  - f_equal. apply IH. lia.
  - pose proof (filter_length_le f (fun _ => true) l (fun _ _ => eq_refl)) as Hle.
    rewrite filter_true in Hle. lia.
Qed.

Lemma df_filtered_length (df : DataFrame) (c : FilterCriteria) :
  length (df_filtered df c) <= length df.
Proof.
  rewrite df_filtered_filter.
  pose proof (filter_length_le (row_passes c) (fun _ => true) df (fun _ _ => eq_refl)) as Hle.
  rewrite filter_true in Hle. exact Hle.
Qed.

(** X7. The average-rating metric shows no delta exactly when the controls
    hide no row, that is, when the filtered view is the whole dataset. *)
Theorem rating_delta_shown_iff_rows_hidden (df : DataFrame) (c : FilterCriteria) :
  delta (metric_avg_rating df (df_filtered df c)) = None <-> df_filtered df c = df.
Proof.
  unfold metric_avg_rating. cbn [delta].
  destruct (length (df_filtered df c) <? length df)%nat eqn:Hlt.
  - apply Nat.ltb_lt in Hlt. split; [discriminate|].
    intros Heq. rewrite Heq in Hlt. lia.
  - apply Nat.ltb_ge in Hlt. split; [intros _|reflexivity].
    pose proof (df_filtered_length df c) as Hle.
    rewrite df_filtered_filter in *. apply filter_length_eq. lia.
Qed.

(** X8. The delta of the Total Apps metric is shown only when a category is
    selected, whatever the other controls hide; it is then the number of
    hidden rows with a minus sign, or 0 when none is hidden, never a
    positive number. *)
Theorem total_apps_delta_counts_hidden_rows (df : DataFrame) (c : FilterCriteria) :
  length (df_filtered df c) + (length df - length (df_filtered df c)) = length df /\
  delta (metric_total_apps c df (df_filtered df c)) =
    if String.eqb (selected_category c) "All Categories" then None
    else Some (if (length df - length (df_filtered df c) =? 0)%nat then "0"
               else ("-" ++ string_of_Z (Z.of_nat (length df - length (df_filtered df c))))%string).
Proof.
  pose proof (df_filtered_length df c) as Hle.
  split; [lia|].
  unfold metric_total_apps. cbn [delta].
  destruct (String.eqb (selected_category c) "All Categories"); [reflexivity|].
  cbn [negb]. f_equal. unfold int_repr.
  destruct (length df - length (df_filtered df c) =? 0)%nat eqn:Hz.
  - apply Nat.eqb_eq in Hz.
    replace (Z.of_nat (length (df_filtered df c)) - Z.of_nat (length df))%Z with 0%Z by lia.
    reflexivity.
  - apply Nat.eqb_neq in Hz.
    destruct (Z.ltb_spec (Z.of_nat (length (df_filtered df c)) - Z.of_nat (length df)) 0);
      [|lia].
    do 2 f_equal. lia.
Qed.

(** * The scatter sample of a small view *)

Section SmallSample.
Context {G : Type} `{RandomState G}.

(** X9. When the filtered view has at most 1000 rows, the scatter plot gets
    every row of it exactly once, in an order set by the generator. *)
Theorem small_views_are_plotted_whole (g : G) (df : DataFrame) (c : FilterCriteria)
    (search_query : string) :
  length (df_filtered df c) <= 1000 ->
  scatter_input (fst (dashboard g df c search_query)) ≡ₚ df_filtered df c.
Proof.
  intros Hsmall. unfold dashboard.
  pose proof (sample_rows g (Nat.min 1000 (length (df_filtered df c))) (df_filtered df c))
    as [Hsub Hlen].
  fold (sample_df g (df_filtered df c)) in Hsub, Hlen.
  destruct (sample_df g (df_filtered df c)) as [s g'].
  cbn [fst scatter_input] in *.
  apply submseteq_length_Permutation; [exact Hsub|].
  rewrite Hlen, (Nat.min_r _ _ Hsmall), Nat.min_id. reflexivity.
Qed.

End SmallSample.

Lemma small_views_are_plotted_whole_witness :
  length (df_filtered example_df all_rows) <= 1000 /\
  scatter_input (fst (dashboard [0; 0] example_df all_rows "")) ≡ₚ
    df_filtered example_df all_rows.
Proof.
  assert (Hsmall : length (df_filtered example_df all_rows) <= 1000).
  { apply Nat.leb_le. vm_compute. reflexivity. }
  split; [exact Hsmall|].
  apply (small_views_are_plotted_whole [0; 0] example_df all_rows "" Hsmall).
Defined.

(** * Sentiment metrics without data *)

Lemma mean_all_nan (xs : list float) :
  Forall (fun x => is_nan x = true) xs -> mean xs = nan.
Proof.
  intros Hall. unfold mean.
  assert (Hcount : count_true (map (fun x => negb (is_nan x)) xs) = 0).
  { induction Hall as [|x xs Hx _ IH]; [reflexivity|].
    cbn [map]. rewrite Hx. cbn [negb]. rewrite count_true_cons. exact IH. }
  rewrite Hcount. reflexivity.
Qed.

(** X10. When no row of the view carries sentiment figures (all three are
    missing in every row; the empty view is one such view), the sentiment
    metrics show nan, nan% and nan%, and the average sentiment is labelled
    Negative. *)
Theorem no_sentiment_data_reads_negative (v : DataFrame) :
  Forall (fun r => is_nan (sentiment_polarity_mean r) = true /\
                   is_nan (positive_percentage r) = true /\
                   is_nan (negative_percentage r) = true) v ->
  metric_avg_sentiment v = mkMetric "Average Sentiment" "nan" (Some "Negative") /\
  metric_positive_reviews v = mkMetric "Positive Reviews" "nan%" None /\
  metric_negative_reviews v = mkMetric "Negative Reviews" "nan%" None.
Proof.
  intros Hall.
  assert (Hmean : forall col : Row -> float,
             Forall (fun r => is_nan (col r) = true) v -> mean (map col v) = nan).
  { intros col Hcol. apply mean_all_nan. apply Forall_map. exact Hcol. }
  unfold metric_avg_sentiment, metric_positive_reviews, metric_negative_reviews,
    avg_polarity, avg_positive, avg_negative.
  rewrite !Hmean; [repeat split | | |];
    (eapply Forall_impl; [exact Hall|]; cbn; tauto).
Qed.

Lemma no_sentiment_data_reads_negative_witness :
  Forall (fun r => is_nan (sentiment_polarity_mean r) = true /\
                   is_nan (positive_percentage r) = true /\
                   is_nan (negative_percentage r) = true) [unrated_row; untyped_row] /\
  metric_avg_sentiment [unrated_row; untyped_row]
    = mkMetric "Average Sentiment" "nan" (Some "Negative").
Proof.
  assert (Hall : Forall (fun r => is_nan (sentiment_polarity_mean r) = true /\
                   is_nan (positive_percentage r) = true /\
                   is_nan (negative_percentage r) = true) [unrated_row; untyped_row]).
  { repeat first [apply Forall_nil_2 | apply Forall_cons_2]; repeat split; reflexivity. }
  split; [exact Hall|].
  apply (no_sentiment_data_reads_negative [unrated_row; untyped_row] Hall).
Defined.

(** * Descending sorts and their first rows *)

Section SortDesc.
Context {A : Type} (ge : A -> A -> bool).

Lemma insert_desc_Permutation (x : A) (l : list A) : insert_desc ge x l ≡ₚ x :: l.
Proof.
  induction l as [|y l IH]; cbn; [reflexivity|].
  destruct (ge x y); [reflexivity|].
  rewrite IH. apply perm_swap.
Qed.

Lemma sort_desc_Permutation (l : list A) : sort_desc ge l ≡ₚ l.
Proof.
  induction l as [|x l IH]; cbn; [reflexivity|].
  rewrite insert_desc_Permutation, IH. reflexivity.
Qed.

Hypothesis ge_total : forall a b, ge a b = true \/ ge b a = true.
Hypothesis ge_trans : forall a b c, ge a b = true -> ge b c = true -> ge a c = true.

Lemma insert_desc_sorted (x : A) (l : list A) :
  StronglySorted (fun a b => ge a b = true) l ->
  StronglySorted (fun a b => ge a b = true) (insert_desc ge x l).
Proof.
  induction 1 as [|y l Hl IH Hy]; cbn.
  - repeat constructor.
  - destruct (ge x y) eqn:Hxy.
    + constructor; [constructor; assumption|].
      constructor; [exact Hxy|].
      eapply Forall_impl; [exact Hy|]. cbn. intros z Hz. eauto.
    + constructor; [exact IH|].
      rewrite insert_desc_Permutation. constructor; [|exact Hy].
      destruct (ge_total x y) as [H|H]; [congruence|exact H].
Qed.

Lemma sort_desc_sorted (l : list A) :
  StronglySorted (fun a b => ge a b = true) (sort_desc ge l).
Proof.
  induction l as [|x l IH]; cbn; [constructor|].
  apply insert_desc_sorted, IH.
Qed.

(** The first [n] rows of the sorted table are [n] best rows of the table. *)
Lemma take_sort_desc_best (n : nat) (l : list A) :
  best_rows ge n l (take n (sort_desc ge l)).
Proof.
  pose proof (sort_desc_sorted l) as Hs.
  pose proof (sort_desc_Permutation l) as Hp.
  rewrite <- (take_drop n (sort_desc ge l)) in Hs, Hp.
  repeat split.
  - rewrite length_take, (Permutation_length (sort_desc_Permutation l)). reflexivity.
  - eapply StronglySorted_app_1_l; exact Hs.
  - exists (drop n (sort_desc ge l)). split; [exact Hp|].
    intros a b Ha Hb. eapply (StronglySorted_app_1_elem_of _ _ _ a b Hs); assumption.
Qed.

End SortDesc.

(** ** The orders that the script sorts by *)

Lemma float_ltb_leb (a b : float) : ltb a b = true -> leb a b = true.
Proof.
  rewrite float_ltb_rank, float_leb_rank. unfold rank_rel.
  destruct (rank a) as [[[c1 e1] m1]|], (rank b) as [[[c2 e2] m2]|];
    cbn [rank_lt]; try tauto; lia.
Qed.

Lemma float_leb_total (a b : float) :
  is_nan a = false -> is_nan b = false -> leb a b = true \/ leb b a = true.
Proof.
  intros Ha Hb. rewrite (float_leb_negb_ltb a b Ha Hb).
  destruct (ltb b a) eqn:Hlt; [right; apply float_ltb_leb; exact Hlt | left; reflexivity].
Qed.

Lemma float_leb_not_nan (a b : float) :
  leb a b = true -> is_nan a = false /\ is_nan b = false.
Proof.
  destruct a as [[] | [] | | [] m1 e1], b as [[] | [] | | [] m2 e2];
    cbn; intros H; try discriminate H; split; reflexivity.
Qed.

Lemma ge_nan_last_total (a b : float) :
  ge_nan_last a b = true \/ ge_nan_last b a = true.
Proof.
  unfold ge_nan_last, geb.
  destruct (is_nan b) eqn:Hb; [left; reflexivity|].
  destruct (is_nan a) eqn:Ha; [right; reflexivity|].
  cbn [orb]. destruct (float_leb_total a b Ha Hb); auto.
Qed.

Lemma ge_nan_last_trans (a b c : float) :
  ge_nan_last a b = true -> ge_nan_last b c = true -> ge_nan_last a c = true.
Proof.
  unfold ge_nan_last, geb.
  destruct (is_nan c) eqn:Hc; [reflexivity|]. cbn [orb].
  intros Hab Hbc. destruct (float_leb_not_nan _ _ Hbc) as [_ Hb].
  rewrite Hb in Hab. cbn [orb] in Hab.
  eapply float_leb_trans; eassumption.
Qed.

Lemma column_ge_total (cells : list num) (a b : num) :
  column_ge cells a b = true \/ column_ge cells b a = true.
Proof.
  unfold column_ge. destruct (all_int64 cells).
  - rewrite !Z.leb_le. lia.
  - apply ge_nan_last_total.
Qed.

Lemma column_ge_trans (cells : list num) (a b c : num) :
  column_ge cells a b = true -> column_ge cells b c = true -> column_ge cells a c = true.
Proof.
  unfold column_ge. destruct (all_int64 cells).
  - rewrite !Z.leb_le. lia.
  - apply ge_nan_last_trans.
Qed.

(** * Top performers *)

(** X11. The table of the highest rated apps holds ten rows of the view
    (all of them if the view has fewer), in descending order of rating with
    the unrated rows last, and no row left out has a higher rating than a
    row shown. *)
Theorem top_rated_rows_are_the_best (v : DataFrame) :
  exists top : DataFrame,
    top_rated v = map (fun r => (App r, Category r, Rating r, Reviews r, Type_ r)) top /\
    best_rows (fun a b => ge_nan_last (Rating a) (Rating b)) 10 v top.
Proof.
  exists (nlargest 10 Rating v). split; [reflexivity|].
  apply take_sort_desc_best.
  - intros a b. apply ge_nan_last_total.
  - intros a b c. apply ge_nan_last_trans.
Qed.

(** X12. The tables of the most installed and of the most reviewed apps
    each hold ten rows of the view (all of them if the view has fewer), in
    descending order of the install count, respectively the review count,
    and no row left out has a larger count than a row shown.  The counts
    are compared exactly when the column is int64, and as floats with the
    missing ones last when it is float64. *)
Theorem most_installed_and_reviewed_rows_are_the_best (v : DataFrame) :
  (exists top : DataFrame,
     top_installs v =
       map (fun r => (App r, Category r, Rating r, Installs_Clean r, Type_ r)) top /\
     best_rows (fun a b => column_ge (map Installs_Clean v)
                             (Installs_Clean a) (Installs_Clean b)) 10 v top) /\
  (exists top : DataFrame,
     top_reviews v =
       map (fun r => (App r, Category r, Rating r, Reviews r, Type_ r)) top /\
     best_rows (fun a b => column_ge (map Reviews v) (Reviews a) (Reviews b)) 10 v top).
Proof.
  split.
  - exists (nlargest_num 10 Installs_Clean v). split; [reflexivity|].
    apply take_sort_desc_best.
    + intros a b. apply column_ge_total.
    + intros a b c. apply column_ge_trans.
  - exists (nlargest_num 10 Reviews v). split; [reflexivity|].
    apply take_sort_desc_best.
    + intros a b. apply column_ge_total.
    + intros a b c. apply column_ge_trans.
Qed.

(** * The category entries of the sidebar *)

Lemma ascii_compare_N (a b : ascii) :
  Ascii.compare a b = N.compare (N_of_ascii a) (N_of_ascii b).
Proof. reflexivity. Qed.

Lemma string_compare_trans (a b c : string) :
  String.compare a b <> Gt -> String.compare b c <> Gt -> String.compare a c <> Gt.
Proof.
  revert b c. induction a as [|x a IH]; intros [|y b] [|z c]; cbn; try congruence.
  rewrite !ascii_compare_N.
  destruct (N.compare_spec (N_of_ascii x) (N_of_ascii y)) as [Hxy|Hxy|Hxy];
    destruct (N.compare_spec (N_of_ascii y) (N_of_ascii z)) as [Hyz|Hyz|Hyz];
    destruct (N.compare_spec (N_of_ascii x) (N_of_ascii z)) as [Hxz|Hxz|Hxz];
    try congruence; try lia.
  apply IH.
Qed.

#[local] Instance string_le_trans : Transitive string_le.
Proof.
  intros a b c. unfold string_le, String.leb.
  pose proof (string_compare_trans a b c) as Ht.
  destruct (String.compare a b), (String.compare b c), (String.compare a c);
    try congruence; intros; exfalso; apply Ht; congruence.
Qed.

#[local] Instance string_le_total : Total string_le.
Proof. intros a b. apply String.leb_total. Qed.

(** X13. The category select box offers the entry for all categories first
    and then every category that occurs in the dataset, each once, in
    ascending order; a row without a category adds no entry. *)
Theorem category_entries_are_sorted_and_complete (df : DataFrame) :
  exists ks : list string,
    categories df = "All Categories" :: ks /\
    StronglySorted string_le ks /\
    NoDup ks /\
    forall k : string, k ∈ ks <-> exists r : Row, r ∈ df /\ Category r = Some k.
Proof.
  exists (merge_sort string_le (remove_dups (present (map Category df)))).
  split; [reflexivity|]. split; [|split].
  - apply StronglySorted_merge_sort; typeclasses eauto.
  - rewrite merge_sort_Permutation. apply NoDup_remove_dups.
  - intros k. rewrite merge_sort_Permutation, elem_of_remove_dups, elem_of_present.
    rewrite list_elem_of_fmap. split.
    + intros (r & Hk & Hr). eauto.
    + intros (r & Hr & Hk). eauto.
Qed.

(** * The category charts *)

Lemma existsb_eqb_elem_of (x : string) (l : list string) :
  existsb (String.eqb x) l = true <-> x ∈ l.
Proof.
  rewrite existsb_exists, list_elem_of_In. split.
  - intros (y & Hy & Heq). apply String.eqb_eq in Heq. congruence.
  - intros Hx. exists x. split; [exact Hx | apply String.eqb_refl].
Qed.

Lemma elem_of_unique_from (seen l : list string) (x : string) :
  x ∈ unique_from seen l <-> x ∈ l /\ x ∉ seen.
Proof.
  revert seen. induction l as [|y l IH]; intros seen; cbn.
  - split; [intros H; inversion H | intros [H _]; inversion H].
  - destruct (existsb (String.eqb y) seen) eqn:Hy.
    + apply existsb_eqb_elem_of in Hy. rewrite IH, elem_of_cons.
      split; [tauto|]. intros [[-> | Hx] Hn]; [contradiction | tauto].
    + assert (Hn : y ∉ seen).
      { intros Hin. apply existsb_eqb_elem_of in Hin. congruence. }
      rewrite !elem_of_cons, IH, elem_of_cons.
      destruct (String.string_dec x y) as [-> | Hne]; tauto.
Qed.

Lemma NoDup_unique_from (seen l : list string) : NoDup (unique_from seen l).
Proof.
  revert seen. induction l as [|y l IH]; intros seen; cbn; [constructor|].
  destruct (existsb (String.eqb y) seen); [apply IH|].
  constructor; [|apply IH].
  rewrite elem_of_unique_from, elem_of_cons. tauto.
Qed.

Lemma unique_group_keys (v : DataFrame) :
  unique (present (map Category v)) ≡ₚ group_keys v.
Proof.
  unfold group_keys. rewrite merge_sort_Permutation.
  apply NoDup_Permutation.
  - apply NoDup_unique_from.
  - apply NoDup_remove_dups.
  - intros k. unfold unique. rewrite elem_of_unique_from, elem_of_remove_dups.
    split; [tauto|]. intros Hk. split; [exact Hk|]. intros Hin. inversion Hin.
Qed.

Lemma boolean_index_length {A : Type} (f : A -> bool) (l : list A) :
  length (boolean_index l (map f l)) = count_true (map f l).
Proof.
  induction l as [|x l IH]; [reflexivity|].
  cbn [map boolean_index]. rewrite count_true_cons.
  destruct (f x); cbn [length]; rewrite IH; reflexivity.
Qed.

Lemma best_rows_Permutation {A : Type} (ge : A -> A -> bool) (n : nat)
    (rows rows' top : list A) :
  rows ≡ₚ rows' -> best_rows ge n rows top -> best_rows ge n rows' top.
Proof.
  intros Hp (Hlen & Hs & rest & Hrest & Hdom).
  repeat split.
  - rewrite Hlen, (Permutation_length Hp). reflexivity.
  - exact Hs.
  - exists rest. split; [rewrite Hrest; exact Hp | exact Hdom].
Qed.

(** X14. The chart of the top categories shows ten categories of the view
    (all of them if there are fewer), each with the number of its rows,
    largest first, and no category left out has more rows than one shown;
    rows without a category are in no bar. *)
Theorem category_counts_are_the_largest_groups (v : DataFrame) :
  best_rows (fun a b => (snd b <=? snd a)%nat) 10
    (map (fun k => (k, length (group_rows k v))) (group_keys v))
    (category_counts v).
Proof.
  unfold category_counts, value_counts.
  eapply best_rows_Permutation;
    [|apply take_sort_desc_best;
      [intros a b; rewrite !Nat.leb_le; lia
      |intros a b c; rewrite !Nat.leb_le; lia]].
  rewrite (map_ext _ (fun k => (k, length (group_rows k v)))).
  - apply (fmap_Permutation (fun k => (k, length (group_rows k v)))).
    apply unique_group_keys.
  - intros k. f_equal. unfold group_rows.
    rewrite boolean_index_length, map_map. reflexivity.
Qed.

(** X15. The chart of the average rating by category and the sentiment
    chart each show ten categories of the view (all of them if there are
    fewer) with the means over the rows of the category, in descending
    order of the mean rating, respectively of the mean positive share, a
    category without any value last; no category left out ranks above one
    shown. *)
Theorem category_charts_show_the_best_ten (v : DataFrame) :
  best_rows (fun a b => ge_nan_last (snd a) (snd b)) 10
    (map (fun k => (k, mean (map Rating (group_rows k v)))) (group_keys v))
    (category_ratings v) /\
  best_rows (fun a b => ge_nan_last (positive_mean a) (positive_mean b)) 10
    (map (fun k => mkSentimentRow k
                     (mean (map positive_percentage (group_rows k v)))
                     (mean (map negative_percentage (group_rows k v))))
         (group_keys v))
    (sentiment_by_category v).
Proof.
  split; apply take_sort_desc_best;
    first [intros a b; apply ge_nan_last_total | intros a b c; apply ge_nan_last_trans].
Qed.

(** * Order of the category summary *)

Lemma insert_by_count_desc (s : CategorySummary) (l : list CategorySummary) :
  insert_by_count s l = insert_desc (fun a b => (App_Count b <=? App_Count a)%nat) s l.
Proof. induction l as [|x l IH]; cbn; [|rewrite IH]; reflexivity. Qed.

Lemma sort_by_count_desc (l : list CategorySummary) :
  sort_by_count l = sort_desc (fun a b => (App_Count b <=? App_Count a)%nat) l.
Proof.
  induction l as [|x l IH]; cbn; [reflexivity|].
  fold (sort_by_count l). rewrite IH. apply insert_by_count_desc.
Qed.

Lemma StronglySorted_weaken {A : Type} (R R' : A -> A -> Prop) (l : list A) :
  (forall a b, R a b -> R' a b) -> StronglySorted R l -> StronglySorted R' l.
Proof.
  intros Himp. induction 1 as [|x l _ IH Hx]; constructor; [exact IH|].
  eapply Forall_impl; [exact Hx|]. cbn. auto.
Qed.

(** X16. The category summary has one row for every category that occurs
    in the view and no other row; each row holds the figures of the rows of
    its category; and the rows are in descending order of the app count. *)
Theorem category_summary_rows_are_sorted_groups (v : DataFrame) :
  map summary_category (category_summary v) ≡ₚ group_keys v /\
  (forall s : CategorySummary, s ∈ category_summary v ->
     s = summary_of_group (summary_category s) (group_rows (summary_category s) v)) /\
  StronglySorted (fun a b => App_Count b <= App_Count a) (category_summary v).
Proof.
  unfold category_summary.
  pose proof (sort_by_count_Permutation
                (map (fun k => summary_of_group k (group_rows k v)) (group_keys v))) as Hp.
  split; [|split].
  - rewrite (fmap_Permutation summary_category _ _ Hp).
    change (fmap summary_category) with (map summary_category).
    rewrite map_map. cbn. rewrite map_id. reflexivity.
  - intros s Hs. rewrite Hp in Hs.
    apply list_elem_of_fmap in Hs. destruct Hs as (k & -> & _). reflexivity.
  - rewrite sort_by_count_desc.
    eapply StronglySorted_weaken; [|apply sort_desc_sorted].
    + intros a b Hab. cbn in Hab. apply Nat.leb_le. exact Hab.
    + intros a b. rewrite !Nat.leb_le. lia.
    + intros a b c. rewrite !Nat.leb_le. lia.
Qed.

(** * The category tables under a selected category *)

Lemma boolean_index_all {A : Type} (f : A -> bool) (l : list A) :
  Forall (fun x => f x = true) l -> boolean_index l (map f l) = l.
Proof.
  induction 1 as [|x l Hx _ IH]; [reflexivity|].
  cbn [map boolean_index]. rewrite Hx, IH. reflexivity.
Qed.

Lemma single_key (k : string) (ks : list string) :
  NoDup ks -> (forall x, x ∈ ks -> x = k) -> ks = [] \/ ks = [k].
Proof.
  intros Hnd Hall. destruct ks as [|a [|b ks]]; [left; reflexivity | right | exfalso].
  - f_equal. apply Hall. left.
  - assert (a = k) by (apply Hall; left).
    assert (b = k) by (apply Hall; right; left).
    subst. apply NoDup_cons in Hnd. destruct Hnd as [Hnd _]. apply Hnd. left.
Qed.

Lemma one_category_keys (k : string) (v : DataFrame) :
  Forall (fun r => Category r = Some k) v ->
  (v = [] /\ group_keys v = [] /\ unique (present (map Category v)) = []) \/
  (v <> [] /\ group_keys v = [k] /\ unique (present (map Category v)) = [k]).
Proof.
  intros Hall. destruct v as [|r v].
  - left. repeat split; reflexivity.
  - right. split; [discriminate|].
    assert (Hin : k ∈ group_keys (r :: v)).
    { unfold group_keys. rewrite merge_sort_Permutation.
      apply (present_categories_are_keys (r :: v) r k); [left|].
      inversion Hall; assumption. }
    assert (Hkeys : forall x, x ∈ group_keys (r :: v) -> x = k).
    { intros x. unfold group_keys.
      rewrite merge_sort_Permutation, elem_of_remove_dups, elem_of_present.
      rewrite list_elem_of_fmap. intros (r' & Hx & Hr').
      rewrite Forall_forall in Hall. rewrite (Hall r' Hr') in Hx. congruence. }
    assert (Hnd : NoDup (group_keys (r :: v))).
    { unfold group_keys. rewrite merge_sort_Permutation. apply NoDup_remove_dups. }
    destruct (single_key k _ Hnd Hkeys) as [Hk | Hk];
      [rewrite Hk in Hin; inversion Hin|].
    split; [exact Hk|].
    pose proof (unique_group_keys (r :: v)) as Hp. rewrite Hk in Hp.
    apply Permutation_singleton_r in Hp. exact Hp.
Qed.

(** X17. With a category selected, the category tables have a single
    entry: if the view is empty the summary and the chart of the top
    categories are empty, and otherwise each has exactly one row, that of
    the selected category, with the figures of the whole view. *)
Theorem a_selected_category_leaves_one_group (df : DataFrame) (c : FilterCriteria) :
  selected_category c <> "All Categories" ->
  (df_filtered df c = [] /\
   category_summary (df_filtered df c) = [] /\
   category_counts (df_filtered df c) = []) \/
  (df_filtered df c <> [] /\
   category_summary (df_filtered df c) =
     [summary_of_group (selected_category c) (df_filtered df c)] /\
   category_counts (df_filtered df c) =
     [(selected_category c, length (df_filtered df c))]).
Proof.
  intros Hsel.
  assert (Hall : Forall (fun r => Category r = Some (selected_category c))
                        (df_filtered df c)).
  { apply Forall_forall. intros r Hr.
    rewrite df_filtered_filter, list_elem_of_In, filter_In, row_passes_spec in Hr.
    destruct Hr as (_ & [Hc | Hc] & _); [contradiction | exact Hc]. }
  assert (Hrows : group_rows (selected_category c) (df_filtered df c) = df_filtered df c).
  { unfold group_rows. apply boolean_index_all.
    eapply Forall_impl; [exact Hall|]. cbn. intros r ->. cbn. apply String.eqb_refl. }
  destruct (one_category_keys _ _ Hall) as [(Hv & Hk & Hu) | (Hv & Hk & Hu)].
  - left. rewrite Hv. repeat split; reflexivity.
  - right. split; [exact Hv|]. split.
    + unfold category_summary. rewrite Hk. cbn [map sort_by_count foldr insert_by_count].
      rewrite Hrows. reflexivity.
    + unfold category_counts, value_counts. rewrite Hu.
      cbn [map sort_desc foldr insert_desc take]. do 2 f_equal.
      rewrite <- Hrows at 2. unfold group_rows.
      rewrite boolean_index_length, map_map. reflexivity.
Qed.

Lemma a_selected_category_leaves_one_group_witness :
  selected_category (with_category "CatA" all_rows) <> "All Categories" /\
  category_counts (df_filtered example_df (with_category "CatA" all_rows)) = [("CatA", 2)].
Proof.
  assert (Hsel : selected_category (with_category "CatA" all_rows) <> "All Categories")
    by discriminate.
  split; [exact Hsel|].
  destruct (a_selected_category_leaves_one_group example_df _ Hsel)
    as [(Hv & _) | (_ & _ & Hc)].
  - vm_compute in Hv. discriminate Hv.
  - rewrite Hc. vm_compute. reflexivity.
Defined.

(** * Binning on ascending edges *)

Lemma increasing_nth (bins : list float) (i j : nat) :
  increasing bins -> i < j < length bins ->
  ltb (nth i bins nan) (nth j bins nan) = true.
Proof.
  intros Hinc. revert i j. induction Hinc as [|b bins _ IH Hb]; intros i j Hij.
  - cbn in Hij. lia.
  - destruct j as [|j]; [lia|]. cbn [length] in Hij. destruct i as [|i]; cbn [nth].
    + rewrite Forall_forall in Hb. apply Hb.
      apply list_elem_of_In, nth_In. lia.
    + apply IH. lia.
Qed.

Lemma np_lt_number (a key : float) : is_nan key = false -> np_lt a key = ltb a key.
Proof. intros Hk. unfold np_lt. rewrite Hk. apply orb_false_r. Qed.

(** The binary search returns the number of edges below the key. *)
Lemma binsearch_left_spec (arr : list float) (key : float) :
  increasing arr -> is_nan key = false ->
  forall fuel lo hi : nat,
    hi - lo < fuel -> lo <= hi <= length arr ->
    (forall i, i < lo -> ltb (nth i arr nan) key = true) ->
    (forall i, hi <= i < length arr -> ltb (nth i arr nan) key = false) ->
    lo <= binsearch_left fuel arr key lo hi <= hi /\
    (forall i, i < binsearch_left fuel arr key lo hi -> ltb (nth i arr nan) key = true) /\
    (forall i, binsearch_left fuel arr key lo hi <= i < length arr ->
               ltb (nth i arr nan) key = false).
Proof.
  intros Hinc Hkey. induction fuel as [|fuel IH]; intros lo hi Hfuel Hrange Hlo Hhi;
    [lia|].
  cbn [binsearch_left].
  destruct (lo <? hi)%nat eqn:Hlt.
  2:{ apply Nat.ltb_ge in Hlt. assert (lo = hi) by lia. subst hi.
      repeat split; [lia | lia | exact Hlo | exact Hhi]. }
  apply Nat.ltb_lt in Hlt.
  assert (Hhalf : (hi - lo) / 2 < hi - lo) by (apply Nat.div_lt; lia).
  set (mid := lo + (hi - lo) / 2) in *.
  assert (Hmid : lo <= mid < hi) by (unfold mid; lia).
  rewrite (np_lt_number _ _ Hkey).
  destruct (ltb (nth mid arr nan) key) eqn:Hcmp.
  - destruct (IH (S mid) hi) as (Hr & Hbelow & Habove); try lia.
    + intros i Hi. destruct (Nat.eq_dec i mid) as [-> | Hne]; [exact Hcmp|].
      eapply float_ltb_trans; [|exact Hcmp].
      apply increasing_nth; [exact Hinc | lia].
    + exact Hhi.
    + repeat split; [lia | lia | exact Hbelow | exact Habove].
  - destruct (IH lo mid) as (Hr & Hbelow & Habove); try lia.
    + exact Hlo.
    + intros i Hi. destruct (Nat.eq_dec i mid) as [-> | Hne]; [exact Hcmp|].
      destruct (ltb (nth i arr nan) key) eqn:Hi'; [|reflexivity].
      rewrite <- Hcmp. symmetry.
      eapply float_ltb_trans; [|exact Hi'].
      apply increasing_nth; [exact Hinc | lia].
    + repeat split; [lia | lia | exact Hbelow | exact Habove].
Qed.

Lemma searchsorted_left_spec (arr : list float) (key : float) :
  increasing arr -> is_nan key = false ->
  searchsorted_left arr key <= length arr /\
  (forall i, i < searchsorted_left arr key -> ltb (nth i arr nan) key = true) /\
  (forall i, searchsorted_left arr key <= i < length arr ->
             ltb (nth i arr nan) key = false).
Proof.
  intros Hinc Hkey. unfold searchsorted_left.
  destruct (binsearch_left_spec arr key Hinc Hkey (S (length arr)) 0 (length arr))
    as (Hr & Hbelow & Habove); try (intros; lia).
  repeat split; [lia | exact Hbelow | exact Habove].
Qed.

Lemma increasing_not_nan (bins : list float) (i : nat) :
  increasing bins -> 1 < length bins -> i < length bins -> is_nan (nth i bins nan) = false.
Proof.
  intros Hinc Hlen Hi.
  destruct i as [|i].
  - pose proof (increasing_nth bins 0 1 Hinc ltac:(lia)) as Hlt.
    destruct (nth 0 bins nan); try reflexivity. discriminate Hlt.
  - pose proof (increasing_nth bins 0 (S i) Hinc ltac:(lia)) as Hlt.
    destruct (nth (S i) bins nan); try reflexivity.
    rewrite float_ltb_nan_r in Hlt. discriminate.
Qed.

(** On ascending edges a value is in bucket [i] exactly when it lies in the
    left-open interval from edge [i] to edge [i+1]. *)
Lemma cut_spec (bins : list float) (x : float) (i : nat) :
  increasing bins ->
  cut bins x = Some i <->
  S i < length bins /\ ltb (nth i bins nan) x = true /\
  leb x (nth (S i) bins nan) = true.
Proof.
  intros Hinc. unfold cut.
  destruct (is_nan x) eqn:Hx.
  { cbn [orb]. split; [discriminate|]. intros (_ & Hlt & _).
    destruct x; try discriminate Hx. rewrite float_ltb_nan_r in Hlt. discriminate. }
  destruct (searchsorted_left_spec bins x Hinc Hx) as (Hr & Hbelow & Habove).
  set (r := searchsorted_left bins x) in *. cbn [orb].
  destruct (Nat.eqb_spec r (length bins)) as [Hfull | Hnfull]; cbn [orb].
  { split; [discriminate|]. intros (Hi & Hlt & Hle). exfalso.
    assert (Hb : is_nan (nth (S i) bins nan) = false)
      by (apply increasing_not_nan; [exact Hinc | lia | lia]).
    rewrite (float_leb_negb_ltb _ _ Hx Hb), (Hbelow (S i)) in Hle by lia.
    discriminate. }
  destruct (Nat.eqb_spec r 0) as [Hzero | Hnzero].
  { split; [discriminate|]. intros (Hi & Hlt & Hle). exfalso.
    rewrite (Habove i) in Hlt by lia. discriminate. }
  split.
  - intros [= <-].
    assert (Hb : is_nan (nth (S (r - 1)) bins nan) = false)
      by (apply increasing_not_nan; [exact Hinc | lia | lia]).
    repeat split; [lia | apply Hbelow; lia |].
    rewrite (float_leb_negb_ltb _ _ Hx Hb), (Habove (S (r - 1))) by lia. reflexivity.
  - intros (Hi & Hlt & Hle). f_equal.
    assert (Hb : is_nan (nth (S i) bins nan) = false)
      by (apply increasing_not_nan; [exact Hinc | lia | lia]).
    rewrite (float_leb_negb_ltb _ _ Hx Hb) in Hle.
    destruct (Nat.lt_ge_cases i r) as [Hir | Hir].
    + destruct (Nat.lt_ge_cases (S i) r) as [Hsr | Hsr]; [|lia].
      rewrite (Hbelow (S i) Hsr) in Hle. discriminate.
    + rewrite (Habove i) in Hlt by lia. discriminate.
Qed.

(** A value has a bucket exactly when it lies above the first edge and not
    above the last. *)
Lemma cut_in_range (bins : list float) (x : float) :
  increasing bins ->
  (exists i, cut bins x = Some i) <->
  ltb (nth 0 bins nan) x = true /\ leb x (nth (length bins - 1) bins nan) = true.
Proof.
  intros Hinc. split.
  - intros (i & Hcut). apply (cut_spec bins x i Hinc) in Hcut.
    destruct Hcut as (Hi & Hlt & Hle). split.
    + destruct i as [|i]; [exact Hlt|].
      eapply float_ltb_trans; [|exact Hlt]. apply increasing_nth; [exact Hinc | lia].
    + destruct (Nat.eq_dec (S i) (length bins - 1)) as [<- | Hne]; [exact Hle|].
      eapply float_leb_trans; [exact Hle|].
      apply float_ltb_leb, increasing_nth; [exact Hinc | lia].
  - intros (Hlt & Hle).
    assert (Hx : is_nan x = false).
    { destruct x; try reflexivity. rewrite float_ltb_nan_r in Hlt. discriminate. }
    destruct (searchsorted_left_spec bins x Hinc Hx) as (Hr & Hbelow & Habove).
    assert (Hlen : 0 < length bins).
    { destruct bins; [discriminate Hlt | cbn; lia]. }
    assert (Hpos : 0 < searchsorted_left bins x).
    { destruct (Nat.lt_ge_cases 0 (searchsorted_left bins x)) as [H0 | H0]; [exact H0|].
      rewrite (Habove 0) in Hlt by lia. discriminate. }
    assert (Hlast : searchsorted_left bins x <= length bins - 1).
    { destruct (Nat.lt_ge_cases (length bins - 1) (searchsorted_left bins x))
        as [H0 | H0]; [|exact H0].
      assert (Hb : is_nan (nth (length bins - 1) bins nan) = false).
      { destruct (nth (length bins - 1) bins nan); try reflexivity.
        rewrite float_leb_nan_r in Hle. discriminate. }
      rewrite (float_leb_negb_ltb _ _ Hx Hb), (Hbelow _ H0) in Hle. discriminate. }
    exists (searchsorted_left bins x - 1). unfold cut. rewrite Hx. cbn [orb].
    destruct (Nat.eqb_spec (searchsorted_left bins x) (length bins)); [lia|].
    destruct (Nat.eqb_spec (searchsorted_left bins x) 0); [lia|]. reflexivity.
Qed.

Lemma sum_list_seq_indicator (j start n : nat) :
  start <= j < start + n ->
  sum_list (map (fun i => if (j =? i)%nat then 1 else 0) (seq start n)) = 1.
Proof.
  revert start. induction n as [|n IH]; intros start Hj; [lia|].
  cbn [seq map sum_list foldr]. change (foldr Nat.add 0) with sum_list.
  destruct (Nat.eqb_spec j start) as [-> | Hne].
  - assert (Hz : forall m k, start < k ->
               sum_list (map (fun i => if (start =? i)%nat then 1 else 0) (seq k m)) = 0).
    { induction m as [|m IHm]; intros k Hk; [reflexivity|].
      cbn [seq map sum_list foldr]. change (foldr Nat.add 0) with sum_list.
      destruct (Nat.eqb_spec start k); [lia|]. rewrite IHm by lia. reflexivity. }
    rewrite Hz by lia. reflexivity.
  - rewrite IH by lia. reflexivity.
Qed.

(** X18. For bin edges in ascending order, as the price and the size chart
    have them: a value falls in bucket [i] exactly when it is above edge [i]
    and at most edge [i+1]; and the buckets together hold each row whose
    value is above the first edge and at most the last edge exactly once,
    and no other row. *)
Theorem buckets_hold_each_row_in_range_once (bins : list float) (key : Row -> float)
    (v : DataFrame) :
  increasing bins ->
  (forall (x : float) (i : nat),
     cut bins x = Some i <->
     S i < length bins /\ ltb (nth i bins nan) x = true /\
     leb x (nth (S i) bins nan) = true) /\
  sum_list (map (fun i => length (boolean_index v (map (in_bucket bins key i) v)))
                (seq 0 (length bins - 1))) =
  length (List.filter (fun r => ltb (nth 0 bins nan) (key r) &&
                                leb (key r) (nth (length bins - 1) bins nan)) v).
Proof.
  intros Hinc. split; [intros x i; apply cut_spec; exact Hinc|].
  induction v as [|r v IH].
  - cbn [map boolean_index length List.filter]. apply sum_list_zero.
  - rewrite (map_ext _ (fun i => (if in_bucket bins key i r then 1 else 0) +
                          length (boolean_index v (map (in_bucket bins key i) v)))).
    2:{ intros i. cbn [map boolean_index]. destruct (in_bucket bins key i r); reflexivity. }
    rewrite sum_list_plus, IH. cbn [List.filter].
    assert (Hone : sum_list (map (fun i => if in_bucket bins key i r then 1 else 0)
                                 (seq 0 (length bins - 1))) =
                   if ltb (nth 0 bins nan) (key r) &&
                      leb (key r) (nth (length bins - 1) bins nan) then 1 else 0).
    { pose proof (cut_in_range bins (key r) Hinc) as Hrange.
      unfold in_bucket. destruct (cut bins (key r)) as [j|] eqn:Hcut.
      - apply (cut_spec bins (key r) j Hinc) in Hcut as Hj. destruct Hj as (Hj & _).
        rewrite sum_list_seq_indicator by lia.
        destruct (proj1 Hrange (ex_intro _ j eq_refl)) as [-> ->]. reflexivity.
      - rewrite sum_list_zero.
        destruct (ltb (nth 0 bins nan) (key r) &&
                  leb (key r) (nth (length bins - 1) bins nan)) eqn:Hin; [|reflexivity].
        apply andb_true_iff in Hin. destruct (proj2 Hrange Hin) as (i & Hi).
        discriminate. }
    rewrite Hone.
    destruct (ltb (nth 0 bins nan) (key r) &&
              leb (key r) (nth (length bins - 1) bins nan)); reflexivity.
Qed.

(** On ascending edges the rows of bucket [i] are those whose value lies in
    the left-open interval from edge [i] to edge [i+1]. *)
Lemma in_bucket_interval (bins : list float) (key : Row -> float) (i : nat) (r : Row) :
  increasing bins -> S i < length bins ->
  in_bucket bins key i r =
  gtb (key r) (nth i bins nan) && leb (key r) (nth (S i) bins nan).
Proof.
  intros Hinc Hi. unfold in_bucket, gtb.
  pose proof (cut_spec bins (key r) i Hinc) as Hi'.
  destruct (cut bins (key r)) as [j|] eqn:Hcut.
  - destruct (Nat.eqb_spec j i) as [-> | Hne].
    + destruct (proj1 Hi' eq_refl) as (_ & -> & ->). reflexivity.
    + symmetry. apply not_true_is_false. intros Hb.
      apply andb_true_iff in Hb. destruct Hb as [Hb1 Hb2].
      assert (Some j = Some i) by (apply Hi'; auto). congruence.
  - symmetry. apply not_true_is_false. intros Hb.
    apply andb_true_iff in Hb. destruct Hb as [Hb1 Hb2].
    assert (@None nat = Some i) by (apply Hi'; auto). discriminate.
Qed.

Lemma size_edges_increasing : increasing size_bins.
Proof.
  unfold increasing, size_bins.
  repeat first [apply SSorted_nil | apply SSorted_cons | apply Forall_nil_2
               | apply Forall_cons_2]; vm_compute; reflexivity.
Qed.

Lemma buckets_hold_each_row_in_range_once_witness :
  increasing size_bins /\
  sum_list (map (fun i => length (boolean_index example_df
                                    (map (in_bucket size_bins Size_MB i) example_df)))
                (seq 0 (length size_bins - 1))) =
  length (List.filter (fun r => ltb (nth 0 size_bins nan) (Size_MB r) &&
                                leb (Size_MB r) (nth (length size_bins - 1) size_bins nan))
                      example_df).
Proof.
  split; [exact size_edges_increasing|].
  apply (buckets_hold_each_row_in_range_once size_bins Size_MB example_df
           size_edges_increasing).
Defined.

(** X19. The size chart: an app whose size is missing, is 0 MB or less, or
    is above 500 MB enters no bar; a size is in bucket [i] exactly when it
    is above edge [i] and at most edge [i+1]; and the four bars are the
    mean ratings over the sizes in (0, 10], (10, 50], (50, 100] and
    (100, 500]. *)
Theorem size_buckets_are_left_open (v : DataFrame) :
  (forall x : float,
     is_nan x = true \/ leb x (of_int 0) = true \/ gtb x (of_int 500) = true ->
     cut size_bins x = None) /\
  (forall (x : float) (i : nat),
     cut size_bins x = Some i <->
     i < 4 /\ ltb (nth i size_bins nan) x = true /\
     leb x (nth (S i) size_bins nan) = true) /\
  zip size_labels (size_rating v) =
    map (fun '(name, lo, hi) =>
           (name, mean (map Rating
                          (List.filter (fun r => gtb (Size_MB r) (of_int lo) &&
                                                 leb (Size_MB r) (of_int hi)) v))))
        [("<10MB", 0, 10); ("10-50MB", 10, 50); ("50-100MB", 50, 100);
         (">100MB", 100, 500)]%Z.
Proof.
  assert (Hiff : forall (x : float) (i : nat),
     cut size_bins x = Some i <->
     i < 4 /\ ltb (nth i size_bins nan) x = true /\
     leb x (nth (S i) size_bins nan) = true).
  { intros x i. rewrite (cut_spec size_bins x i size_edges_increasing).
    cbn [length size_bins]. split; intros (Hi & H); (split; [lia | exact H]). }
  split; [|split; [exact Hiff|]].
  - intros x Hout.
    destruct (cut size_bins x) as [i|] eqn:Hcut; [exfalso | reflexivity].
    pose proof (proj1 (cut_in_range size_bins x size_edges_increasing)
                      (ex_intro _ i Hcut)) as (Hlo & Hhi).
    cbn [nth length size_bins Nat.sub] in Hlo, Hhi.
    destruct Hout as [Hnan | [Hzero | Hbig]].
    + destruct x; try discriminate Hnan. rewrite float_ltb_nan_r in Hlo. discriminate.
    + destruct (float_leb_not_nan _ _ Hzero) as [Hx Hb].
      rewrite (float_leb_negb_ltb _ _ Hx Hb), Hlo in Hzero. discriminate.
    + unfold gtb in Hbig. destruct (float_leb_not_nan _ _ Hhi) as [Hx Hb].
      rewrite (float_leb_negb_ltb _ _ Hx Hb), Hbig in Hhi. discriminate.
  - assert (Hbucket : forall i r, i < 4 ->
              in_bucket size_bins Size_MB i r =
              gtb (Size_MB r) (nth i size_bins nan) &&
              leb (Size_MB r) (nth (S i) size_bins nan)).
    { intros i r Hi. apply in_bucket_interval; [exact size_edges_increasing|].
      cbn [length size_bins]. lia. }
    unfold size_rating, bucket_means, size_labels.
    cbn [length size_bins Nat.sub seq map zip zip_with].
    rewrite !boolean_index_filter.
    rewrite (filter_ext _ _ (fun r => Hbucket 0 r ltac:(lia))),
      (filter_ext _ _ (fun r => Hbucket 1 r ltac:(lia))),
      (filter_ext _ _ (fun r => Hbucket 2 r ltac:(lia))),
      (filter_ext _ _ (fun r => Hbucket 3 r ltac:(lia))).
    reflexivity.
Qed.

Lemma price_edges_ascending : increasing price_bins.
Proof.
  unfold increasing, price_bins.
  repeat first [apply SSorted_nil | apply SSorted_cons | apply Forall_nil_2
               | apply Forall_cons_2]; vm_compute; reflexivity.
Qed.

(** X20. The five bars of the price chart are the mean ratings over the
    prices in (0, 0.01], (0.01, 2], (2, 5], (5, 10] and (10, 100], under the
    labels Free, $0-2, $2-5, $5-10 and $10+. *)
Theorem price_bars_are_interval_means (v : DataFrame) :
  price_chart v =
    map (fun '(name, lo, hi) =>
           (name, mean (map Rating
                          (List.filter (fun r => gtb (Price_Clean r) lo &&
                                                 leb (Price_Clean r) hi) v))))
        [("Free", of_int 0, of_dec 1 2); ("$0-2", of_dec 1 2, of_int 2);
         ("$2-5", of_int 2, of_int 5); ("$5-10", of_int 5, of_int 10);
         ("$10+", of_int 10, of_int 100)].
Proof.
  assert (Hbucket : forall i r, i < 5 ->
            in_bucket price_bins Price_Clean i r =
            gtb (Price_Clean r) (nth i price_bins nan) &&
            leb (Price_Clean r) (nth (S i) price_bins nan)).
  { intros i r Hi. apply in_bucket_interval; [exact price_edges_ascending|].
    cbn [length price_bins]. lia. }
  unfold price_chart, price_rating, bucket_means, price_labels.
  cbn [length price_bins Nat.sub seq map zip zip_with].
  rewrite !boolean_index_filter.
  rewrite (filter_ext _ _ (fun r => Hbucket 0 r ltac:(lia))),
    (filter_ext _ _ (fun r => Hbucket 1 r ltac:(lia))),
    (filter_ext _ _ (fun r => Hbucket 2 r ltac:(lia))),
    (filter_ext _ _ (fun r => Hbucket 3 r ltac:(lia))),
    (filter_ext _ _ (fun r => Hbucket 4 r ltac:(lia))).
  reflexivity.
Qed.

(** * Counts with thousands separators *)

Lemma group_thousands_step (a b c d : ascii) (rest : list ascii) :
  group_thousands (a :: b :: c :: d :: rest) =
  a :: b :: c :: COMMA :: group_thousands (d :: rest).
Proof. reflexivity. Qed.

Lemma group_thousands_cases (P : list ascii -> Prop) :
  (forall l, length l <= 3 -> P l) ->
  (forall a b c d rest, P (d :: rest) -> P (a :: b :: c :: d :: rest)) ->
  forall l, P l.
Proof.
  intros Hshort Hstep l.
  assert (Hgen : forall n l, length l <= n -> P l).
  { clear l. induction n as [|n IH]; intros l Hl.
    - apply Hshort. lia.
    - destruct l as [|a [|b [|c [|d rest]]]]; try (apply Hshort; cbn; lia).
      apply Hstep, IH. cbn in Hl |- *. lia. }
  apply (Hgen (length l)). lia.
Qed.

Lemma group_thousands_short (l : list ascii) :
  length l <= 3 -> group_thousands l = l.
Proof.
  destruct l as [|a [|b [|c [|d rest]]]]; cbn; try reflexivity. lia.
Qed.

Lemma group_thousands_digits (l : list ascii) :
  Forall (fun c => Ascii.eqb c COMMA = false) l ->
  List.filter (fun c => negb (Ascii.eqb c COMMA)) (group_thousands l) = l.
Proof.
  assert (Hplain : forall k : list ascii,
             Forall (fun c => Ascii.eqb c COMMA = false) k ->
             List.filter (fun c => negb (Ascii.eqb c COMMA)) k = k).
  { intros k. induction 1 as [|c k Hc _ IH]; [reflexivity|].
    cbn. rewrite Hc. cbn. rewrite IH. reflexivity. }
  revert l. apply (group_thousands_cases
    (fun l => Forall (fun c => Ascii.eqb c COMMA = false) l ->
              List.filter (fun c => negb (Ascii.eqb c COMMA)) (group_thousands l) = l)).
  - intros l Hl Hall. rewrite (group_thousands_short l Hl). apply Hplain, Hall.
  - intros a b c d rest IH Hall. rewrite group_thousands_step.
    inversion Hall as [|? ? Ha Hall1]; subst.
    inversion Hall1 as [|? ? Hb Hall2]; subst.
    inversion Hall2 as [|? ? Hc Hall3]; subst.
    cbn [List.filter]. rewrite Ha, Hb, Hc, Ascii.eqb_refl. cbn [negb].
    rewrite (IH Hall3). reflexivity.
Qed.

Lemma group_thousands_commas (l : list ascii) :
  Forall (fun c => Ascii.eqb c COMMA = false) l ->
  forall p : nat, p < length (group_thousands l) ->
    nth p (group_thousands l) COMMA = COMMA <-> p mod 4 = 3.
Proof.
  revert l. apply (group_thousands_cases
    (fun l => Forall (fun c => Ascii.eqb c COMMA = false) l ->
              forall p : nat, p < length (group_thousands l) ->
                nth p (group_thousands l) COMMA = COMMA <-> p mod 4 = 3)).
  - intros l Hl Hall p. rewrite (group_thousands_short l Hl). intros Hp.
    assert (Hmod : p mod 4 = p) by (apply Nat.mod_small; lia).
    rewrite Hmod. split; [|lia].
    intros Heq. exfalso. rewrite Forall_forall in Hall.
    assert (Hin : nth p l COMMA ∈ l) by (apply list_elem_of_In, nth_In; exact Hp).
    apply Hall in Hin. rewrite Heq, Ascii.eqb_refl in Hin. discriminate.
  - intros a b c d rest IH Hall p. rewrite group_thousands_step.
    inversion Hall as [|? ? Ha Hall1]; subst.
    inversion Hall1 as [|? ? Hb Hall2]; subst.
    inversion Hall2 as [|? ? Hc Hall3]; subst.
    assert (Hne : forall x, Ascii.eqb x COMMA = false -> x = COMMA -> False).
    { intros x Hx ->. rewrite Ascii.eqb_refl in Hx. discriminate. }
    destruct p as [|[|[|[|p]]]]; cbn [nth length]; intros Hp.
    + split; [intros H; exfalso; eauto | cbn; lia].
    + split; [intros H; exfalso; eauto | cbn; lia].
    + split; [intros H; exfalso; eauto | cbn; lia].
    + split; reflexivity.
    + rewrite (IH Hall3 p) by lia.
      replace (S (S (S (S p)))) with (p + 1 * 4) by lia.
      rewrite Nat.Div0.mod_add. reflexivity.
Qed.

Lemma digits_hold_no_comma (z : Z) :
  Forall (fun c => Ascii.eqb c COMMA = false) (list_ascii_of_string (string_of_Z z)).
Proof.
  assert (Hu : forall u, has_char (fun c => Ascii.eqb c COMMA)
                           (NilEmpty.string_of_uint u) = false).
  { induction u; cbn; auto. }
  assert (Hz : has_char (fun c => Ascii.eqb c COMMA) (string_of_Z z) = false).
  { unfold string_of_Z, NilZero.string_of_uint.
    destruct (N.to_uint (Z.to_N z)); try reflexivity; apply Hu. }
  rewrite <- has_char_list_of_string in Hz.
  apply Forall_forall. intros c Hc.
  destruct (Ascii.eqb c COMMA) eqn:Hcomma; [|reflexivity].
  assert (Hex : existsb (fun c => Ascii.eqb c COMMA)
                        (list_ascii_of_string (string_of_Z z)) = true).
  { apply existsb_exists. exists c. split; [apply list_elem_of_In; exact Hc | exact Hcomma]. }
  congruence.
Qed.

Lemma filter_rev_comm {A : Type} (f : A -> bool) (l : list A) :
  List.filter f (rev l) = rev (List.filter f l).
Proof.
  induction l as [|x l IH]; [reflexivity|].
  cbn [rev List.filter]. rewrite List.filter_app, IH. cbn [List.filter].
  destruct (f x); cbn [rev]; [reflexivity | apply app_nil_r].
Qed.

Lemma string_length_list (s : string) :
  String.length s = length (list_ascii_of_string s).
Proof. induction s as [|c s IH]; cbn; [|rewrite IH]; reflexivity. Qed.

(** X21. The counts of the sidebar line and of the Total Apps metric are
    the decimal digits of the count with separators added: leaving out the
    commas gives the decimal number, and, counting the characters from the
    right, the commas stand at exactly every fourth place. *)
Theorem counts_are_grouped_by_thousands (n : nat) :
  List.filter (fun c => negb (Ascii.eqb c COMMA))
              (list_ascii_of_string (format_thousands n)) =
    list_ascii_of_string (string_of_Z (Z.of_nat n)) /\
  forall p : nat, p < String.length (format_thousands n) ->
    nth p (rev (list_ascii_of_string (format_thousands n))) COMMA = COMMA <->
    p mod 4 = 3.
Proof.
  unfold format_thousands.
  set (ds := list_ascii_of_string (string_of_Z (Z.of_nat n))).
  assert (Hds : Forall (fun c => Ascii.eqb c COMMA = false) (rev ds)).
  { apply Forall_forall. intros c Hc. apply list_elem_of_In, in_rev in Hc.
    pose proof (digits_hold_no_comma (Z.of_nat n)) as Hall.
    rewrite Forall_forall in Hall. apply Hall, list_elem_of_In, Hc. }
  rewrite list_ascii_of_string_of_list_ascii. split.
  - rewrite filter_rev_comm, (group_thousands_digits _ Hds). apply rev_involutive.
  - intros p Hp. rewrite rev_involutive.
    apply (group_thousands_commas _ Hds).
    rewrite <- (length_rev (group_thousands (rev ds))).
    rewrite <- (list_ascii_of_string_of_list_ascii (rev (group_thousands (rev ds)))).
    rewrite <- string_length_list. exact Hp.
Qed.

(** * Signs of sums and quotients *)

Lemma gtb_zero_not_positive (x : float) : gtb x zero = negb (not_positive x).
Proof. destruct x as [[] | [] | | [] m e]; reflexivity. Qed.

(** Rounding keeps the sign it is given. *)
Lemma binary_round_aux_sign (sx : bool) (mx ex : Z) (lx : location) :
  (if sx then not_positive else not_negative)
    (binary_round_aux prec emax sx mx ex lx) = true.
Proof.
  unfold binary_round_aux.
  destruct (shr_fexp prec emax mx ex lx) as [mrs' e'].
  destruct (shr_fexp prec emax _ e' loc_Exact) as [mrs'' e''].
  destruct (shr_m mrs''); [| destruct (e'' <=? emax - prec)%Z |]; destruct sx; reflexivity.
Qed.

Lemma binary_round_sign (sx : bool) (mx : positive) (ex : Z) :
  (if sx then not_positive else not_negative) (binary_round prec emax sx mx ex) = true.
Proof.
  unfold binary_round.
  destruct (shl_align mx ex _) as [mz ez]. apply binary_round_aux_sign.
Qed.

Lemma add_not_positive (x y : float) :
  not_positive x = true -> not_positive y = true -> not_positive (add x y) = true.
Proof.
  destruct x as [[] | [] | | [] mx ex], y as [[] | [] | | [] my ey];
    cbn; try reflexivity; try discriminate.
  intros _ _. apply (binary_round_sign true).
Qed.

Lemma div_not_positive (x y : float) :
  not_positive x = true -> not_negative y = true -> not_positive (div x y) = true.
Proof.
  destruct x as [[] | [] | | [] mx ex], y as [[] | [] | | [] my ey];
    cbn; try reflexivity; try discriminate.
  intros _ _.
  destruct (SFdiv_core_binary prec emax (Z.pos mx) ex (Z.pos my) ey) as [[mz ez] lz].
  apply (binary_round_aux_sign true).
Qed.

Lemma of_int_not_negative (z : Z) : (0 <= z)%Z -> not_negative (of_int z) = true.
Proof.
  destruct z as [|p|p]; intros Hz; [reflexivity | | lia].
  apply (binary_round_sign false).
Qed.

Lemma np_sum_not_positive (xs : list float) :
  Forall (fun x => not_positive x = true) xs -> not_positive (np_sum xs) = true.
Proof.
  unfold np_sum. assert (Hzero : not_positive zero = true) by reflexivity.
  revert Hzero. generalize zero. intros acc Hacc Hall. revert acc Hacc.
  induction Hall as [|x xs Hx _ IH]; intros acc Hacc; [exact Hacc|].
  cbn [fold_left]. apply IH, add_not_positive; assumption.
Qed.

(** A mean above zero takes a value above zero. *)
Lemma mean_positive (xs : list float) :
  gtb (mean xs) zero = true -> exists x, x ∈ xs /\ gtb x zero = true.
Proof.
  intros Hpos.
  destruct (existsb (fun x => gtb x zero) xs) eqn:Hex.
  { apply existsb_exists in Hex. destruct Hex as (x & Hin & Hx).
    exists x. split; [apply list_elem_of_In; exact Hin | exact Hx]. }
  exfalso. rewrite gtb_zero_not_positive in Hpos.
  assert (Hnp : not_positive (mean xs) = true); [|rewrite Hnp in Hpos; discriminate].
  unfold mean.
  destruct (0 <? count_true (map (fun x => negb (is_nan x)) xs))%nat; [|reflexivity].
  apply div_not_positive; [|apply of_int_not_negative; lia].
  apply np_sum_not_positive, Forall_map, Forall_forall. intros x Hin.
  destruct (is_nan x) eqn:Hnan; [reflexivity|].
  assert (Hx : gtb x zero = false).
  { destruct (gtb x zero) eqn:Hx; [|reflexivity].
    assert (existsb (fun x => gtb x zero) xs = true); [|congruence].
    apply existsb_exists. exists x. split; [apply list_elem_of_In; exact Hin | exact Hx]. }
  rewrite gtb_zero_not_positive in Hx. destruct (not_positive x); [reflexivity | discriminate].
Qed.

(** X22. The average sentiment is labelled Positive only if some app of the
    view has a sentiment above zero. *)
Theorem positive_label_needs_a_positive_app (v : DataFrame) :
  delta (metric_avg_sentiment v) = Some "Positive" ->
  exists r : Row, r ∈ v /\ gtb (sentiment_polarity_mean r) zero = true.
Proof.
  unfold metric_avg_sentiment, avg_polarity. cbn [delta].
  change (of_int 0) with zero.
  destruct (gtb (mean (map sentiment_polarity_mean v)) zero) eqn:Hpos; [|discriminate].
  intros _. destruct (mean_positive _ Hpos) as (x & Hin & Hx).
  apply list_elem_of_fmap in Hin. destruct Hin as (r & -> & Hr). eauto.
Qed.

Lemma positive_label_needs_a_positive_app_witness :
  delta (metric_avg_sentiment example_df) = Some "Positive" /\
  exists r : Row, r ∈ example_df /\ gtb (sentiment_polarity_mean r) zero = true.
Proof.
  assert (Hpos : delta (metric_avg_sentiment example_df) = Some "Positive")
    by (vm_compute; reflexivity).
  split; [exact Hpos|].
  apply (positive_label_needs_a_positive_app example_df Hpos).
Defined.

(** * The install total *)

Lemma wrap64_small (z : Z) : (- 2 ^ 63 <= z < 2 ^ 63)%Z -> wrap64 z = z.
Proof. intros Hz. unfold wrap64. rewrite Z.mod_small by lia. lia. Qed.

Lemma all_int64_map (zs : list Z) : all_int64 (map Int64 zs) = Some zs.
Proof. induction zs as [|z zs IH]; cbn; [|rewrite IH]; reflexivity. Qed.

Lemma int_sum_cons (z : Z) (zs : list Z) : int_sum (z :: zs) = (z + int_sum zs)%Z.
Proof. reflexivity. Qed.

Lemma int_sum_nonneg (zs : list Z) :
  Forall (fun z => (0 <= z)%Z) zs -> (0 <= int_sum zs)%Z.
Proof.
  induction 1 as [|z zs Hz _ IH]; [reflexivity|]. rewrite int_sum_cons. lia.
Qed.

Lemma int64_sum_exact (zs : list Z) (acc : Z) :
  Forall (fun z => (0 <= z)%Z) zs -> (0 <= acc)%Z ->
  (acc + int_sum zs < 2 ^ 63)%Z ->
  fold_left (fun a z => wrap64 (a + z)) zs acc = (acc + int_sum zs)%Z.
Proof.
  intros Hall. revert acc. induction Hall as [|z zs Hz Hzs IH]; intros acc Hacc Hsum.
  - change (int_sum []) with 0%Z. cbn. lia.
  - rewrite int_sum_cons in *. cbn [fold_left].
    pose proof (int_sum_nonneg zs Hzs) as Hrest.
    rewrite wrap64_small by lia. rewrite IH by lia. lia.
Qed.

(** Below 2^53 the conversion keeps the strict order. *)
Lemma of_int_lt (a b : Z) :
  (0 <= a < b)%Z -> (b < 2 ^ 53)%Z -> ltb (of_int a) (of_int b) = true.
Proof.
  intros Hab Hb. apply float_ltb_rank. unfold rank_rel.
  assert (Hbits : forall p, (Z.pos p < 2 ^ 53)%Z -> (Z.pos (digits2_pos p) <= 53)%Z).
  { intros p Hp. rewrite digits2_pos_log2.
    assert (Z.log2 (Z.pos p) < 53)%Z by (apply Z.log2_lt_pow2; lia). lia. }
  destruct a as [|p|p], b as [|q|q]; try lia.
  - rewrite of_int_zero, of_int_exact by (apply Hbits; lia). cbn [rank_lt]. lia.
  - rewrite !of_int_exact by (apply Hbits; lia). cbn [rank_lt].
    rewrite !digits2_pos_log2.
    assert (Hl : (Z.log2 (Z.pos p) <= Z.log2 (Z.pos q))%Z) by (apply Z.log2_le_mono; lia).
    assert (Hlq : (Z.log2 (Z.pos q) < 53)%Z) by (apply Z.log2_lt_pow2; lia).
    assert (Hlp : (0 <= Z.log2 (Z.pos p))%Z) by apply Z.log2_nonneg.
    destruct (Z.eq_dec (Z.log2 (Z.pos p)) (Z.log2 (Z.pos q))) as [He|Hne].
    + rewrite He.
      assert (0 < 2 ^ (53 - (Z.log2 (Z.pos q) + 1)))%Z by (apply Z.pow_pos_nonneg; lia).
      right. split; [reflexivity|]. right. split; [reflexivity | nia].
    + right. split; [reflexivity|]. left. lia.
Qed.

Lemma of_int_gtb (a b : Z) :
  (0 <= a < 2 ^ 53)%Z -> (0 <= b < 2 ^ 53)%Z ->
  gtb (of_int a) (of_int b) = (b <? a)%Z.
Proof.
  intros Ha Hb. unfold gtb. destruct (Z.ltb_spec b a) as [Hlt | Hge].
  - apply of_int_lt; lia.
  - pose proof (of_int_mono a b ltac:(lia) ltac:(lia)) as Hle.
    destruct (float_leb_not_nan _ _ Hle) as [Hna Hnb].
    rewrite (float_leb_negb_ltb _ _ Hna Hnb) in Hle.
    destruct (ltb (of_int b) (of_int a)); [discriminate | reflexivity].
Qed.

(** X23. When the install counts of the view are int64 values that are not
    negative and add up to a total below 2^53, the install total is that
    exact sum (no wrap-around), and the metric shows it in billions exactly
    when it exceeds 1,000,000,000, in millions otherwise (one billion
    itself is shown in millions). *)
Theorem install_total_is_exact_and_split_at_a_billion (v : DataFrame) (zs : list Z) :
  map Installs_Clean v = map Int64 zs ->
  Forall (fun z => (0 <= z)%Z) zs ->
  (int_sum zs < 2 ^ 53)%Z ->
  total_installs v = Int64 (int_sum zs) /\
  value (metric_total_installs v) =
    if (10 ^ 9 <? int_sum zs)%Z
    then (format_fixed false 1
            (div (of_int (int_sum zs)) (of_int (10 ^ 9))) ++ "B")%string
    else (format_fixed false 0
            (div (of_int (int_sum zs)) (of_int (10 ^ 6))) ++ "M")%string.
Proof.
  intros Hcol Hall Hsum.
  pose proof (int_sum_nonneg zs Hall) as Hnonneg.
  assert (Htotal : total_installs v = Int64 (int_sum zs)).
  { unfold total_installs, series_sum. rewrite Hcol, all_int64_map.
    rewrite int64_sum_exact; [reflexivity | exact Hall | lia | lia]. }
  split; [exact Htotal|].
  unfold metric_total_installs. rewrite Htotal. cbn [value num_to_float].
  rewrite of_int_gtb by lia. reflexivity.
Qed.

Lemma install_total_is_exact_and_split_at_a_billion_witness :
  map Installs_Clean example_df = map Int64 [1000000; 1000000; 1000000]%Z /\
  total_installs example_df = Int64 3000000 /\
  value (metric_total_installs example_df) = "3M".
Proof.
  assert (Hcol : map Installs_Clean example_df = map Int64 [1000000; 1000000; 1000000]%Z)
    by reflexivity.
  assert (Hall : Forall (fun z => (0 <= z)%Z) [1000000; 1000000; 1000000]%Z).
  { repeat first [apply Forall_nil_2 | apply Forall_cons_2]; lia. }
  assert (Hsum : (int_sum [1000000; 1000000; 1000000] < 2 ^ 53)%Z)
    by (cbn; lia).
  split; [exact Hcol|].
  destruct (install_total_is_exact_and_split_at_a_billion example_df _ Hcol Hall Hsum)
    as [Htotal Hvalue].
  split; [exact Htotal|].
  rewrite Hvalue. vm_compute. reflexivity.
Defined.

(** * Integers through the export and back *)

Lemma of_uint_acc_value (u : Decimal.uint) (acc : positive) :
  Z.pos (Pos.of_uint_acc u acc) = uint_value u (Z.pos acc).
Proof.
  revert acc. induction u; intros acc; cbn [Pos.of_uint_acc uint_value];
    try reflexivity; rewrite IHu; f_equal; lia.
Qed.

Lemma of_uint_value (u : Decimal.uint) : Z.of_N (N.of_uint u) = uint_value u 0.
Proof.
  unfold N.of_uint.
  induction u; cbn [Pos.of_uint uint_value]; try reflexivity;
    try (exact IHu); cbn [Z.of_N]; rewrite of_uint_acc_value; reflexivity.
Qed.

Lemma read_digits_uint (u : Decimal.uint) (acc : Z) (count : nat) :
  read_digits (list_ascii_of_string (NilEmpty.string_of_uint u)) acc count =
  (uint_value u acc, count + Decimal.nb_digits u, []).
Proof.
  revert acc count. induction u; intros acc count;
    cbn [NilEmpty.string_of_uint list_ascii_of_string read_digits uint_value
         Decimal.nb_digits];
    [rewrite Nat.add_0_r; reflexivity | ..];
    (change (digit_value "0") with (Some 0%Z) ||
     change (digit_value "1") with (Some 1%Z) ||
     change (digit_value "2") with (Some 2%Z) ||
     change (digit_value "3") with (Some 3%Z) ||
     change (digit_value "4") with (Some 4%Z) ||
     change (digit_value "5") with (Some 5%Z) ||
     change (digit_value "6") with (Some 6%Z) ||
     change (digit_value "7") with (Some 7%Z) ||
     change (digit_value "8") with (Some 8%Z) ||
     change (digit_value "9") with (Some 9%Z));
    cbv beta iota; rewrite IHu, Nat.add_succ_r; reflexivity.
Qed.

(** The decimal rendering of a natural number reads back as that number. *)
Lemma read_digits_string_of_Z (n : Z) :
  (0 <= n)%Z ->
  exists count : nat,
    read_digits (list_ascii_of_string (string_of_Z n)) 0 0 = (n, S count, []).
Proof.
  intros Hn. unfold string_of_Z.
  pose proof (DecimalN.Unsigned.of_to (Z.to_N n)) as Hrt.
  apply (f_equal Z.of_N) in Hrt. rewrite of_uint_value, Z2N.id in Hrt by exact Hn.
  destruct (N.to_uint (Z.to_N n)) as [|u|u|u|u|u|u|u|u|u|u] eqn:Hu;
    [ exists 0; cbn in Hrt |- *; subst n; reflexivity
    | exists (Decimal.nb_digits u) ..];
    cbn [NilZero.string_of_uint]; rewrite read_digits_uint, Hrt; reflexivity.
Qed.

Lemma digit_chars (c : ascii) (d : Z) :
  digit_value c = Some d ->
  is_space c = false /\ c <> "-"%char /\ c <> "+"%char.
Proof.
  destruct c as [[] [] [] [] [] [] [] []]; vm_compute; intros H;
    try discriminate H; repeat split; discriminate.
Qed.

Lemma string_of_Z_head (n : Z) :
  exists (c : ascii) (d : Z) (rest : string),
    string_of_Z n = String c rest /\ digit_value c = Some d.
Proof.
  unfold string_of_Z.
  destruct (N.to_uint (Z.to_N n)); cbn; eauto.
Qed.

Lemma parse_int_digits (n : Z) (neg : bool) :
  (0 <= n)%Z ->
  parse_int ((if neg then "-" else "") ++ string_of_Z n) = Some (if neg then - n else n)%Z.
Proof.
  intros Hn. destruct (read_digits_string_of_Z n Hn) as (count & Hread).
  destruct (string_of_Z_head n) as (c & d & rest & Hs & Hc).
  destruct (digit_chars c d Hc) as (Hsp & Hminus & Hplus).
  unfold parse_int.
  assert (Hsign : read_sign (skip_space (list_ascii_of_string
                    ((if neg then "-" else "") ++ string_of_Z n))) =
                  (neg, list_ascii_of_string (string_of_Z n))).
  { destruct neg; cbn [String.append list_ascii_of_string].
    - reflexivity.
    - rewrite Hs. cbn [list_ascii_of_string skip_space]. rewrite Hsp.
      unfold read_sign.
      destruct (Ascii.eqb_spec c "-"%char) as [E|_]; [contradiction|].
      destruct (Ascii.eqb_spec c "+"%char) as [E|_]; [contradiction|].
      destruct c as [[] [] [] [] [] [] [] []]; try reflexivity; congruence. }
  rewrite Hsign, Hread. reflexivity.
Qed.

Lemma parse_int_repr (z : Z) : parse_int (int_repr z) = Some z.
Proof.
  unfold int_repr. destruct (Z.ltb_spec z 0) as [Hneg | Hpos].
  - rewrite (parse_int_digits (- z) true) by lia. f_equal. lia.
  - apply (parse_int_digits z false Hpos).
Qed.

Lemma na_marker_chars (s : string) :
  is_na s = true -> s = EmptyString \/ has_char not_integer_char s = true.
Proof.
  unfold is_na, na_values. cbn [existsb]. rewrite !orb_true_iff, !String.eqb_eq.
  intros H. repeat (destruct H as [-> | H]); try discriminate H;
    (left; reflexivity) || (right; vm_compute; reflexivity).
Qed.

Lemma int_repr_chars (z : Z) :
  int_repr z <> EmptyString /\ has_char not_integer_char (int_repr z) = false.
Proof.
  assert (Hu : forall u, has_char not_integer_char (NilEmpty.string_of_uint u) = false).
  { induction u; cbn [NilEmpty.string_of_uint has_char]; try reflexivity;
      rewrite IHu; reflexivity. }
  assert (Hz : forall n, has_char not_integer_char (string_of_Z n) = false).
  { intros n. unfold string_of_Z, NilZero.string_of_uint.
    destruct (N.to_uint (Z.to_N n)); try reflexivity; apply Hu. }
  unfold int_repr. destruct (z <? 0)%Z.
  - split; [discriminate|]. cbn [String.append has_char]. rewrite Hz. reflexivity.
  - split; [|apply Hz].
    destruct (string_of_Z_head z) as (c & d & rest & -> & _). discriminate.
Qed.

Lemma int_repr_not_na (z : Z) : is_na (int_repr z) = false.
Proof.
  destruct (is_na (int_repr z)) eqn:Hna; [|reflexivity].
  destruct (int_repr_chars z) as [Hne Hchars].
  destruct (na_marker_chars _ Hna); congruence.
Qed.

(** An int64 value written by the export is read back as itself. *)
Lemma int_cell_repr (z : Z) : in_int64 z = true -> int_cell (int_repr z) = Some z.
Proof.
  intros Hz. unfold int_cell. rewrite int_repr_not_na, parse_int_repr, Hz. reflexivity.
Qed.

Lemma infer_int_column (zs : list Z) :
  zs <> [] -> Forall (fun z => in_int64 z = true) zs ->
  infer_column (map int_repr zs) = Some (ColInt zs).
Proof.
  intros Hne Hall. unfold infer_column.
  destruct zs as [|z0 zs']; [congruence|]. set (zs := z0 :: zs') in *.
  change (map int_repr zs) with (int_repr z0 :: map int_repr zs') at 1.
  cbv iota beta.
  assert (Hbeyond : existsb beyond_int64 (map int_repr zs) = false).
  { clearbody zs. clear -Hall. induction Hall as [|z zs Hz _ IH]; [reflexivity|].
    cbn [map existsb]. rewrite IH. unfold beyond_int64.
    rewrite int_repr_not_na, parse_int_repr, Hz. reflexivity. }
  assert (Hbool : bool_with_na (map int_repr zs) = false).
  { unfold bool_with_na.
    assert (Hna : existsb is_na (map int_repr zs) = false).
    { clearbody zs. clear. induction zs as [|z zs IH]; [reflexivity|].
      cbn [map existsb]. rewrite IH, int_repr_not_na. reflexivity. }
    rewrite Hna. reflexivity. }
  rewrite Hbeyond, Hbool. cbn [orb].
  assert (Hints : mapM int_cell (map int_repr zs) = Some zs).
  { apply mapM_Some. clearbody zs. clear -Hall.
    induction Hall as [|z zs Hz _ IH]; constructor; [apply int_cell_repr, Hz | exact IH]. }
  rewrite Hints. reflexivity.
Qed.

(** X24. Integer columns keep their type and their values through the
    export: when the view is not empty and its review counts, respectively
    its install counts, are int64 values, the fifth, respectively sixth,
    field of the exported records is read back by [read_csv]'s type
    inference as an int64 column with the same numbers. *)
Theorem integer_columns_survive_the_export (v : DataFrame) (zs : list Z) :
  v <> [] ->
  Forall (fun z => in_int64 z = true) zs ->
  (map Reviews v = map Int64 zs ->
   infer_column (map (fun r => nth_field 4 (row_fields r)) v) = Some (ColInt zs)) /\
  (map Installs_Clean v = map Int64 zs ->
   infer_column (map (fun r => nth_field 5 (row_fields r)) v) = Some (ColInt zs)).
Proof.
  intros Hne Hall.
  assert (Hcol : forall col : Row -> num,
            map col v = map Int64 zs ->
            map (fun r => num_cell (col r)) v = map int_repr zs).
  { intros col Hcol. rewrite <- (map_map col num_cell), Hcol, map_map. reflexivity. }
  assert (Hzs : forall col : Row -> num, map col v = map Int64 zs -> zs <> []).
  { intros col Hc ->. destruct v; [congruence | discriminate Hc]. }
  split; intros Hc.
  - change (fun r => nth_field 4 (row_fields r)) with (fun r => num_cell (Reviews r)).
    rewrite (Hcol Reviews Hc). apply infer_int_column; eauto.
  - change (fun r => nth_field 5 (row_fields r)) with (fun r => num_cell (Installs_Clean r)).
    rewrite (Hcol Installs_Clean Hc). apply infer_int_column; eauto.
Qed.

Lemma integer_columns_survive_the_export_witness :
  example_df <> [] /\
  Forall (fun z => in_int64 z = true) [500; 50; 2000]%Z /\
  map Reviews example_df = map Int64 [500; 50; 2000]%Z /\
  infer_column (map (fun r => nth_field 4 (row_fields r)) example_df) =
    Some (ColInt [500; 50; 2000]%Z).
Proof.
  assert (Hne : example_df <> []) by discriminate.
  assert (Hall : Forall (fun z => in_int64 z = true) [500; 50; 2000]%Z).
  { repeat first [apply Forall_nil_2 | apply Forall_cons_2]; reflexivity. }
  assert (Hcol : map Reviews example_df = map Int64 [500; 50; 2000]%Z) by reflexivity.
  split; [exact Hne|]. split; [exact Hall|]. split; [exact Hcol|].
  apply (proj1 (integer_columns_survive_the_export example_df _ Hne Hall) Hcol).
Defined.
